(** * sol-dbg: the trace annotator of [src/debug/sol_debugger.ts]

    A shallow embedding of [SolTxDebugger]: the frame stack reconciler
    ([adjustStackFrame]), the VM step normaliser and event extractor
    ([processRawTraceStep]), the frame builders, [decodeFunArgs] and the
    trace driver ([debugTx]).

    Conventions.
    - A JS [number] that holds an integer is a [Z]; [NaN] is [None] where it
      can arise.
    - A [Buffer] is its byte contents.  The two buffers whose identity
      matters (a step's [memory] and [storage]) carry an allocation id.
    - A JS array is a list in array order: the top of [stack: Frame[]] and of
      the operand stack is the LAST element.
    - A thrown exception is [Fail]; [await] is sequencing. *)

From Stdlib Require Import ZArith List Bool Lia.
From Stdlib.Strings Require Import String Ascii Byte.
From Stdlib Require Import DecimalString.
Import ListNotations.
Local Open Scope string_scope.
Local Open Scope list_scope.
Local Open Scope Z_scope.

Set Implicit Arguments.

(** ** Exceptions *)

Inductive Exn : Type :=
| AssertUnexpectedDepthIncrease (mnemonic : string)
| AssertMismatchedInternalReturn
| AssertStackUnderflow (nFormals stackDepth : Z)
| TypeErrorUndefined
| SrcMapError.

Inductive result (A : Type) : Type :=
| Ok (a : A)
| Fail (e : Exn).

Arguments Ok {A} a.
Arguments Fail {A} e.

Definition bind {A B} (m : result A) (k : A -> result B) : result B :=
  match m with
  | Ok a => k a
  | Fail e => Fail e
  end.

Notation "x <- m ;; k" := (bind m (fun x => k))
  (at level 61, m at next level, right associativity).
Notation "' p <- m ;; k" := (bind m (fun p => k))
  (at level 61, p pattern, m at next level, right associativity).

Definition assert (b : bool) (e : Exn) : result unit :=
  if b then Ok tt else Fail e.

(** An array or buffer read [a[i]] that the code dereferences at once:
    [undefined] (index out of range, negative included) is a [TypeError]. *)
Definition js_get {A} (l : list A) (i : Z) : option A :=
  if i <? 0 then None else nth_error l (Z.to_nat i).

Definition defined {A} (o : option A) : result A :=
  match o with
  | Some a => Ok a
  | None => Fail TypeErrorUndefined
  end.

Definition len {A} (l : list A) : Z := Z.of_nat (List.length l).

(** [Array.prototype.slice] / [Buffer.prototype.slice] index rules: a
    negative index counts from the end and everything is clamped to the
    length.  A [NaN] start (here [None]) is 0. *)
Definition relIndex (n i : Z) : Z :=
  if i <? 0 then Z.max (n + i) 0 else Z.min i n.

Definition js_slice {A} (l : list A) (s : option Z) (e : Z) : list A :=
  let s' := match s with Some i => relIndex (len l) i | None => 0 end in
  let e' := relIndex (len l) e in
  firstn (Z.to_nat (e' - s')) (skipn (Z.to_nat s') l).

Definition slice {A} (l : list A) (s e : Z) : list A := js_slice l (Some s) e.

(** [a.slice(s)]: the end defaults to the length. *)
Definition sliceFrom {A} (l : list A) (s : Z) : list A := slice l s (len l).

(** ** Bytes, words and addresses *)

Definition Buffer := list byte.

Definition byteZ (b : byte) : Z := Z.of_N (Byte.to_N b).

Definition zByte (z : Z) : byte :=
  match Byte.of_N (Z.to_N (z mod 256)) with
  | Some b => b
  | None => x00
  end.

(** Modelled from the spec: [bigEndianBufToBigint] of [src/utils] (not
    under src/): the bytes read as a big-endian unsigned integer. *)
Definition bigEndianBufToBigint (buf : Buffer) : Z :=
  fold_left (fun acc b => acc * 256 + byteZ b) buf 0.

(** Modelled from the spec: [bigEndianBufToNumber] of [src/utils] (not
    under src/).  The spec reads stack words as arbitrary-precision
    unsigned integers, so the model is exact. *)
Definition bigEndianBufToNumber (buf : Buffer) : Z := bigEndianBufToBigint buf.

(** [BN.toArray("be", 32)]: the 32 big-endian bytes of a VM word.  The
    model is exact for [0 <= z < 2 ^ 256], which every EVM word is; outside
    that range [BN.toArray] throws (more than 32 bytes) or writes the
    magnitude (negative numbers) where the model wraps around, so a
    statement about the recorded words of arbitrary step events carries the
    range as a hypothesis. *)
Fixpoint toArrayBE (n : nat) (z : Z) : Buffer :=
  match n with
  | O => []
  | S k => toArrayBE k (z / 256) ++ [zByte z]
  end.

Definition wordOfBN (z : Z) : Buffer := toArrayBE 32 z.

Definition hexDigit (n : Z) : ascii :=
  nth (Z.to_nat n)
      ["0"; "1"; "2"; "3"; "4"; "5"; "6"; "7";
       "8"; "9"; "a"; "b"; "c"; "d"; "e"; "f"]%char "0"%char.

Fixpoint toHex (buf : Buffer) : string :=
  match buf with
  | [] => EmptyString
  | b :: rest => String (hexDigit (byteZ b / 16)) (String (hexDigit (byteZ b mod 16)) (toHex rest))
  end.

(** [Address] of ethereumjs-util: a wrapped 20-byte buffer. *)
Record Address : Type := { addrBuf : Buffer }.

Definition Address_toString (a : Address) : string := ("0x" ++ toHex (addrBuf a))%string.

Definition Address_equals (a b : Address) : bool :=
  if list_eq_dec Byte.byte_eq_dec (addrBuf a) (addrBuf b) then true else false.

(** Modelled from the spec: the constants [ZERO_ADDRESS] and
    [ZERO_ADDRESS_STRING] (not under src/): 20 zero bytes. *)
Definition ZERO_ADDRESS : Address := {| addrBuf := repeat x00 20 |}.
Definition ZERO_ADDRESS_STRING : string := "0x0000000000000000000000000000000000000000".

(** Modelled from the spec: [wordToAddress] of [src/utils] (not under
    src/): the rightmost 20 bytes of a 32-byte word. *)
Definition wordToAddress (word : Buffer) : Address :=
  {| addrBuf := sliceFrom word 12 |}.

(** ** Opcode table (the parts of [src/debug/opcodes] the debugger asks) *)

Record EVMOpInfo : Type := { opcode : Z; mnemonic : string }.

Module OPCODES.
Definition SSTORE : Z := 0x55.
Definition CREATE : Z := 0xf0.
Definition CALL : Z := 0xf1.
Definition CALLCODE : Z := 0xf2.
Definition DELEGATECALL : Z := 0xf4.
Definition CREATE2 : Z := 0xf5.
Definition STATICCALL : Z := 0xfa.
End OPCODES.

(** Modelled from the spec: [createsContract] of [src/debug/opcodes] (not
    under src/): CREATE and CREATE2. *)
Definition createsContract (op : EVMOpInfo) : bool :=
  (opcode op =? OPCODES.CREATE) || (opcode op =? OPCODES.CREATE2).

(** Modelled from the spec: [increasesDepth] of [src/debug/opcodes] (not
    under src/): CALL, CALLCODE, DELEGATECALL, STATICCALL, CREATE, CREATE2. *)
Definition increasesDepth (op : EVMOpInfo) : bool :=
  (opcode op =? OPCODES.CALL) || (opcode op =? OPCODES.CALLCODE) ||
  (opcode op =? OPCODES.DELEGATECALL) || (opcode op =? OPCODES.STATICCALL) ||
  (opcode op =? OPCODES.CREATE) || (opcode op =? OPCODES.CREATE2).

(** ** AST nodes and source maps (as far as the debugger looks at them) *)

Inductive StateVariableVisibility : Type :=
| Default | Private | Internal | Public.

Record VariableDeclaration : Type :=
  { vd_id : Z;
    vd_name : string;
    stateVariable : bool;
    visibility : StateVariableVisibility }.

Record FunctionDefinition : Type :=
  { fd_id : Z;
    vParameters : list VariableDeclaration }.

(** [ast instanceof FunctionDefinition], [ast instanceof VariableDeclaration],
    or any other node class. *)
Inductive ASTNode : Type :=
| NFunctionDefinition (f : FunctionDefinition)
| NVariableDeclaration (v : VariableDeclaration)
| NOther (id : Z).

Record ContractDefinition : Type :=
  { vFunctions : list FunctionDefinition;
    vStateVariables : list VariableDeclaration;
    vConstructor : option FunctionDefinition }.

(** Modelled from the spec: the type [DecodedBytecodeSourceMapEntry] (not
    under src/), a source triple with its jump kind.  The code compares
    [jump] with ["i"] ([JumpInto]) and ["o"] ([JumpOut]) only. *)
Inductive JumpKind : Type := JumpNone | JumpInto | JumpOut | JumpRegular.

Record DecodedBytecodeSourceMapEntry : Type :=
  { start : Z;
    srcLength : Z;
    sourceIndex : Z;
    jump : JumpKind }.

Definition isJump (k k' : JumpKind) : bool :=
  match k, k' with
  | JumpNone, JumpNone | JumpInto, JumpInto
  | JumpOut, JumpOut | JumpRegular, JumpRegular => true
  | _, _ => false
  end.

Inductive ABIEncoderVersion : Type := ABIv1 | ABIv2.

Definition numToString (z : Z) : string := NilZero.string_of_int (Z.to_int z).

(** The template string [`${src.start}:${src.length}:${src.sourceIndex}`]. *)
Definition srcKey (src : DecodedBytecodeSourceMapEntry) : string :=
  (numToString (start src) ++ ":" ++ numToString (srcLength src) ++ ":" ++
   numToString (sourceIndex src))%string.

(** [Map<string, ASTNode>.get]. *)
Fixpoint Map_get {V} (m : list (string * V)) (k : string) : option V :=
  match m with
  | [] => None
  | (k', v) :: rest => if String.eqb k' k then Some v else Map_get rest k
  end.

Inductive FrameKind : Type := KCall | KCreation | KInternalCall.

Inductive DataLocationKind : Type := LStack | LMemory | LStorage | LCallData.

Inductive DataLocation : Type :=
| StackLocation (offsetFromTop : Z)
| LinearMemoryLocation (address : Z)
| CalldataLocation (address : Z)
| StorageLocation (address : Z) (endOffsetInWord : Z).

Definition locKind (l : DataLocation) : DataLocationKind :=
  match l with
  | StackLocation _ => LStack
  | LinearMemoryLocation _ => LMemory
  | CalldataLocation _ => LCallData
  | StorageLocation _ _ => LStorage
  end.

Definition HexString := string.

(** A step's [memory] is a [Buffer] object whose identity the normaliser
    may share between steps: [memId] is the identity of the object,
    [memBytes] its contents (never written after allocation). *)
Record Memory : Type := { memId : nat; memBytes : Buffer }.

(** [ImmMap<bigint, Buffer>], likewise with the identity of the map object. *)
Record Storage : Type := { stoId : nat; stoEntries : list (Z * Buffer) }.

Record EventDesc : Type := { payload : Buffer; topics : list Z }.

(** ** The debugger *)

Section Debugger.

(** Types of solc-typed-ast and of the artifact manager that the debugger
    only passes around. *)
Variable TypeNode : Type.
Variable BytecodeInfo : Type.

Record DataView : Type :=
  { type : TypeNode;
    originalType : option TypeNode;
    loc : DataLocation }.

Definition Arguments_ := list (string * option DataView).

Record Artifact : Type :=
  { abiEncoderVersion : ABIEncoderVersion;
    srcMap : list (string * ASTNode) }.

Record ContractInfo : Type :=
  { bytecode : BytecodeInfo;
    deployedBytecode : BytecodeInfo;
    ast : option ContractDefinition;
    artifact : Artifact }.

Record CallFrame : Type :=
  { call_callee : option ASTNode;
    call_arguments : option Arguments_;
    call_startStep : Z;
    call_sender : HexString;
    call_msgData : Buffer;
    call_address : Address;
    receiver : HexString;
    code_ : Buffer;
    call_info : option ContractInfo }.

Record CreationFrame : Type :=
  { creation_callee : option ASTNode;
    creation_arguments : option Arguments_;
    creation_startStep : Z;
    creation_sender : HexString;
    creation_msgData : Buffer;
    creation_address : Address;
    creationCode : Buffer;
    creation_info : option ContractInfo }.

Inductive ExternalFrame : Type :=
| ECall (f : CallFrame)
| ECreation (f : CreationFrame).

Record InternalCallFrame : Type :=
  { internal_callee : option ASTNode;
    internal_arguments : option Arguments_;
    internal_startStep : Z;
    nearestExtFrame : ExternalFrame;
    offset : Z }.

Inductive Frame : Type :=
| External (f : ExternalFrame)
| InternalCall (f : InternalCallFrame).

Definition kind (f : Frame) : FrameKind :=
  match f with
  | External (ECall _) => KCall
  | External (ECreation _) => KCreation
  | InternalCall _ => KInternalCall
  end.

Definition address (f : ExternalFrame) : Address :=
  match f with
  | ECall c => call_address c
  | ECreation c => creation_address c
  end.

Definition info (f : ExternalFrame) : option ContractInfo :=
  match f with
  | ECall c => call_info c
  | ECreation c => creation_info c
  end.

Definition DbgStack := list Frame.
Definition Stack := list Buffer.

Record StepVMState : Type :=
  { evmStack : Stack;
    memory : Memory;
    storage : Storage;
    op : EVMOpInfo;
    pc : Z;
    gasCost : Z;
    dynamicGasCost : Z;
    gas : Z;
    depth : Z;
    stepAddress : Address;
    codeAddress : Address }.

Record StepState : Type :=
  { vmState :> StepVMState;
    code : Buffer;
    codeMdHash : option HexString;
    stack : DbgStack;
    src : option DecodedBytecodeSourceMapEntry;
    astNode : option ASTNode;
    emittedEvent : option EventDesc;
    contractInfo : option ContractInfo }.

(** The state manager as the debugger sees it at one moment. *)
Record StateManager : Type :=
  { getContractCode : Address -> Buffer;
    dumpStorage : Address -> list (string * string) }.

(** [InterpreterStep] of the VM: the argument of the ["step"] event. *)
Record Opcode : Type :=
  { name : string;
    fee : Z;
    dynamicFee : option Z }.

Record InterpreterStep : Type :=
  { step_opcode : Opcode;
    step_pc : Z;
    step_depth : Z;
    step_gasLeft : Z;
    step_address : Address;
    step_codeAddress : Address;
    step_stack : list Z;
    step_memory : Buffer;
    step_stateManager : StateManager }.

Record Transaction : Type :=
  { to : option Address;
    data : Buffer;
    senderAddress : Address }.

(** *** External collaborators

    Functions of other modules and packages, not under src/; the debugger
    is parametric in them.  A function that may throw returns [option]. *)

(** [src/debug/opcodes]: the table lookup and the memory-writing class. *)
Variable getOpInfo : string -> EVMOpInfo.
Variable changesMemory : EVMOpInfo -> bool.

(** [src/debug/artifact_manager]; [None] when the lookup throws. *)
Variable getOffsetSrc : Z -> BytecodeInfo -> option DecodedBytecodeSourceMapEntry.

Record IArtifactManager : Type :=
  { getContractFromMDHash : HexString -> option ContractInfo;
    getContractFromCreationBytecode : Buffer -> option ContractInfo }.

Variable artifactManager : IArtifactManager.

(** [src/artifacts]. *)
Variable getCodeHash : Buffer -> option HexString.
Variable getCreationCodeHash : Buffer -> option HexString.

(** solc-typed-ast and [src/debug/decoding], [src/debug/abi]. *)
Variable isCalldataType2Slots : TypeNode -> bool.
Variable variableDeclarationToTypeNode : VariableDeclaration -> option TypeNode.
Variable getterArgsAndReturn : VariableDeclaration -> option (list TypeNode * TypeNode).
Variable getFunctionSelector : FunctionDefinition -> string.
Variable getterCanonicalSignatureHash :
  VariableDeclaration -> ABIEncoderVersion -> option string.
Variable decodeMsgData :
  ASTNode -> Buffer -> DataLocationKind -> ABIEncoderVersion -> option Arguments_.

(** ethereumjs-util and [src/utils], used by [getStorage]. *)
Variable bufferFromHex : string -> Buffer.
Variable rlp_decode : Buffer -> Buffer.
Variable bigintFromHex : string -> Z.

(** *** Helper functions *)

Definition lastOf {A} (l : list A) : option A := js_get l (len l - 1).

(** [lastExternalFrame] applied to a stack ([arg instanceof Array]). *)
Definition lastExternalFrame (arg : DbgStack) : result ExternalFrame :=
  frame <- defined (lastOf arg) ;;
  match frame with
  | InternalCall f => Ok (nearestExtFrame f)
  | External f => Ok f
  end.

Definition padStart (buf : Buffer) (n : nat) (fill : byte) : Buffer :=
  repeat fill (n - List.length buf) ++ buf.

(** The array [storageEntries] that [getStorage] builds from the dump. *)
Definition storageEntries (manager : StateManager) (addr : Address) : list (Z * Buffer) :=
  map (fun '(keyStr, valStr) =>
         (bigintFromHex ("0x" ++ keyStr)%string,
          padStart (rlp_decode (bufferFromHex valStr)) 32 x00))
      (dumpStorage manager addr).

(** [getStorage]: a new map object, [nextId] its identity. *)
Definition getStorage (manager : StateManager) (addr : Address) (nextId : nat) : Storage :=
  {| stoId := nextId; stoEntries := storageEntries manager addr |}.

(** [Buffer.from(buf)]: a new buffer object with the bytes of [buf]. *)
Definition Buffer_from (buf : Buffer) (nextId : nat) : Memory :=
  {| memId := nextId; memBytes := buf |}.

(** *** Frame builders *)

Definition makeCreationFrame (sender : HexString) (data : Buffer) (step : Z) : CreationFrame :=
  let contractInfo := getContractFromCreationBytecode artifactManager data in
  let callee :=
    match contractInfo with
    | Some ci =>
        match ast ci with
        | Some contract => option_map NFunctionDefinition (vConstructor contract)
        | None => None
        end
    | None => None
    end in
  {| creation_callee := callee;
     creation_arguments := None;
     creation_startStep := step;
     creation_sender := sender;
     creation_msgData := data;
     creation_address := ZERO_ADDRESS;
     creationCode := data;
     creation_info := contractInfo |}.

Definition resolveCallee (contract : ContractDefinition) (abiVersion : ABIEncoderVersion)
    (selector : string) : option ASTNode :=
  let matchingFuns :=
    filter (fun fn => String.eqb (getFunctionSelector fn) selector) (vFunctions contract) in
  match matchingFuns with
  | [fn] => Some (NFunctionDefinition fn)
  | _ =>
      let matchingGetters :=
        filter (fun vDef =>
                  match visibility vDef, getterCanonicalSignatureHash vDef abiVersion with
                  | Public, Some h => String.eqb h selector
                  | _, _ => false
                  end) (vStateVariables contract) in
      match matchingGetters with
      | [vDef] => Some (NVariableDeclaration vDef)
      | _ => None
      end
  end.

Definition makeCallFrame (sender : HexString) (receiver : Address) (data : Buffer)
    (receiverCode : Buffer) (codeHash : option HexString) (step : Z) : CallFrame :=
  let contractInfo :=
    match codeHash with
    | None => None
    | Some h => getContractFromMDHash artifactManager h
    end in
  let selector := toHex (slice data 0 4) in
  let calleeArgs :=
    match contractInfo with
    | Some ci =>
        match ast ci with
        | Some contract =>
            let abiVersion := abiEncoderVersion (artifact ci) in
            let callee := resolveCallee contract abiVersion selector in
            (callee,
             match callee with
             | Some c => decodeMsgData c data LCallData abiVersion
             | None => None
             end)
        | None => (None, None)
        end
    | None => (None, None)
    end in
  {| call_callee := fst calleeArgs;
     call_arguments := snd calleeArgs;
     call_startStep := step;
     call_sender := sender;
     call_msgData := data;
     call_address := receiver;
     receiver := Address_toString receiver;
     code_ := receiverCode;
     call_info := contractInfo |}.

(** *** [decodeSourceLoc] *)

Definition decodeSourceLoc (instrOffset : Z) (ctx : ExternalFrame)
  : result (option DecodedBytecodeSourceMapEntry * option ASTNode) :=
  match info ctx with
  | None => Ok (None, None)
  | Some ci =>
      let bytecodeInfo :=
        match ctx with
        | ECreation _ => bytecode ci
        | ECall _ => deployedBytecode ci
        end in
      match getOffsetSrc instrOffset bytecodeInfo with
      | None => Fail SrcMapError
      | Some src =>
          let astNode := Map_get (srcMap (artifact ci)) (srcKey src) in
          Ok (Some src, astNode)
      end
  end.

(** *** [decodeFunArgs] *)

Inductive Callee : Type :=
| CalleeFun (f : FunctionDefinition)
| CalleeVar (v : VariableDeclaration).

Fixpoint mapThrow {A B} (f : A -> option B) (l : list A) : option (list B) :=
  match l with
  | [] => Some []
  | a :: rest =>
      match f a with
      | None => None
      | Some b => option_map (cons b) (mapThrow f rest)
      end
  end.

Fixpoint mapi {A B} (f : A -> Z -> B) (i : Z) (l : list A) : list B :=
  match l with
  | [] => []
  | a :: rest => f a i :: mapi f (i + 1) rest
  end.

(** The [try] block: the formals with their types, [None] when the type
    resolver throws. *)
Definition formalsOf (callee : Callee) : option (list (string * TypeNode)) :=
  match callee with
  | CalleeFun f =>
      mapThrow (fun argDef =>
                  option_map (pair (vd_name argDef)) (variableDeclarationToTypeNode argDef))
               (vParameters f)
  | CalleeVar v =>
      option_map (fun ar => mapi (fun typ i => (("ARG_" ++ numToString i)%string, typ)) 0 (fst ar))
                 (getterArgsAndReturn v)
  end.

Definition slotsOf (typ : TypeNode) : Z := if isCalldataType2Slots typ then 2 else 1.

(** The [for] loop, from [i = formals.length - 1] down to 0: [todo] holds
    [formals[i]], [formals[i-1]], ..., [formals[0]]. *)
Fixpoint decodeFunArgsLoop (nFormals stackLen : Z) (todo : list (string * TypeNode))
    (offsetFromTop : Z) (res : list (string * DataView)) : result (list (string * DataView)) :=
  match todo with
  | [] => Ok res
  | (name, typ) :: rest =>
      let stackSize := slotsOf typ in
      let offsetFromTop := offsetFromTop + stackSize in
      _ <- assert (offsetFromTop <=? stackLen) (AssertStackUnderflow nFormals stackLen) ;;
      decodeFunArgsLoop nFormals stackLen rest offsetFromTop
        ((name, {| type := typ; originalType := None; loc := StackLocation offsetFromTop |}) :: res)
  end.

Definition decodeFunArgs (callee : Callee) (stack : Stack)
  : result (option (list (string * DataView))) :=
  match formalsOf callee with
  | None => Ok None
  | Some formals =>
      res <- decodeFunArgsLoop (len formals) (len stack) (rev formals) (-1) [] ;;
      Ok (Some res)
  end.

(** *** [adjustStackFrame], the stack reconciler *)

Definition isExternalKind (f : Frame) : bool :=
  match kind f with
  | KCreation | KCall => true
  | KInternalCall => false
  end.

(** The [while (nFramesPopped > 0 && stack.length > 0)] loop.  Every
    iteration pops one frame, so [fuel = stack.length] iterations are all the
    loop can make (lemma [popFramesLoop_fuel]). *)
Fixpoint popFramesLoop (fuel : nat) (nFramesPopped : Z) (stack : DbgStack) : DbgStack :=
  match fuel with
  | O => stack
  | S fuel' =>
      if (nFramesPopped >? 0) && (len stack >? 0) then
        match lastOf stack with
        | Some topFrame =>
            let nFramesPopped :=
              if isExternalKind topFrame then nFramesPopped - 1 else nFramesPopped in
            popFramesLoop fuel' nFramesPopped (removelast stack)
        | None => stack
        end
      else stack
  end.

Definition popFrames (nFramesPopped : Z) (stack : DbgStack) : DbgStack :=
  popFramesLoop (List.length stack) nFramesPopped stack.

(** A stack word read and passed to [bigEndianBufToNumber]; reading past
    the array gives [undefined], on which the conversion throws. *)
Definition stackNumber (evmStack : Stack) (i : Z) : result Z :=
  w <- defined (js_get evmStack i) ;;
  Ok (bigEndianBufToNumber w).

(** [ast instanceof FunctionDefinition ||
     (ast instanceof VariableDeclaration && ast.stateVariable)] *)
Definition calleeOf (ast : option ASTNode) : option Callee :=
  match ast with
  | Some (NFunctionDefinition f) => Some (CalleeFun f)
  | Some (NVariableDeclaration v) => if stateVariable v then Some (CalleeVar v) else None
  | _ => None
  end.

Definition internalArgs (ast : option ASTNode) (evmStack : Stack) : result (option Arguments_) :=
  match calleeOf ast with
  | Some callee =>
      args <- decodeFunArgs callee evmStack ;;
      Ok (option_map (map (fun '(n, v) => (n, Some v))) args)
  | None => Ok None
  end.

Definition jumpIs (src : option DecodedBytecodeSourceMapEntry) (k : JumpKind) : bool :=
  match src with
  | Some s => isJump (jump s) k
  | None => false
  end.

Definition adjustStackFrame (stack : DbgStack) (state : StepVMState) (trace : list StepState)
    (code : Buffer) (codeHash : option HexString) : result DbgStack :=
  lastExtFrame <- lastExternalFrame stack ;;
  (* First instruction - nothing to do *)
  match lastOf trace with
  | None => Ok stack
  | Some lastStep =>
      let lastOp := op lastStep in
      (* Case 1: change in external call depth *)
      if negb (depth lastStep =? depth state) then
        let lastStackTop := len (evmStack lastStep) - 1 in
        if depth state >? depth lastStep then
          _ <- assert (increasesDepth lastOp) (AssertUnexpectedDepthIncrease (mnemonic lastOp)) ;;
          if createsContract lastOp then
            off <- stackNumber (evmStack lastStep) (lastStackTop - 1) ;;
            size <- stackNumber (evmStack lastStep) (lastStackTop - 2) ;;
            let creationBytecode := slice (memBytes (memory lastStep)) off (off + size) in
            let curFrame :=
              makeCreationFrame (Address_toString (address lastExtFrame))
                                creationBytecode (len trace) in
            Ok (stack ++ [External (ECreation curFrame)])
          else
            let argStackOff :=
              if (opcode lastOp =? OPCODES.CALL) || (opcode lastOp =? OPCODES.CALLCODE)
              then 3 else 2 in
            let argSizeStackOff := argStackOff + 1 in
            argOff <- stackNumber (evmStack lastStep) (lastStackTop - argStackOff) ;;
            argSize <- stackNumber (evmStack lastStep) (lastStackTop - argSizeStackOff) ;;
            w <- defined (js_get (evmStack lastStep) (lastStackTop - 1)) ;;
            let receiver := wordToAddress w in
            let msgData := slice (memBytes (memory lastStep)) argOff (argOff + argSize) in
            let newFrame :=
              makeCallFrame (Address_toString (address lastExtFrame)) receiver msgData
                            code codeHash (len trace) in
            Ok (stack ++ [External (ECall newFrame)])
        else
          (* External return or exception *)
          Ok (popFrames (depth lastStep - depth state) stack)
      else
        (* Case 2: no change in external depth *)
        curExtFrame <- lastExternalFrame stack ;;
        '(src_, ast) <- decodeSourceLoc (pc state) curExtFrame ;;
        match src_ with
        | None => Ok stack
        | Some src_ =>
            if String.eqb (mnemonic (op state)) "JUMPDEST" &&
               String.eqb (mnemonic (op lastStep)) "JUMP" &&
               jumpIs (src lastStep) JumpInto
            then
              args <- internalArgs ast (evmStack state) ;;
              let newFrame :=
                {| internal_callee := ast;
                   internal_arguments := args;
                   internal_startStep := len trace;
                   nearestExtFrame := lastExtFrame;
                   offset := pc state |} in
              Ok (stack ++ [InternalCall newFrame])
            else if String.eqb (mnemonic (op state)) "JUMP" && isJump (jump src_) JumpOut then
              topFrame <- defined (lastOf stack) ;;
              _ <- assert (match kind topFrame with KInternalCall => true | _ => false end)
                          AssertMismatchedInternalReturn ;;
              Ok (removelast stack)
            else Ok stack
        end
  end.

(** *** [getCodeAndMdHash] *)

Definition getCodeAndMdHash (vm : StateManager) (step : StepVMState) (trace : list StepState)
  : result (Buffer * option HexString) :=
  let lastStep := lastOf trace in
  match lastStep with
  | Some lastStep =>
      if createsContract (op lastStep) then
        let lastStackTop := len (evmStack lastStep) - 1 in
        off <- stackNumber (evmStack lastStep) (lastStackTop - 1) ;;
        size <- stackNumber (evmStack lastStep) (lastStackTop - 2) ;;
        let code := slice (memBytes (memory lastStep)) off (off + size) in
        Ok (code, getCreationCodeHash code)
      else if negb (Address_equals (codeAddress lastStep) (codeAddress step)) then
        let code := getContractCode vm (codeAddress step) in
        Ok (code, getCodeHash code)
      else Ok (code lastStep, codeMdHash lastStep)
  | None =>
      let code := getContractCode vm (codeAddress step) in
      Ok (code, getCodeHash code)
  end.

(** *** [processRawTraceStep] *)

(** JS [ToNumber] of [name[3]]: a decimal digit is its value, a white
    space character is 0, anything else ([undefined] included) is [NaN]. *)
Definition charToNumber (c : option ascii) : option Z :=
  match c with
  | None => None
  | Some c =>
      let n := Z.of_nat (nat_of_ascii c) in
      if (48 <=? n) && (n <=? 57) then Some (n - 48)
      else if ((9 <=? n) && (n <=? 13)) || (n =? 32) || (n =? 160) then Some 0
      else None
  end.

(** [(step.opcode.name[3] as any) - ("0" as any)] *)
Definition nTopicsOf (name : string) : option Z :=
  match charToNumber (String.get 3 name), charToNumber (Some "0"%char) with
  | Some a, Some b => Some (a - b)
  | _, _ => None
  end.

Definition extractEvent (name : string) (evmStack : Stack) (memory : Memory)
  : result (option EventDesc) :=
  if String.prefix "LOG" name then
    off <- stackNumber evmStack (len evmStack - 1) ;;
    size <- stackNumber evmStack (len evmStack - 2) ;;
    let nTopics := nTopicsOf name in
    let payload := slice (memBytes memory) off (off + size) in
    Ok (Some {| payload := payload;
                topics :=
                  map bigEndianBufToBigint
                      (rev (js_slice evmStack
                                     (option_map (fun n => len evmStack - 2 - n) nTopics)
                                     (len evmStack - 2))) |})
  else Ok None.

(** The first half of [processRawTraceStep]: the basic VM state.  [nextId]
    is the identity the next allocated object gets; the result carries the
    updated counter. *)
Definition translateVMState (step : InterpreterStep) (lastStep : option StepState)
    (nextId : nat) : StepVMState * nat :=
  let evmStack := map wordOfBN (step_stack step) in
  let '(memory, nextId) :=
    match lastStep with
    | Some lastStep =>
        if changesMemory (op lastStep)
        then (Buffer_from (step_memory step) nextId, S nextId)
        else (memory lastStep, nextId)
    | None => (Buffer_from (step_memory step) nextId, S nextId)
    end in
  let curOp := getOpInfo (name (step_opcode step)) in
  let '(storage, nextId) :=
    match lastStep with
    | Some lastStep =>
        if opcode (op lastStep) =? OPCODES.SSTORE
        then (getStorage (step_stateManager step) (step_address step) nextId, S nextId)
        else (storage lastStep, nextId)
    | None => (getStorage (step_stateManager step) (step_address step) nextId, S nextId)
    end in
  let gasCost := fee (step_opcode step) in
  let dynamicGasCost :=
    match dynamicFee (step_opcode step) with
    | None => gasCost
    | Some d => d
    end in
  ({| evmStack := evmStack;
      memory := memory;
      storage := storage;
      op := curOp;
      pc := step_pc step;
      gasCost := gasCost;
      dynamicGasCost := dynamicGasCost;
      gas := step_gasLeft step;
      depth := step_depth step + 1;
      stepAddress := step_address step;
      codeAddress := step_codeAddress step |}, nextId).

Definition processRawTraceStep (vm : StateManager) (step : InterpreterStep)
    (trace : list StepState) (stack : DbgStack) (nextId : nat)
  : result (StepState * DbgStack * nat) :=
  let lastStep := lastOf trace in
  let '(vmState, nextId) := translateVMState step lastStep nextId in
  '(code, codeMdHash) <- getCodeAndMdHash vm vmState trace ;;
  stack <- adjustStackFrame stack vmState trace code codeMdHash ;;
  curExtFrame <- lastExternalFrame stack ;;
  let '(src, astNode) :=
    match decodeSourceLoc (step_pc step) curExtFrame with
    | Ok r => r
    | Fail _ => (None, None)
    end in
  emittedEvent <- extractEvent (name (step_opcode step)) (evmStack vmState) (memory vmState) ;;
  Ok ({| vmState := vmState;
         code := code;
         codeMdHash := codeMdHash;
         stack := stack;
         src := src;
         astNode := astNode;
         emittedEvent := emittedEvent;
         contractInfo := info curExtFrame |}, stack, nextId).

(** *** [debugTx], the trace driver *)

Definition initialFrame (vm : StateManager) (tx : Transaction) : result Frame :=
  let sender := Address_toString (senderAddress tx) in
  let receiver :=
    match to tx with
    | None => ZERO_ADDRESS_STRING
    | Some a => Address_toString a
    end in
  let isCreation := String.eqb receiver ZERO_ADDRESS_STRING in
  if isCreation then
    Ok (External (ECreation (makeCreationFrame sender (data tx) 0)))
  else
    txTo <- defined (to tx) ;;
    let code := getContractCode vm txTo in
    let codeHash := getCodeHash code in
    Ok (External (ECall (makeCallFrame sender txTo (data tx) code codeHash 0))).

(** The ["step"] handler run on the steps the VM emits, in order: each
    processed step is appended to [trace]; [stack] is the one array the
    handler keeps mutating. *)
Fixpoint runSteps (steps : list InterpreterStep) (trace : list StepState) (stack : DbgStack)
    (nextId : nat) : result (list StepState) :=
  match steps with
  | [] => Ok trace
  | step :: rest =>
      '(curStep, stack, nextId) <-
         processRawTraceStep (step_stateManager step) step trace stack nextId ;;
      runSteps rest (trace ++ [curStep]) stack nextId
  end.

(** [debugTx]: [vm] is the state manager before the transaction runs,
    [steps] the step events of [vm.runTx]. *)
Definition debugTx (tx : Transaction) (vm : StateManager) (steps : list InterpreterStep)
  : result (list StepState) :=
  curFrame <- initialFrame vm tx ;;
  runSteps steps [] [curFrame] 0.

(** ** What the properties are stated with *)

(** The number of external (Call or Creation) frames of a stack. *)
Definition countExternal (stack : DbgStack) : Z :=
  len (filter isExternalKind stack).

(** The argument positions the specification gives per call opcode. *)
Definition specArgPositions (opc : Z) : option (Z * Z) :=
  if (opc =? OPCODES.CALL) || (opc =? OPCODES.CALLCODE) then Some (3, 4)
  else if (opc =? OPCODES.DELEGATECALL) || (opc =? OPCODES.STATICCALL) then Some (2, 3)
  else None.

(** The specification's rule: going from the last formal to the first, the
    offset starts at -1 and grows by the slot count of each formal;
    [offsetOf formals] is the offset the FIRST formal of [formals] gets. *)
Fixpoint offsetOf (formals : list (string * TypeNode)) : Z :=
  match formals with
  | [] => -1
  | (_, typ) :: rest => offsetOf rest + slotsOf typ
  end.

(** The argument views the rule gives: every formal at [Stack(offset)]. *)
Fixpoint expectedArgs (formals : list (string * TypeNode)) : list (string * DataView) :=
  match formals with
  | [] => []
  | (name, typ) :: rest =>
      (name, {| type := typ; originalType := None;
                loc := StackLocation (offsetOf formals) |}) :: expectedArgs rest
  end.

(** The value of a decimal digit character. *)
Definition digitOf (c : ascii) : option Z :=
  let n := Z.of_nat (nat_of_ascii c) in
  if (48 <=? n) && (n <=? 57) then Some (n - 48) else None.

(** What the reconciler takes for granted about the VM: the depth of the
    first step is 0, and from one step to the next it never rises by more
    than one.  [prev] is the VM depth of the step before, if any. *)
Fixpoint vmDepthsOk (prev : option Z) (steps : list InterpreterStep) : bool :=
  match steps with
  | [] => true
  | s :: rest =>
      match prev with
      | None => step_depth s =? 0
      | Some d => step_depth s <=? d + 1
      end && vmDepthsOk (Some (step_depth s)) rest
  end.

(** A recorded step against the raw step it was made from. *)
Definition depthMatches (st : StepState) (raw : InterpreterStep) : Prop :=
  depth st = step_depth raw + 1 /\ countExternal (stack st) = depth st.

(** The depth the frame stack stands for: that of the last recorded step,
    1 before the first. *)
Definition expectedDepth (trace : list StepState) : Z :=
  match lastOf trace with
  | Some s => depth s
  | None => 1
  end.

(** Every memory and storage object of the trace was allocated before [n]. *)
Definition idsBelow (n : nat) (trace : list StepState) : Prop :=
  forall s, In s trace -> (memId (memory s) < n)%nat /\ (stoId (storage s) < n)%nat.

(** No step of [earlier] holds the object [id]. *)
Definition freshIn (id : nat) (earlier : list StepState) : Prop :=
  forall s, In s earlier -> memId (memory s) <> id /\ stoId (storage s) <> id.

(** The rule for the step [cur] recorded from the raw step [raw] right
    after [prev]; [earlier] is the trace before [cur]. *)
Definition sharingRule (earlier : list StepState) (prev cur : StepState)
    (raw : InterpreterStep) : Prop :=
  (if changesMemory (op prev)
   then freshIn (memId (memory cur)) earlier /\ memBytes (memory cur) = step_memory raw
   else memory cur = memory prev) /\
  (if opcode (op prev) =? OPCODES.SSTORE
   then freshIn (stoId (storage cur)) earlier /\
        stoEntries (storage cur) =
        storageEntries (step_stateManager raw) (step_address raw)
   else storage cur = storage prev).

(** The rule at every pair of consecutive steps of a trace. *)
Definition sharingHolds (steps : list InterpreterStep) (trace : list StepState) : Prop :=
  forall (k : nat) (prev cur : StepState) (raw : InterpreterStep),
    nth_error trace k = Some prev ->
    nth_error trace (S k) = Some cur ->
    nth_error steps (S k) = Some raw ->
    sharingRule (firstn (S k) trace) prev cur raw.

(** ** Properties *)

(** *** Arrays *)

Lemma len_app {A} (l1 l2 : list A) : len (l1 ++ l2) = len l1 + len l2.
Proof. unfold len. rewrite length_app. lia. Qed.

Lemma len_nonneg {A} (l : list A) : 0 <= len l.
Proof. unfold len. lia. Qed.

Lemma lastOf_nil {A} : lastOf (@nil A) = None.
Proof. reflexivity. Qed.

Lemma lastOf_snoc {A} (l : list A) (x : A) : lastOf (l ++ [x]) = Some x.
Proof.
  unfold lastOf, js_get. rewrite len_app. unfold len. cbn [List.length].
  destruct (Z.ltb_spec (Z.of_nat (List.length l) + Z.of_nat 1 - 1) 0) as [H|H]; [lia|].
  replace (Z.to_nat (Z.of_nat (List.length l) + Z.of_nat 1 - 1)) with (List.length l) by lia.
  rewrite nth_error_app2 by lia. now rewrite Nat.sub_diag.
Qed.

Lemma snoc_cases {A} (l : list A) : l = [] \/ exists l' x, l = l' ++ [x].
Proof.
  destruct l as [|a l]; [now left|right].
  exists (removelast (a :: l)), (last (a :: l) a).
  apply app_removelast_last. discriminate.
Qed.

Lemma lastOf_Some {A} (l : list A) (x : A) :
  lastOf l = Some x -> exists l', l = l' ++ [x].
Proof.
  destruct (snoc_cases l) as [->|(l' & y & ->)]; [discriminate|].
  rewrite lastOf_snoc. intros [= ->]. now exists l'.
Qed.

Lemma removelast_snoc {A} (l : list A) (x : A) : removelast (l ++ [x]) = l.
Proof. apply removelast_last. Qed.

Lemma js_get_nth {A} (l : list A) (i : nat) : js_get l (Z.of_nat i) = nth_error l i.
Proof.
  unfold js_get. destruct (Z.ltb_spec (Z.of_nat i) 0); [lia|]. now rewrite Nat2Z.id.
Qed.

Lemma js_get_in_range {A} (l : list A) (i : Z) :
  0 <= i < len l -> exists x, js_get l i = Some x.
Proof.
  intros H. unfold js_get, len in *. destruct (Z.ltb_spec i 0); [lia|].
  destruct (nth_error l (Z.to_nat i)) eqn:E; [eauto|].
  apply nth_error_None in E. lia.
Qed.

(** *** Counting external frames *)

Lemma countExternal_app (s1 s2 : DbgStack) :
  countExternal (s1 ++ s2) = countExternal s1 + countExternal s2.
Proof. unfold countExternal. now rewrite filter_app, len_app. Qed.

Lemma countExternal_nonneg (s : DbgStack) : 0 <= countExternal s.
Proof. apply len_nonneg. Qed.

Lemma countExternal_one (f : Frame) :
  countExternal [f] = if isExternalKind f then 1 else 0.
Proof. unfold countExternal. cbn. now destruct (isExternalKind f). Qed.

(** *** The popping loop *)

Lemma popFramesLoop_snoc (fuel : nat) (n : Z) (s : DbgStack) (f : Frame) :
  0 < n ->
  popFramesLoop (S fuel) n (s ++ [f]) =
  popFramesLoop fuel (if isExternalKind f then n - 1 else n) s.
Proof.
  intros Hn. cbn [popFramesLoop].
  rewrite lastOf_snoc, removelast_snoc, len_app.
  pose proof (len_nonneg s). change (len [f]) with 1.
  destruct (Z.gtb_spec n 0); [|lia].
  destruct (Z.gtb_spec (len s + 1) 0); [|lia]. reflexivity.
Qed.

Lemma popFramesLoop_done (fuel : nat) (n : Z) (s : DbgStack) :
  n <= 0 -> popFramesLoop fuel n s = s.
Proof.
  intros Hn. destruct fuel; [reflexivity|]. cbn [popFramesLoop].
  destruct (Z.gtb_spec n 0); [lia|]. reflexivity.
Qed.

Lemma popFramesLoop_nil (fuel : nat) (n : Z) : popFramesLoop fuel n [] = [].
Proof.
  destruct fuel; [reflexivity|]. cbn [popFramesLoop].
  now rewrite andb_false_r.
Qed.

(** Enough fuel: running the loop for more than [stack.length] iterations
    changes nothing, the loop has stopped by then. *)
Lemma popFramesLoop_fuel (s : DbgStack) : forall (k : nat) (n : Z),
  popFramesLoop (List.length s + k) n s = popFramesLoop (List.length s) n s.
Proof.
  induction s as [|f s IH] using rev_ind; intros k n.
  - cbn [List.length Nat.add]. now rewrite !popFramesLoop_nil.
  - rewrite length_app. cbn [List.length].
    replace (List.length s + 1 + k)%nat with (S (List.length s + k)) by lia.
    replace (List.length s + 1)%nat with (S (List.length s)) by lia.
    destruct (Z.ltb_spec 0 n) as [Hn|Hn].
    + rewrite !popFramesLoop_snoc by assumption. apply IH.
    + now rewrite !popFramesLoop_done by lia.
Qed.

Lemma popFrames_snoc (n : Z) (s : DbgStack) (f : Frame) :
  0 < n ->
  popFrames n (s ++ [f]) = popFrames (if isExternalKind f then n - 1 else n) s.
Proof.
  intros Hn. unfold popFrames. rewrite length_app. cbn [List.length].
  replace (List.length s + 1)%nat with (S (List.length s)) by lia.
  now apply popFramesLoop_snoc.
Qed.

Lemma popFrames_done (n : Z) (s : DbgStack) : n <= 0 -> popFrames n s = s.
Proof. apply popFramesLoop_done. Qed.

(** What the loop leaves and what it pops: either the quota is met, and the
    last frame popped (the lowest one) is the external frame that met it, or
    the stack ran out first. *)
Lemma popFrames_split (s : DbgStack) : forall n : Z,
  0 < n ->
  exists popped,
    s = popFrames n s ++ popped /\
    ((countExternal popped = n /\
      exists f rest, popped = f :: rest /\ isExternalKind f = true) \/
     (popFrames n s = [] /\ countExternal popped < n)).
Proof.
  induction s as [|f s IH] using rev_ind; intros n Hn.
  - exists []. split; [reflexivity|]. right. split; [reflexivity|]. cbn. lia.
  - rewrite popFrames_snoc by assumption.
    destruct (isExternalKind f) eqn:Ef.
    + destruct (Z.eq_dec n 1) as [->|Hn1].
      * rewrite popFrames_done by lia. exists [f]. split; [reflexivity|]. left.
        rewrite countExternal_one, Ef. split; [reflexivity|]. now exists f, [].
      * destruct (IH (n - 1)) as (popped & Hs & Hcase); [lia|].
        exists (popped ++ [f]). split.
        { rewrite app_assoc. now rewrite <- Hs. }
        rewrite countExternal_app, countExternal_one, Ef.
        destruct Hcase as [(Hc & g & rest & -> & Hg)|(Hnil & Hc)].
        -- left. split; [lia|]. now exists g, (rest ++ [f]).
        -- right. split; [assumption|lia].
    + destruct (IH n Hn) as (popped & Hs & Hcase).
      exists (popped ++ [f]). split.
      { rewrite app_assoc. now rewrite <- Hs. }
      rewrite countExternal_app, countExternal_one, Ef.
      destruct Hcase as [(Hc & g & rest & -> & Hg)|(Hnil & Hc)].
      * left. split; [lia|]. now exists g, (rest ++ [f]).
      * right. split; [assumption|lia].
Qed.

(** *** The reconciler, case by case *)

Lemma lastExternalFrame_nonempty (s : DbgStack) :
  s <> [] -> exists e, lastExternalFrame s = Ok e.
Proof.
  intros Hs. destruct (snoc_cases s) as [->|(s' & f & ->)]; [congruence|].
  unfold lastExternalFrame. rewrite lastOf_snoc. cbn.
  destruct f; eauto.
Qed.

Lemma lastExternalFrame_nil : lastExternalFrame [] = Fail TypeErrorUndefined.
Proof. reflexivity. Qed.

Lemma adjustStackFrame_first (stack : DbgStack) (state : StepVMState)
    (code : Buffer) (codeHash : option HexString) :
  stack <> [] -> adjustStackFrame stack state [] code codeHash = Ok stack.
Proof.
  intros Hs. destruct (lastExternalFrame_nonempty Hs) as (e & He).
  unfold adjustStackFrame. now rewrite He.
Qed.

(** The way into the depth-change branch of [adjustStackFrame]: past the
    two guards, with the depth comparison decided by the hypotheses. *)
Ltac enter_depth_change He Hlast :=
  unfold adjustStackFrame; rewrite He, Hlast; cbn [bind];
  match goal with
  | |- context [negb (?a =? ?b)] => destruct (Z.eqb_spec a b); [lia|]; cbn [negb]
  end;
  match goal with
  | |- context [?a >? ?b] => destruct (Z.gtb_spec a b); try lia
  end.

Lemma adjustStackFrame_decrease (stack : DbgStack) (state : StepVMState)
    (trace : list StepState) (lastStep : StepState) (code : Buffer)
    (codeHash : option HexString) :
  lastOf trace = Some lastStep ->
  depth state < depth lastStep ->
  stack <> [] ->
  adjustStackFrame stack state trace code codeHash =
  Ok (popFrames (depth lastStep - depth state) stack).
Proof.
  intros Hlast Hd Hs. destruct (lastExternalFrame_nonempty Hs) as (e & He).
  enter_depth_change He Hlast. reflexivity.
Qed.

Lemma adjustStackFrame_increase_not_call (stack : DbgStack) (state : StepVMState)
    (trace : list StepState) (lastStep : StepState) (code : Buffer)
    (codeHash : option HexString) :
  lastOf trace = Some lastStep ->
  depth lastStep < depth state ->
  stack <> [] ->
  increasesDepth (op lastStep) = false ->
  adjustStackFrame stack state trace code codeHash =
  Fail (AssertUnexpectedDepthIncrease (mnemonic (op lastStep))).
Proof.
  intros Hlast Hd Hs Hinc. destruct (lastExternalFrame_nonempty Hs) as (e & He).
  enter_depth_change He Hlast.
  now rewrite Hinc.
Qed.

Lemma stackNumber_in_range (evmStack : Stack) (i : Z) :
  0 <= i < len evmStack -> exists n, stackNumber evmStack i = Ok n.
Proof.
  intros H. destruct (js_get_in_range evmStack H) as (w & Hw).
  unfold stackNumber. rewrite Hw. cbn. eauto.
Qed.

(** On a depth increase after a depth-increasing opcode the reconciler
    pushes one external frame, or throws a [TypeError] on an operand stack
    too short to read the call's arguments from. *)
Lemma adjustStackFrame_increase_call (stack : DbgStack) (state : StepVMState)
    (trace : list StepState) (lastStep : StepState) (code : Buffer)
    (codeHash : option HexString) :
  lastOf trace = Some lastStep ->
  depth lastStep < depth state ->
  stack <> [] ->
  increasesDepth (op lastStep) = true ->
  (exists f, adjustStackFrame stack state trace code codeHash = Ok (stack ++ [External f])) \/
  adjustStackFrame stack state trace code codeHash = Fail TypeErrorUndefined.
Proof.
  intros Hlast Hd Hs Hinc. destruct (lastExternalFrame_nonempty Hs) as (e & He).
  enter_depth_change He Hlast.
  rewrite Hinc. cbn [assert bind].
  destruct (createsContract (op lastStep)).
  - unfold stackNumber.
    destruct (js_get (evmStack lastStep) (len (evmStack lastStep) - 1 - 1)); cbn; [|now right].
    destruct (js_get (evmStack lastStep) (len (evmStack lastStep) - 1 - 2)); cbn; [|now right].
    left. eauto.
  - unfold stackNumber.
    destruct (js_get (evmStack lastStep) _); cbn; [|now right].
    destruct (js_get (evmStack lastStep) _); cbn; [|now right].
    destruct (js_get (evmStack lastStep) _); cbn; [|now right].
    left. eauto.
Qed.

Lemma adjustStackFrame_increase_call_deep (stack : DbgStack) (state : StepVMState)
    (trace : list StepState) (lastStep : StepState) (code : Buffer)
    (codeHash : option HexString) :
  lastOf trace = Some lastStep ->
  depth lastStep < depth state ->
  stack <> [] ->
  increasesDepth (op lastStep) = true ->
  5 <= len (evmStack lastStep) ->
  exists f, adjustStackFrame stack state trace code codeHash = Ok (stack ++ [External f]).
Proof.
  intros Hlast Hd Hs Hinc Hdeep. destruct (lastExternalFrame_nonempty Hs) as (e & He).
  enter_depth_change He Hlast.
  rewrite Hinc. cbn [assert bind].
  destruct (createsContract (op lastStep)).
  - destruct (@stackNumber_in_range (evmStack lastStep) (len (evmStack lastStep) - 1 - 1))
      as (a & ->); [lia|].
    destruct (@stackNumber_in_range (evmStack lastStep) (len (evmStack lastStep) - 1 - 2))
      as (b & ->); [lia|].
    cbn. eauto.
  - set (k := if _ : bool then 3 else 2).
    assert (Hk : k = 3 \/ k = 2) by (subst k; destruct (_ || _); auto).
    destruct (@stackNumber_in_range (evmStack lastStep) (len (evmStack lastStep) - 1 - k))
      as (a & ->); [lia|].
    destruct (@stackNumber_in_range (evmStack lastStep) (len (evmStack lastStep) - 1 - (k + 1)))
      as (b & ->); [lia|].
    destruct (@js_get_in_range _ (evmStack lastStep) (len (evmStack lastStep) - 1 - 1))
      as (w & ->); [lia|].
    cbn. eauto.
Qed.

(** C3, as the code has it.  On a depth increase the reconciler fails hard
    exactly when the previous opcode is not depth-increasing; the size of
    the increase is not looked at.  After a depth-increasing opcode an
    increase of any size pushes one external frame (given the 5 operand
    stack words a call's arguments are read from), and never trips the
    assertion. *)
Theorem adjustStackFrame_depth_increase_checks_opcode_only
    (stack : DbgStack) (state : StepVMState) (trace : list StepState)
    (lastStep : StepState) (code : Buffer) (codeHash : option HexString) :
  lastOf trace = Some lastStep ->
  depth lastStep < depth state ->
  stack <> [] ->
  (increasesDepth (op lastStep) = false ->
   adjustStackFrame stack state trace code codeHash =
   Fail (AssertUnexpectedDepthIncrease (mnemonic (op lastStep)))) /\
  (increasesDepth (op lastStep) = true ->
   adjustStackFrame stack state trace code codeHash <>
   Fail (AssertUnexpectedDepthIncrease (mnemonic (op lastStep))) /\
   (5 <= len (evmStack lastStep) ->
    exists f, adjustStackFrame stack state trace code codeHash = Ok (stack ++ [External f]))).
Proof.
  intros Hlast Hd Hs. split; intros Hinc.
  - now apply adjustStackFrame_increase_not_call.
  - split.
    + destruct (@adjustStackFrame_increase_call stack state trace lastStep code codeHash
                  Hlast Hd Hs Hinc)
        as [(f & ->)| ->]; discriminate.
    + intros Hdeep. now apply adjustStackFrame_increase_call_deep with (lastStep := lastStep).
Qed.

(** A source triple decoded for a frame comes from the frame's debug info:
    creation bytecode for a Creation frame, deployed bytecode for a Call
    frame; the AST node is the one the artifact maps the triple to. *)
Lemma decodeSourceLoc_Some (instrOffset : Z) (ctx : ExternalFrame)
    (curSrc : DecodedBytecodeSourceMapEntry) (ast : option ASTNode) :
  decodeSourceLoc instrOffset ctx = Ok (Some curSrc, ast) ->
  exists ci,
    info ctx = Some ci /\
    getOffsetSrc instrOffset
      (match ctx with ECreation _ => bytecode ci | ECall _ => deployedBytecode ci end) =
    Some curSrc /\
    ast = Map_get (srcMap (artifact ci)) (srcKey curSrc).
Proof.
  unfold decodeSourceLoc. destruct (info ctx) as [ci|]; [|discriminate].
  destruct (getOffsetSrc instrOffset _) as [s0|] eqn:E; [|discriminate].
  intros [= <- <-]. now exists ci.
Qed.

(** The prefix of [adjustStackFrame] common to the same-depth cases. *)
Lemma adjustStackFrame_same_depth (stack : DbgStack) (state : StepVMState)
    (trace : list StepState) (lastStep : StepState) (code : Buffer)
    (codeHash : option HexString) (ext : ExternalFrame)
    (curSrc : DecodedBytecodeSourceMapEntry) (ast : option ASTNode) :
  lastOf trace = Some lastStep ->
  depth lastStep = depth state ->
  lastExternalFrame stack = Ok ext ->
  decodeSourceLoc (pc state) ext = Ok (Some curSrc, ast) ->
  adjustStackFrame stack state trace code codeHash =
  if String.eqb (mnemonic (op state)) "JUMPDEST" &&
     String.eqb (mnemonic (op lastStep)) "JUMP" &&
     jumpIs (src lastStep) JumpInto
  then
    args <- internalArgs ast (evmStack state) ;;
    Ok (stack ++ [InternalCall {| internal_callee := ast;
                                  internal_arguments := args;
                                  internal_startStep := len trace;
                                  nearestExtFrame := ext;
                                  offset := pc state |}])
  else if String.eqb (mnemonic (op state)) "JUMP" && isJump (jump curSrc) JumpOut then
    topFrame <- defined (lastOf stack) ;;
    _ <- assert (match kind topFrame with KInternalCall => true | _ => false end)
                AssertMismatchedInternalReturn ;;
    Ok (removelast stack)
  else Ok stack.
Proof.
  intros Hlast Hd He Hsrc. unfold adjustStackFrame.
  rewrite He, Hlast. cbn [bind]. rewrite Hd, Z.eqb_refl. cbn [negb].
  rewrite Hsrc. reflexivity.
Qed.

(** C4.  On a same-depth step with a source triple for the current PC,
    whose opcode is JUMPDEST, whose previous opcode is JUMP and whose
    previous source triple has jump kind "into", the reconciler pushes an
    InternalCall frame: its callee is the AST node at the current source
    triple, its offset the current PC, its start step the current trace
    index, its nearest external frame the current one.  Its arguments are
    what [decodeFunArgs] gives on the callee and the current operand stack
    when the callee is a FunctionDefinition or a state-variable
    VariableDeclaration (the reconciler throws when [decodeFunArgs] does),
    and undefined for any other node. *)
Theorem adjustStackFrame_internal_call_entry
    (stack : DbgStack) (state : StepVMState) (trace : list StepState)
    (lastStep : StepState) (code : Buffer) (codeHash : option HexString)
    (ext : ExternalFrame) (curSrc lastSrc : DecodedBytecodeSourceMapEntry)
    (ast : option ASTNode) :
  lastOf trace = Some lastStep ->
  depth lastStep = depth state ->
  lastExternalFrame stack = Ok ext ->
  decodeSourceLoc (pc state) ext = Ok (Some curSrc, ast) ->
  mnemonic (op state) = "JUMPDEST" ->
  mnemonic (op lastStep) = "JUMP" ->
  src lastStep = Some lastSrc ->
  jump lastSrc = JumpInto ->
  let frame args :=
    InternalCall {| internal_callee := ast;
                    internal_arguments := args;
                    internal_startStep := len trace;
                    nearestExtFrame := ext;
                    offset := pc state |} in
  (exists ci, info ext = Some ci /\ ast = Map_get (srcMap (artifact ci)) (srcKey curSrc)) /\
  adjustStackFrame stack state trace code codeHash =
  match ast with
  | Some (NFunctionDefinition f) =>
      args <- decodeFunArgs (CalleeFun f) (evmStack state) ;;
      Ok (stack ++ [frame (option_map (map (fun '(n, v) => (n, Some v))) args)])
  | Some (NVariableDeclaration v) =>
      if stateVariable v then
        args <- decodeFunArgs (CalleeVar v) (evmStack state) ;;
        Ok (stack ++ [frame (option_map (map (fun '(n, v) => (n, Some v))) args)])
      else Ok (stack ++ [frame None])
  | _ => Ok (stack ++ [frame None])
  end.
Proof.
  intros Hlast Hd He Hsrc Hop HlastOp HlastSrc Hjump frame.
  split.
  { destruct (decodeSourceLoc_Some _ _ Hsrc) as (ci & Hci & _ & Hast). now exists ci. }
  rewrite adjustStackFrame_same_depth
    with (lastStep := lastStep) (ext := ext) (curSrc := curSrc) (ast := ast) by assumption.
  rewrite Hop, HlastOp, HlastSrc. cbn [String.eqb Ascii.eqb Bool.eqb andb jumpIs].
  rewrite Hjump. cbn [isJump]. unfold internalArgs, calleeOf.
  destruct ast as [[f|v|id]|]; cbn [bind]; try reflexivity.
  - destruct (decodeFunArgs (CalleeFun f) (evmStack state)); reflexivity.
  - destruct (stateVariable v); [|reflexivity].
    destruct (decodeFunArgs (CalleeVar v) (evmStack state)); reflexivity.
Qed.

(** C5.  On a same-depth step whose opcode is JUMP and whose current
    source triple has jump kind "out", the reconciler fails hard when the
    top frame is not an InternalCall frame, and otherwise pops exactly that
    frame. *)
Theorem adjustStackFrame_internal_call_return
    (rest : DbgStack) (topFrame : Frame) (state : StepVMState) (trace : list StepState)
    (lastStep : StepState) (code : Buffer) (codeHash : option HexString)
    (ext : ExternalFrame) (curSrc : DecodedBytecodeSourceMapEntry) (ast : option ASTNode) :
  lastOf trace = Some lastStep ->
  depth lastStep = depth state ->
  lastExternalFrame (rest ++ [topFrame]) = Ok ext ->
  decodeSourceLoc (pc state) ext = Ok (Some curSrc, ast) ->
  mnemonic (op state) = "JUMP" ->
  jump curSrc = JumpOut ->
  adjustStackFrame (rest ++ [topFrame]) state trace code codeHash =
  match kind topFrame with
  | KInternalCall => Ok rest
  | _ => Fail AssertMismatchedInternalReturn
  end.
Proof.
  intros Hlast Hd He Hsrc Hop Hjump.
  rewrite adjustStackFrame_same_depth
    with (lastStep := lastStep) (ext := ext) (curSrc := curSrc) (ast := ast) by assumption.
  rewrite Hop, Hjump. cbn [String.eqb Ascii.eqb Bool.eqb andb isJump].
  rewrite lastOf_snoc, removelast_snoc. cbn [defined bind].
  destruct (kind topFrame); reflexivity.
Qed.

(** *** Slices *)

(** Inside the buffer a JS slice is the mathematical one. *)
Lemma slice_in_range {A} (l : list A) (s n : Z) :
  0 <= s -> 0 <= n -> s + n <= len l ->
  slice l s (s + n) = firstn (Z.to_nat n) (skipn (Z.to_nat s) l).
Proof.
  intros Hs Hn Hle. unfold slice, js_slice, relIndex.
  destruct (Z.ltb_spec s 0); [lia|]. destruct (Z.ltb_spec (s + n) 0); [lia|].
  rewrite !Z.min_l by lia. f_equal. lia.
Qed.

Lemma sliceFrom_skipn {A} (l : list A) (s : Z) :
  0 <= s <= len l -> sliceFrom l s = skipn (Z.to_nat s) l.
Proof.
  intros Hs. unfold sliceFrom, slice, js_slice, relIndex.
  destruct (Z.ltb_spec s 0); [lia|]. pose proof (len_nonneg l).
  destruct (Z.ltb_spec (len l) 0); [lia|].
  rewrite !Z.min_l by lia. apply firstn_all2.
  rewrite length_skipn. unfold len in *. lia.
Qed.

(** [wordToAddress] keeps the rightmost 20 bytes of a 32-byte word. *)
Lemma wordToAddress_rightmost (w : Buffer) :
  List.length w = 32%nat ->
  addrBuf (wordToAddress w) = skipn 12 w /\ List.length (addrBuf (wordToAddress w)) = 20%nat.
Proof.
  intros Hw. cbn [wordToAddress addrBuf].
  rewrite sliceFrom_skipn by (unfold len; lia).
  split; [reflexivity|]. change (Z.to_nat 12) with 12%nat. rewrite length_skipn. lia.
Qed.

Lemma ordinary_call_positions (o : EVMOpInfo) :
  increasesDepth o = true -> createsContract o = false ->
  exists offPos sizePos,
    specArgPositions (opcode o) = Some (offPos, sizePos) /\
    offPos = (if (opcode o =? OPCODES.CALL) || (opcode o =? OPCODES.CALLCODE) then 3 else 2) /\
    sizePos = offPos + 1.
Proof.
  unfold increasesDepth, createsContract, specArgPositions. intros Hinc Hcr.
  destruct (opcode o =? OPCODES.CALL), (opcode o =? OPCODES.CALLCODE),
    (opcode o =? OPCODES.DELEGATECALL), (opcode o =? OPCODES.STATICCALL),
    (opcode o =? OPCODES.CREATE), (opcode o =? OPCODES.CREATE2);
    cbn in *; try discriminate; eauto.
Qed.

(** C6.  When the depth increases after an ordinary (non-creating) call
    opcode, the frame pushed is the Call frame that [makeCallFrame] builds
    from: the previous external frame's address as sender; as receiver the
    word at [top-1] of the previous operand stack read as an address (its
    rightmost 20 bytes); as msg-data the slice [argOff, argOff+argSize) of
    the previous step's memory, with [argOff] and [argSize] read at
    [top-3] and [top-4] for CALL and CALLCODE and at [top-2] and [top-3]
    for DELEGATECALL and STATICCALL; the code and code hash given; the
    trace index. *)
Theorem adjustStackFrame_external_call
    (stack : DbgStack) (state : StepVMState) (trace : list StepState)
    (lastStep : StepState) (code : Buffer) (codeHash : option HexString)
    (lastExtFrame : ExternalFrame) (offPos sizePos : Z) (wOff wSize wRecv : Buffer) :
  lastOf trace = Some lastStep ->
  depth lastStep < depth state ->
  lastExternalFrame stack = Ok lastExtFrame ->
  increasesDepth (op lastStep) = true ->
  createsContract (op lastStep) = false ->
  specArgPositions (opcode (op lastStep)) = Some (offPos, sizePos) ->
  let top := len (evmStack lastStep) - 1 in
  js_get (evmStack lastStep) (top - offPos) = Some wOff ->
  js_get (evmStack lastStep) (top - sizePos) = Some wSize ->
  js_get (evmStack lastStep) (top - 1) = Some wRecv ->
  let argOff := bigEndianBufToNumber wOff in
  let argSize := bigEndianBufToNumber wSize in
  let msgData := slice (memBytes (memory lastStep)) argOff (argOff + argSize) in
  let newFrame :=
    makeCallFrame (Address_toString (address lastExtFrame)) (wordToAddress wRecv)
                  msgData code codeHash (len trace) in
  adjustStackFrame stack state trace code codeHash = Ok (stack ++ [External (ECall newFrame)]) /\
  call_msgData newFrame = msgData /\
  call_address newFrame = wordToAddress wRecv /\
  receiver newFrame = Address_toString (wordToAddress wRecv) /\
  (List.length wRecv = 32%nat -> addrBuf (call_address newFrame) = skipn 12 wRecv) /\
  (0 <= argOff -> 0 <= argSize -> argOff + argSize <= len (memBytes (memory lastStep)) ->
   msgData = firstn (Z.to_nat argSize) (skipn (Z.to_nat argOff) (memBytes (memory lastStep)))).
Proof.
  intros Hlast Hd He Hinc Hcr Hpos top HwOff HwSize HwRecv argOff argSize msgData newFrame.
  destruct (ordinary_call_positions _ Hinc Hcr) as (o' & s' & Hpos' & Ho & Hs).
  rewrite Hpos in Hpos'. injection Hpos' as <- <-.
  split; [|repeat split].
  - enter_depth_change He Hlast.
    rewrite Hinc, Hcr. cbn [assert bind]. rewrite <- Ho, <- Hs.
    unfold stackNumber. fold top. rewrite HwOff, HwSize, HwRecv. reflexivity.
  - intros Hw. now apply wordToAddress_rightmost.
  - intros H1 H2 H3. now apply slice_in_range.
Qed.

(** *** [decodeFunArgs] *)

Lemma slotsOf_cases (typ : TypeNode) :
  (isCalldataType2Slots typ = true /\ slotsOf typ = 2) \/
  (isCalldataType2Slots typ = false /\ slotsOf typ = 1).
Proof. unfold slotsOf. destruct (isCalldataType2Slots typ); auto. Qed.

Lemma offsetOf_lower (formals : list (string * TypeNode)) : -1 <= offsetOf formals.
Proof.
  induction formals as [|[n t] rest IH]; cbn [offsetOf]; [lia|].
  destruct (slotsOf_cases t) as [[_ ->]|[_ ->]]; lia.
Qed.

Lemma decodeFunArgsLoop_app (nFormals stackLen : Z) (l1 l2 : list (string * TypeNode)) :
  forall (off : Z) (res : list (string * DataView)),
  decodeFunArgsLoop nFormals stackLen (l1 ++ l2) off res =
  (res1 <- decodeFunArgsLoop nFormals stackLen l1 off res ;;
   decodeFunArgsLoop nFormals stackLen l2 (off + (offsetOf l1 + 1)) res1).
Proof.
  induction l1 as [|[n t] l1 IH]; intros off res.
  - cbn. f_equal. lia.
  - cbn [app decodeFunArgsLoop offsetOf].
    unfold assert. destruct (off + slotsOf t <=? stackLen); cbn [bind]; [|reflexivity].
    rewrite IH.
    now replace (off + slotsOf t + (offsetOf l1 + 1))
      with (off + (offsetOf l1 + slotsOf t + 1)) by lia.
Qed.

Lemma offsetOf_app (l1 l2 : list (string * TypeNode)) :
  offsetOf (l1 ++ l2) = offsetOf l1 + offsetOf l2 + 1.
Proof.
  induction l1 as [|[n t] l1 IH]; cbn [app offsetOf]; [lia|]. rewrite IH. lia.
Qed.

Lemma offsetOf_rev (l : list (string * TypeNode)) : offsetOf (rev l) = offsetOf l.
Proof.
  induction l as [|[n t] l IH]; [reflexivity|].
  cbn [rev]. rewrite offsetOf_app, IH. cbn [offsetOf]. lia.
Qed.

Lemma decodeFunArgsLoop_closed (nFormals stackLen : Z) (formals : list (string * TypeNode)) :
  0 <= stackLen ->
  decodeFunArgsLoop nFormals stackLen (rev formals) (-1) [] =
  if stackLen <? offsetOf formals
  then Fail (AssertStackUnderflow nFormals stackLen)
  else Ok (expectedArgs formals).
Proof.
  intros Hlen. induction formals as [|[n t] rest IH].
  - cbn [rev decodeFunArgsLoop offsetOf expectedArgs].
    now destruct (Z.ltb_spec stackLen (-1)); [lia|].
  - cbn [rev]. rewrite decodeFunArgsLoop_app, IH, offsetOf_rev.
    pose proof (offsetOf_lower rest) as Hlo.
    cbn [offsetOf expectedArgs]. destruct (slotsOf_cases t) as [[_ Hs]|[_ Hs]].
    + destruct (Z.ltb_spec stackLen (offsetOf rest)); cbn [bind].
      * destruct (Z.ltb_spec stackLen (offsetOf rest + slotsOf t)); [reflexivity|lia].
      * cbn [decodeFunArgsLoop].
        replace (-1 + (offsetOf rest + 1) + slotsOf t) with (offsetOf rest + slotsOf t) by lia.
        unfold assert.
        destruct (Z.leb_spec (offsetOf rest + slotsOf t) stackLen);
          destruct (Z.ltb_spec stackLen (offsetOf rest + slotsOf t)); try lia; reflexivity.
    + destruct (Z.ltb_spec stackLen (offsetOf rest)); cbn [bind].
      * destruct (Z.ltb_spec stackLen (offsetOf rest + slotsOf t)); [reflexivity|lia].
      * cbn [decodeFunArgsLoop].
        replace (-1 + (offsetOf rest + 1) + slotsOf t) with (offsetOf rest + slotsOf t) by lia.
        unfold assert.
        destruct (Z.leb_spec (offsetOf rest + slotsOf t) stackLen);
          destruct (Z.ltb_spec stackLen (offsetOf rest + slotsOf t)); try lia; reflexivity.
Qed.

(** C9.  [decodeFunArgs] returns undefined when the formals cannot be
    typed; otherwise it gives every formal the location
    [Stack(offsetFromTop)], where going from the last formal to the first
    [offsetFromTop] starts at -1 and grows by 2 for a two-slot calldata type
    and by 1 otherwise; and when the operand stack is shallower than the
    accumulated offset ([stack.length < offsetFromTop]) it fails hard with
    the stack-underflow assertion instead. *)
Theorem decodeFunArgs_locations (callee : Callee) (stack : Stack) :
  decodeFunArgs callee stack =
  match formalsOf callee with
  | None => Ok None
  | Some formals =>
      if len stack <? offsetOf formals
      then Fail (AssertStackUnderflow (len formals) (len stack))
      else Ok (Some (expectedArgs formals))
  end.
Proof.
  unfold decodeFunArgs. destruct (formalsOf callee) as [formals|]; [|reflexivity].
  rewrite decodeFunArgsLoop_closed by apply len_nonneg.
  now destruct (len stack <? offsetOf formals).
Qed.

(** The rule of [expectedArgs], formal by formal. *)
Lemma expectedArgs_nth (formals : list (string * TypeNode)) :
  List.length (expectedArgs formals) = List.length formals /\
  forall (i : nat) (name : string) (typ : TypeNode),
    nth_error formals i = Some (name, typ) ->
    nth_error (expectedArgs formals) i =
    Some (name, {| type := typ; originalType := None;
                   loc := StackLocation (offsetOf (skipn i formals)) |}) /\
    offsetOf (skipn i formals) =
    offsetOf (skipn (S i) formals) + (if isCalldataType2Slots typ then 2 else 1).
Proof.
  induction formals as [|[n t] rest [IHlen IH]]; split.
  - reflexivity.
  - intros [|i] name typ H; discriminate.
  - cbn. now rewrite IHlen.
  - intros [|i] name typ H.
    + injection H as -> ->. split; reflexivity.
    + cbn [nth_error] in H. destruct (IH i name typ H) as [H1 H2]. split; assumption.
Qed.

(** *** One processed step *)

Lemma translateVMState_fields (step : InterpreterStep) (lastStep : option StepState)
    (nextId : nat) :
  let vmS := fst (translateVMState step lastStep nextId) in
  evmStack vmS = map wordOfBN (step_stack step) /\
  op vmS = getOpInfo (name (step_opcode step)) /\
  pc vmS = step_pc step /\
  depth vmS = step_depth step + 1.
Proof.
  unfold translateVMState.
  destruct lastStep as [l|]; [destruct (changesMemory (op l)), (opcode (op l) =? OPCODES.SSTORE)|];
    cbn; auto.
Qed.

(** What a successful [processRawTraceStep] went through. *)
Lemma processRawTraceStep_inv (vm : StateManager) (step : InterpreterStep)
    (trace : list StepState) (stk stk' : DbgStack) (nextId nextId' : nat) (st : StepState) :
  processRawTraceStep vm step trace stk nextId = Ok (st, stk', nextId') ->
  vmState st = fst (translateVMState step (lastOf trace) nextId) /\
  nextId' = snd (translateVMState step (lastOf trace) nextId) /\
  stack st = stk' /\
  (exists code codeMdHash,
      getCodeAndMdHash vm (vmState st) trace = Ok (code, codeMdHash) /\
      adjustStackFrame stk (vmState st) trace code codeMdHash = Ok stk') /\
  (exists e, lastExternalFrame stk' = Ok e) /\
  extractEvent (name (step_opcode step)) (evmStack st) (memory st) = Ok (emittedEvent st).
Proof.
  unfold processRawTraceStep.
  destruct (translateVMState step (lastOf trace) nextId) as [vmS n1]. cbn [fst snd].
  destruct (getCodeAndMdHash vm vmS trace) as [[c h]|] eqn:Hcode; cbn [bind]; [|discriminate].
  destruct (adjustStackFrame stk vmS trace c h) as [s1|] eqn:Hadj; cbn [bind]; [|discriminate].
  destruct (lastExternalFrame s1) as [e|] eqn:He; cbn [bind]; [|discriminate].
  destruct (match decodeSourceLoc (step_pc step) e with Ok r => r | Fail _ => (None, None) end)
    as [sr an].
  destruct (extractEvent (name (step_opcode step)) (evmStack vmS) (memory vmS)) as [ev|] eqn:Hev;
    cbn [bind]; [|discriminate].
  intros [= <- <- <-]. cbn.
  split; [reflexivity|]. split; [reflexivity|]. split; [reflexivity|].
  split; [now exists c, h|]. split; [now exists e|assumption].
Qed.

(** *** The event extractor *)

Lemma nTopicsOf_digit (name : string) (c : ascii) (n : Z) :
  String.get 3 name = Some c -> digitOf c = Some n ->
  nTopicsOf name = Some n /\ 0 <= n <= 9.
Proof.
  unfold nTopicsOf, digitOf, charToNumber. intros -> H.
  change (Z.of_nat (nat_of_ascii "0")) with 48. cbn [Z.leb Z.compare Pos.compare andb].
  destruct ((48 <=? Z.of_nat (nat_of_ascii c)) && (Z.of_nat (nat_of_ascii c) <=? 57)) eqn:E;
    [|discriminate].
  injection H as <-. apply andb_prop in E as [E1 E2].
  apply Z.leb_le in E1, E2. cbn. split; [f_equal; lia|lia].
Qed.

(** The [n] entries below the two top ones, top-most first. *)
Lemma topics_below_size {A} (l : list A) (n : Z) :
  0 <= n -> n + 2 <= len l ->
  let t := rev (js_slice l (Some (len l - 2 - n)) (len l - 2)) in
  len t = n /\
  forall i, 0 <= i < n -> js_get t i = js_get l (len l - 3 - i).
Proof.
  intros Hn Hle t. subst t. unfold js_slice, relIndex.
  destruct (Z.ltb_spec (len l - 2 - n) 0); [lia|].
  destruct (Z.ltb_spec (len l - 2) 0); [lia|].
  rewrite !Z.min_l by lia.
  replace (len l - 2 - (len l - 2 - n)) with n by lia.
  set (k := Z.to_nat (len l - 2 - n)).
  assert (Hlen : List.length (firstn (Z.to_nat n) (skipn k l)) = Z.to_nat n).
  { rewrite length_firstn, length_skipn. unfold len in *. lia. }
  split.
  - unfold len. rewrite length_rev, Hlen. lia.
  - intros i Hi. unfold js_get.
    destruct (Z.ltb_spec i 0); [lia|]. destruct (Z.ltb_spec (len l - 3 - i) 0); [lia|].
    rewrite nth_error_rev, Hlen.
    destruct (Nat.ltb_spec (Z.to_nat i) (Z.to_nat n)); [|lia].
    rewrite nth_error_firstn.
    destruct (Nat.ltb_spec (Z.to_nat n - S (Z.to_nat i)) (Z.to_nat n)); [|lia].
    rewrite nth_error_skipn. f_equal. subst k. lia.
Qed.

Lemma js_get_map {A B} (f : A -> B) (l : list A) (i : Z) :
  js_get (map f l) i = option_map f (js_get l i).
Proof.
  unfold js_get. destruct (i <? 0); [reflexivity|]. apply nth_error_map.
Qed.

Lemma len_map {A B} (f : A -> B) (l : list A) : len (map f l) = len l.
Proof. unfold len. now rewrite length_map. Qed.

(** The event of a LOG step on an operand stack deep enough for it. *)
Lemma extractEvent_log (name : string) (evmStack : Stack) (mem : Memory) (c : ascii) (n : Z) :
  String.prefix "LOG" name = true ->
  String.get 3 name = Some c ->
  digitOf c = Some n ->
  n + 2 <= len evmStack ->
  exists wOff wSize ev,
    js_get evmStack (len evmStack - 1) = Some wOff /\
    js_get evmStack (len evmStack - 2) = Some wSize /\
    extractEvent name evmStack mem = Ok (Some ev) /\
    payload ev = slice (memBytes mem) (bigEndianBufToNumber wOff)
                       (bigEndianBufToNumber wOff + bigEndianBufToNumber wSize) /\
    len (topics ev) = n /\
    forall i, 0 <= i < n ->
      js_get (topics ev) i =
      option_map bigEndianBufToBigint (js_get evmStack (len evmStack - 3 - i)).
Proof.
  intros Hlog Hget Hdig Hdeep.
  destruct (nTopicsOf_digit name Hget Hdig) as [HnT Hn].
  destruct (@js_get_in_range _ evmStack (len evmStack - 1)) as (wOff & HwOff); [lia|].
  destruct (@js_get_in_range _ evmStack (len evmStack - 2)) as (wSize & HwSize); [lia|].
  destruct (@topics_below_size _ evmStack n) as [Hlen Hnth]; [lia|lia|].
  exists wOff, wSize. eexists. split; [assumption|]. split; [assumption|].
  unfold extractEvent, stackNumber. rewrite Hlog, HwOff, HwSize, HnT. cbn [defined bind option_map].
  split; [reflexivity|]. cbn [payload topics]. split; [reflexivity|].
  split.
  - now rewrite len_map.
  - intros i Hi. rewrite js_get_map. now rewrite Hnth.
Qed.

(** *** Words *)

Lemma byteZ_zByte (z : Z) : byteZ (zByte z) = z mod 256.
Proof.
  unfold byteZ, zByte. pose proof (Z.mod_pos_bound z 256 ltac:(lia)) as Hb.
  destruct (Byte.of_N (Z.to_N (z mod 256))) as [b|] eqn:E.
  - apply Byte.to_of_N in E. rewrite E. lia.
  - apply Byte.of_N_None_iff in E. lia.
Qed.

Lemma bigEndianBufToBigint_snoc (buf : Buffer) (b : byte) :
  bigEndianBufToBigint (buf ++ [b]) = bigEndianBufToBigint buf * 256 + byteZ b.
Proof. unfold bigEndianBufToBigint. now rewrite fold_left_app. Qed.

Lemma length_toArrayBE (n : nat) : forall z, List.length (toArrayBE n z) = n.
Proof.
  induction n as [|n IH]; intros z; [reflexivity|].
  cbn [toArrayBE]. rewrite length_app, IH. cbn. lia.
Qed.

Lemma bigEndianBufToBigint_toArrayBE (n : nat) : forall z,
  bigEndianBufToBigint (toArrayBE n z) = z mod 256 ^ Z.of_nat n.
Proof.
  induction n as [|n IH]; intros z.
  - cbn. now rewrite Z.mod_1_r.
  - cbn [toArrayBE]. rewrite bigEndianBufToBigint_snoc, IH, byteZ_zByte.
    rewrite Nat2Z.inj_succ, Z.pow_succ_r by lia.
    rewrite Z.rem_mul_r by lia. lia.
Qed.

(** A VM word read back from its 32 bytes. *)
Lemma bigEndianBufToBigint_wordOfBN (z : Z) :
  bigEndianBufToBigint (wordOfBN z) = z mod 2 ^ 256 /\ List.length (wordOfBN z) = 32%nat.
Proof.
  unfold wordOfBN. split; [|apply length_toArrayBE].
  rewrite bigEndianBufToBigint_toArrayBE. f_equal.
Qed.

Lemma bigEndianBufToNumber_wordOfBN (z : Z) :
  bigEndianBufToNumber (wordOfBN z) = z mod 2 ^ 256.
Proof. apply bigEndianBufToBigint_wordOfBN. Qed.

(** C8, as the code has it.  For a recorded step whose opcode name begins
    with "LOG" and has the digit [n] as its fourth character, PROVIDED the
    operand stack holds at least [n + 2] words: the emitted event's payload
    is the memory slice [offset, offset+size) with [offset] and [size] the
    words at [top] and [top-1], and it has exactly [n] topics, the [n] words
    below [size] in reversed order (topic [i] is the word at [top-2-i]), each
    read as a big-endian 256-bit unsigned integer. *)
Theorem processRawTraceStep_log_event
    (vm : StateManager) (step : InterpreterStep) (trace : list StepState)
    (stk stk' : DbgStack) (nextId nextId' : nat) (st : StepState) (c : ascii) (n : Z) :
  processRawTraceStep vm step trace stk nextId = Ok (st, stk', nextId') ->
  String.prefix "LOG" (name (step_opcode step)) = true ->
  String.get 3 (name (step_opcode step)) = Some c ->
  digitOf c = Some n ->
  n + 2 <= len (step_stack step) ->
  let top := len (step_stack step) - 1 in
  exists zOff zSize ev,
    js_get (step_stack step) top = Some zOff /\
    js_get (step_stack step) (top - 1) = Some zSize /\
    emittedEvent st = Some ev /\
    payload ev = slice (memBytes (memory st)) (zOff mod 2 ^ 256)
                       (zOff mod 2 ^ 256 + zSize mod 2 ^ 256) /\
    len (topics ev) = n /\
    forall i, 0 <= i < n ->
      js_get (topics ev) i =
      option_map (fun z => z mod 2 ^ 256) (js_get (step_stack step) (top - 2 - i)).
Proof.
  intros Hrun Hlog Hget Hdig Hdeep top.
  destruct (processRawTraceStep_inv _ _ _ _ _ Hrun) as (Hvm & _ & _ & _ & _ & Hev).
  destruct (translateVMState_fields step (lastOf trace) nextId) as (Hstack & _).
  rewrite <- Hvm in Hstack.
  destruct (@extractEvent_log (name (step_opcode step)) (evmStack st) (memory st) c n)
    as (wOff & wSize & ev & HwOff & HwSize & Hex & Hpay & Hlen & Htop); try assumption.
  { now rewrite Hstack, len_map. }
  rewrite Hstack, len_map in HwOff, HwSize, Htop. rewrite js_get_map in HwOff, HwSize.
  destruct (js_get (step_stack step) (len (step_stack step) - 1)) as [zOff|] eqn:EzOff;
    [|discriminate].
  destruct (js_get (step_stack step) (len (step_stack step) - 2)) as [zSize|] eqn:EzSize;
    [|discriminate].
  injection HwOff as <-. injection HwSize as <-.
  exists zOff, zSize, ev. subst top.
  split; [assumption|]. split; [now replace (len (step_stack step) - 1 - 1)
                                  with (len (step_stack step) - 2) by lia|].
  split; [rewrite Hev in Hex; now injection Hex|].
  rewrite !bigEndianBufToNumber_wordOfBN in Hpay.
  split; [assumption|]. split; [assumption|].
  intros i Hi. rewrite (Htop i Hi), js_get_map.
  replace (len (step_stack step) - 1 - 2 - i) with (len (step_stack step) - 3 - i) by lia.
  destruct (js_get (step_stack step) (len (step_stack step) - 3 - i)); [|reflexivity].
  cbn [option_map]. f_equal. apply bigEndianBufToBigint_wordOfBN.
Qed.

(** *** How the reconciler changes the number of external frames *)

Lemma adjustStackFrame_Ok_nonempty (stk stk' : DbgStack) (state : StepVMState)
    (trace : list StepState) (code : Buffer) (codeHash : option HexString) :
  adjustStackFrame stk state trace code codeHash = Ok stk' -> stk <> [].
Proof.
  intros H ->. unfold adjustStackFrame in H. rewrite lastExternalFrame_nil in H. discriminate.
Qed.

Lemma adjustStackFrame_same_depth_count (stk stk' : DbgStack) (state : StepVMState)
    (trace : list StepState) (lastStep : StepState) (code : Buffer)
    (codeHash : option HexString) :
  lastOf trace = Some lastStep ->
  depth lastStep = depth state ->
  adjustStackFrame stk state trace code codeHash = Ok stk' ->
  countExternal stk' = countExternal stk.
Proof.
  intros Hlast Hd Hadj.
  pose proof (@adjustStackFrame_Ok_nonempty stk stk' state trace code codeHash Hadj) as Hstk.
  destruct (lastExternalFrame_nonempty Hstk) as (e & He).
  destruct (decodeSourceLoc (pc state) e) as [[[curSrc|] ast]|] eqn:Hsrc.
  - rewrite adjustStackFrame_same_depth
      with (lastStep := lastStep) (ext := e) (curSrc := curSrc) (ast := ast) in Hadj
      by assumption.
    destruct (_ && _ && _) in Hadj.
    + destruct (internalArgs ast (evmStack state)); cbn [bind] in Hadj; [|discriminate].
      injection Hadj as <-. rewrite countExternal_app, countExternal_one. cbn. lia.
    + destruct (_ && _) in Hadj; [|now injection Hadj as <-].
      destruct (snoc_cases stk) as [->|(rest & top & ->)]; [discriminate|].
      rewrite lastOf_snoc, removelast_snoc in Hadj. cbn [defined bind] in Hadj.
      rewrite countExternal_app, countExternal_one. unfold isExternalKind.
      destruct (kind top); cbn in Hadj; try discriminate.
      injection Hadj as <-. lia.
  - unfold adjustStackFrame in Hadj. rewrite He, Hlast in Hadj. cbn [bind] in Hadj.
    rewrite Hd, Z.eqb_refl in Hadj. cbn [negb] in Hadj. rewrite Hsrc in Hadj.
    cbn in Hadj. now injection Hadj as <-.
  - unfold adjustStackFrame in Hadj. rewrite He, Hlast in Hadj. cbn [bind] in Hadj.
    rewrite Hd, Z.eqb_refl in Hadj. cbn [negb] in Hadj. rewrite Hsrc in Hadj.
    discriminate.
Qed.

(** After a reconciliation that leaves a frame on the stack, the number
    of external frames is: one more after a depth increase (of any size),
    [prev.depth - depth] fewer after a decrease, unchanged otherwise. *)
Lemma adjustStackFrame_countExternal (stk stk' : DbgStack) (state : StepVMState)
    (trace : list StepState) (code : Buffer) (codeHash : option HexString) :
  adjustStackFrame stk state trace code codeHash = Ok stk' ->
  stk' <> [] ->
  countExternal stk' =
  match lastOf trace with
  | None => countExternal stk
  | Some lastStep =>
      if depth lastStep <? depth state then countExternal stk + 1
      else if depth state <? depth lastStep
           then countExternal stk - (depth lastStep - depth state)
           else countExternal stk
  end.
Proof.
  intros Hadj Hne.
  pose proof (@adjustStackFrame_Ok_nonempty stk stk' state trace code codeHash Hadj) as Hstk.
  destruct (lastOf trace) as [lastStep|] eqn:Hlast.
  - destruct (Z.ltb_spec (depth lastStep) (depth state)) as [Hup|Hnup].
    + destruct (increasesDepth (op lastStep)) eqn:Hinc.
      * destruct (@adjustStackFrame_increase_call stk state trace lastStep code codeHash
                    Hlast Hup Hstk Hinc) as [(f & Hf)|Hf]; rewrite Hf in Hadj; [|discriminate].
        injection Hadj as <-. rewrite countExternal_app, countExternal_one.
        now destruct f.
      * rewrite adjustStackFrame_increase_not_call with (lastStep := lastStep) in Hadj
          by assumption. discriminate.
    + destruct (Z.ltb_spec (depth state) (depth lastStep)) as [Hdown|Hndown].
      * rewrite adjustStackFrame_decrease with (lastStep := lastStep) in Hadj by assumption.
        injection Hadj as Hadj.
        destruct (@popFrames_split stk (depth lastStep - depth state))
          as (popped & Hsplit & [(Hc & _)|(Hnil & _)]); [lia| |congruence].
        rewrite Hadj in Hsplit. rewrite Hsplit, countExternal_app. lia.
      * apply adjustStackFrame_same_depth_count with (lastStep := lastStep) in Hadj;
          [assumption|assumption|lia].
  - destruct (snoc_cases trace) as [->|(t & x & ->)]; [|now rewrite lastOf_snoc in Hlast].
    rewrite adjustStackFrame_first in Hadj by assumption. now injection Hadj as <-.
Qed.

(** *** The whole trace: external frames and depth *)

Lemma processRawTraceStep_depth (vm : StateManager) (step : InterpreterStep)
    (trace : list StepState) (stk stk' : DbgStack) (nextId nextId' : nat) (st : StepState) :
  processRawTraceStep vm step trace stk nextId = Ok (st, stk', nextId') ->
  countExternal stk = expectedDepth trace ->
  vmDepthsOk (option_map (fun s : StepState => depth s - 1) (lastOf trace)) [step] = true ->
  depthMatches st step /\ stack st = stk'.
Proof.
  intros Hrun Hcount Hvm.
  destruct (processRawTraceStep_inv _ _ _ _ _ Hrun)
    as (Hst & _ & Hstack & (c & h & _ & Hadj) & (e & He) & _).
  destruct (translateVMState_fields step (lastOf trace) nextId) as (_ & _ & _ & Hdepth).
  rewrite <- Hst in Hdepth.
  assert (Hne : stk' <> []) by (intros ->; discriminate).
  pose proof (@adjustStackFrame_countExternal stk stk' st trace c h Hadj Hne) as Hc.
  unfold depthMatches. rewrite Hstack. split; [split; [assumption|]|reflexivity].
  unfold expectedDepth in Hcount. cbn [vmDepthsOk] in Hvm. rewrite andb_true_r in Hvm.
  destruct (lastOf trace) as [l|]; cbn [option_map] in Hvm.
  - apply Z.leb_le in Hvm.
    destruct (Z.ltb_spec (depth l) (depth st)); [lia|].
    destruct (Z.ltb_spec (depth st) (depth l)); lia.
  - apply Z.eqb_eq in Hvm. lia.
Qed.

Lemma runSteps_depth_invariant (rest : list InterpreterStep) :
  forall (done : list InterpreterStep) (trace : list StepState) (stk : DbgStack)
         (nextId : nat) (traceF : list StepState),
  runSteps rest trace stk nextId = Ok traceF ->
  Forall2 depthMatches trace done ->
  countExternal stk = expectedDepth trace ->
  vmDepthsOk (option_map (fun s : StepState => depth s - 1) (lastOf trace)) rest = true ->
  Forall2 depthMatches traceF (done ++ rest).
Proof.
  induction rest as [|step rest IH]; intros done trace stk nextId traceF Hrun Hdone Hcount Hvm.
  - cbn in Hrun. injection Hrun as <-. now rewrite app_nil_r.
  - cbn [runSteps] in Hrun.
    destruct (processRawTraceStep (step_stateManager step) step trace stk nextId)
      as [[[cur stk'] nextId']|] eqn:Hstep; cbn [bind] in Hrun; [|discriminate].
    cbn [vmDepthsOk] in Hvm. apply andb_prop in Hvm as [Hvm1 Hvm2].
    destruct (@processRawTraceStep_depth (step_stateManager step) step trace stk stk'
                nextId nextId' cur Hstep Hcount) as [Hcur Hstack].
    { cbn [vmDepthsOk]. now rewrite Hvm1. }
    replace (done ++ step :: rest) with ((done ++ [step]) ++ rest)
      by now rewrite <- app_assoc.
    apply IH with (trace := trace ++ [cur]) (stk := stk') (nextId := nextId').
    + assumption.
    + apply Forall2_app; [assumption|]. now constructor.
    + unfold expectedDepth. rewrite lastOf_snoc. destruct Hcur as [_ Hc].
      now rewrite <- Hstack, Hc.
    + rewrite lastOf_snoc. cbn [option_map]. destruct Hcur as [Hd _].
      now replace (depth cur - 1) with (step_depth step) by lia.
Qed.

Lemma initialFrame_external (vm : StateManager) (tx : Transaction) (f : Frame) :
  initialFrame vm tx = Ok f -> isExternalKind f = true.
Proof.
  unfold initialFrame. destruct (String.eqb _ ZERO_ADDRESS_STRING).
  - now intros [= <-].
  - destruct (to tx); cbn; [|discriminate]. now intros [= <-].
Qed.

(** C1.  Every recorded step has depth = VM depth + 1, and the number of
    external (Call plus Creation) frames in its frame-stack snapshot equals
    that depth.  The hypothesis [vmDepthsOk] is the depth discipline of the
    VM whose step events [debugTx] listens to: the first step event has
    depth 0, and the depth never rises by more than one from a step event
    to the next. *)
Theorem debugTx_external_frames_equal_depth
    (tx : Transaction) (vm : StateManager) (steps : list InterpreterStep)
    (trace : list StepState) :
  debugTx tx vm steps = Ok trace ->
  vmDepthsOk None steps = true ->
  Forall2 (fun (st : StepState) (raw : InterpreterStep) =>
             depth st = step_depth raw + 1 /\ countExternal (stack st) = depth st)
          trace steps.
Proof.
  unfold debugTx. intros Hrun Hvm.
  destruct (initialFrame vm tx) as [f|] eqn:Hf; cbn [bind] in Hrun; [|discriminate].
  apply (@runSteps_depth_invariant steps [] [] [f] 0%nat trace Hrun).
  - constructor.
  - unfold expectedDepth. cbn [lastOf]. rewrite countExternal_one.
    now rewrite (@initialFrame_external vm tx f Hf).
  - exact Hvm.
Qed.

(** *** The whole trace: shared and fresh buffers *)

Lemma translateVMState_ids (step : InterpreterStep) (lastStep : option StepState) (n : nat) :
  let v := fst (translateVMState step lastStep n) in
  let n' := snd (translateVMState step lastStep n) in
  (n <= n')%nat /\
  match lastStep with
  | Some prev =>
      (if changesMemory (op prev)
       then (n <= memId (memory v) < n')%nat /\ memBytes (memory v) = step_memory step
       else memory v = memory prev) /\
      (if opcode (op prev) =? OPCODES.SSTORE
       then (n <= stoId (storage v) < n')%nat /\
            stoEntries (storage v) =
            storageEntries (step_stateManager step) (step_address step)
       else storage v = storage prev)
  | None =>
      (n <= memId (memory v) < n')%nat /\ (n <= stoId (storage v) < n')%nat
  end.
Proof.
  unfold translateVMState.
  destruct lastStep as [prev|];
    [destruct (changesMemory (op prev)), (opcode (op prev) =? OPCODES.SSTORE)|];
    cbn; repeat split; lia.
Qed.

Lemma processRawTraceStep_sharing (vm : StateManager) (step : InterpreterStep)
    (trace : list StepState) (stk stk' : DbgStack) (n n' : nat) (cur : StepState) :
  processRawTraceStep vm step trace stk n = Ok (cur, stk', n') ->
  idsBelow n trace ->
  idsBelow n' (trace ++ [cur]) /\
  forall prev, lastOf trace = Some prev -> sharingRule trace prev cur step.
Proof.
  intros Hrun Hids.
  destruct (processRawTraceStep_inv _ _ _ _ _ Hrun) as (Hst & Hn & _).
  pose proof (translateVMState_ids step (lastOf trace) n) as H. cbn zeta in H.
  rewrite <- Hst, <- Hn in H. destruct H as [Hle H].
  assert (Hfresh : forall id, (n <= id)%nat -> freshIn id trace).
  { intros id Hid s Hs. destruct (Hids s Hs). lia. }
  destruct (lastOf trace) as [prev|] eqn:Hlast.
  - destruct (lastOf_Some _ Hlast) as (t & Ht).
    assert (Hprev : In prev trace) by (rewrite Ht; apply in_or_app; right; now left).
    destruct (Hids prev Hprev) as [Hpm Hps]. destruct H as [Hm Hs]. split.
    + intros s Hin. apply in_app_or in Hin as [Hin|[<-|[]]].
      * destruct (Hids s Hin). lia.
      * split.
        -- destruct (changesMemory (op prev)); [lia|]. rewrite Hm. lia.
        -- destruct (opcode (op prev) =? OPCODES.SSTORE); [lia|]. rewrite Hs. lia.
    + intros p [= <-]. unfold sharingRule. split.
      * destruct (changesMemory (op prev)); [|assumption].
        split; [apply Hfresh; lia|apply Hm].
      * destruct (opcode (op prev) =? OPCODES.SSTORE); [|assumption].
        split; [apply Hfresh; lia|apply Hs].
  - split; [|discriminate].
    intros s Hin. apply in_app_or in Hin as [Hin|[<-|[]]].
    + destruct (Hids s Hin). lia.
    + lia.
Qed.

Lemma lastOf_nth_error {A} (l : list A) (k : nat) :
  S k = List.length l -> lastOf l = nth_error l k.
Proof.
  intros Hk. unfold lastOf, len. rewrite <- Hk.
  replace (Z.of_nat (S k) - 1) with (Z.of_nat k) by lia. apply js_get_nth.
Qed.

Lemma sharingHolds_snoc (done : list InterpreterStep) (trace : list StepState)
    (step : InterpreterStep) (cur : StepState) :
  List.length done = List.length trace ->
  sharingHolds done trace ->
  (forall prev, lastOf trace = Some prev -> sharingRule trace prev cur step) ->
  sharingHolds (done ++ [step]) (trace ++ [cur]).
Proof.
  intros Hlen Hold Hnew k prev c raw Hp Hc Hraw.
  destruct (Nat.lt_trichotomy (S k) (List.length trace)) as [Hlt|[Heq|Hgt]].
  - rewrite nth_error_app1 in Hp, Hc by lia. rewrite nth_error_app1 in Hraw by lia.
    rewrite firstn_app. replace (S k - List.length trace)%nat with 0%nat by lia.
    cbn [firstn]. rewrite app_nil_r. now apply Hold.
  - rewrite nth_error_app1 in Hp by lia.
    rewrite nth_error_app2 in Hc by lia. rewrite nth_error_app2 in Hraw by lia.
    replace (S k - List.length trace)%nat with 0%nat in Hc by lia.
    replace (S k - List.length done)%nat with 0%nat in Hraw by lia.
    cbn in Hc, Hraw. injection Hc as <-. injection Hraw as <-.
    rewrite firstn_app, Heq, firstn_all, Nat.sub_diag. cbn [firstn]. rewrite app_nil_r.
    apply Hnew. now rewrite (lastOf_nth_error trace Heq).
  - assert (Hnone : nth_error (trace ++ [cur]) (S k) = None).
    { apply nth_error_None. rewrite length_app. cbn. lia. }
    congruence.
Qed.

Lemma runSteps_sharing_invariant (rest : list InterpreterStep) :
  forall (done : list InterpreterStep) (trace : list StepState) (stk : DbgStack)
         (n : nat) (traceF : list StepState),
  runSteps rest trace stk n = Ok traceF ->
  List.length done = List.length trace ->
  idsBelow n trace ->
  sharingHolds done trace ->
  sharingHolds (done ++ rest) traceF /\ List.length traceF = List.length (done ++ rest).
Proof.
  induction rest as [|step rest IH]; intros done trace stk n traceF Hrun Hlen Hids Hold.
  - cbn in Hrun. injection Hrun as <-. rewrite app_nil_r. now split.
  - cbn [runSteps] in Hrun.
    destruct (processRawTraceStep (step_stateManager step) step trace stk n)
      as [[[cur stk'] n']|] eqn:Hstep; cbn [bind] in Hrun; [|discriminate].
    destruct (@processRawTraceStep_sharing (step_stateManager step) step trace stk stk'
                n n' cur Hstep Hids) as [Hids' Hrule].
    replace (done ++ step :: rest) with ((done ++ [step]) ++ rest)
      by now rewrite <- app_assoc.
    apply IH with (trace := trace ++ [cur]) (stk := stk') (n := n').
    + assumption.
    + rewrite !length_app. cbn. lia.
    + assumption.
    + now apply sharingHolds_snoc.
Qed.

(** C7.  In a recorded trace, for every pair of consecutive steps: when
    the previous opcode is memory-changing the step's memory is a fresh
    copy of the raw VM buffer (an object no earlier step holds, with the raw
    buffer's bytes), otherwise it is the very object the previous step holds;
    so it is the previous step's object exactly when the previous opcode is
    not memory-changing.  Likewise the storage map is read anew from the
    state manager when the previous opcode is SSTORE and is the previous
    step's map otherwise. *)
Theorem debugTx_memory_storage_sharing
    (tx : Transaction) (vm : StateManager) (steps : list InterpreterStep)
    (trace : list StepState) (k : nat) (prev cur : StepState) (raw : InterpreterStep) :
  debugTx tx vm steps = Ok trace ->
  nth_error trace k = Some prev ->
  nth_error trace (S k) = Some cur ->
  nth_error steps (S k) = Some raw ->
  sharingRule (firstn (S k) trace) prev cur raw /\
  (memory cur = memory prev <-> changesMemory (op prev) = false) /\
  (storage cur = storage prev <-> (opcode (op prev) =? OPCODES.SSTORE) = false).
Proof.
  unfold debugTx. intros Hrun Hp Hc Hraw.
  destruct (initialFrame vm tx) as [f|]; cbn [bind] in Hrun; [|discriminate].
  destruct (@runSteps_sharing_invariant steps [] [] [f] 0%nat trace Hrun) as [Hall _].
  - reflexivity.
  - intros s [].
  - intros i p c r Hi. now destruct i.
  - cbn [app] in Hall. pose proof (Hall k prev cur raw Hp Hc Hraw) as Hrule.
    split; [assumption|].
    assert (Hin : In prev (firstn (S k) trace)).
    { apply nth_error_In with (n := k). rewrite nth_error_firstn.
      destruct (Nat.ltb_spec k (S k)); [assumption|lia]. }
    destruct Hrule as [Hm Hs]. split.
    + destruct (changesMemory (op prev)).
      * destruct Hm as [Hfresh _]. destruct (Hfresh prev Hin) as [Hne _].
        split; [intros Heq; now rewrite Heq in Hne|discriminate].
      * split; auto.
    + destruct (opcode (op prev) =? OPCODES.SSTORE).
      * destruct Hs as [Hfresh _]. destruct (Hfresh prev Hin) as [_ Hne].
        split; [intros Heq; now rewrite Heq in Hne|discriminate].
      * split; auto.
Qed.

(** *** Addresses as strings *)

Lemma byteZ_range (b : byte) : 0 <= byteZ b < 256.
Proof. unfold byteZ. pose proof (Byte.to_N_bounded b). lia. Qed.

Lemma byteZ_inj (b b' : byte) : byteZ b = byteZ b' -> b = b'.
Proof.
  unfold byteZ. intros H. apply N2Z.inj in H.
  pose proof (Byte.of_to_N b) as Hb. rewrite H, Byte.of_to_N in Hb. congruence.
Qed.

Lemma hexDigit_inj (x y : Z) :
  0 <= x < 16 -> 0 <= y < 16 -> hexDigit x = hexDigit y -> x = y.
Proof.
  intros Hx Hy. rewrite <- (Z2Nat.id x), <- (Z2Nat.id y) by lia.
  assert (Hx' : (Z.to_nat x < 16)%nat) by lia. assert (Hy' : (Z.to_nat y < 16)%nat) by lia.
  unfold hexDigit. rewrite !Nat2Z.id.
  generalize dependent (Z.to_nat y). generalize dependent (Z.to_nat x). clear.
  intros n Hn m Hm.
  do 16 (destruct n as [|n]; [do 16 (destruct m as [|m]; [cbn; congruence|]); lia|]). lia.
Qed.

Lemma toHex_inj (b1 : Buffer) : forall b2, toHex b1 = toHex b2 -> b1 = b2.
Proof.
  induction b1 as [|x b1 IH]; intros [|y b2] H; cbn [toHex] in H; try discriminate.
  - reflexivity.
  - injection H as Hhi Hlo Hrest.
    pose proof (byteZ_range x). pose proof (byteZ_range y).
    apply hexDigit_inj in Hhi;
      [|split; [apply Z.div_pos|apply Z.div_lt_upper_bound]; lia..].
    apply hexDigit_inj in Hlo; [|apply Z.mod_pos_bound; lia..].
    f_equal; [|now apply IH]. apply byteZ_inj.
    rewrite (Z.div_mod (byteZ x) 16), (Z.div_mod (byteZ y) 16) by lia. congruence.
Qed.

Lemma Address_toString_inj (a b : Address) :
  Address_toString a = Address_toString b -> a = b.
Proof.
  unfold Address_toString. cbn [append]. intros [= H].
  destruct a, b. f_equal. now apply toHex_inj.
Qed.

(** The zero address string is the zero address printed. *)
Lemma ZERO_ADDRESS_toString : Address_toString ZERO_ADDRESS = ZERO_ADDRESS_STRING.
Proof. reflexivity. Qed.

Lemma isCreation_iff (a : Address) :
  String.eqb (Address_toString a) ZERO_ADDRESS_STRING = true <-> a = ZERO_ADDRESS.
Proof.
  rewrite String.eqb_eq, <- ZERO_ADDRESS_toString. split.
  - apply Address_toString_inj.
  - now intros ->.
Qed.

(** C10.  The initial frame of [debugTx] is a Creation frame built from
    the transaction data both for a transaction without recipient and for
    one whose recipient is the zero address (20 zero bytes); a Call frame,
    with the code fetched from the state manager at the recipient address,
    is built only for a recipient that is present and not zero. *)
Theorem initialFrame_zero_recipient_is_creation (vm : StateManager) (tx : Transaction) :
  let sender := Address_toString (senderAddress tx) in
  (to tx = None \/ to tx = Some ZERO_ADDRESS ->
   initialFrame vm tx = Ok (External (ECreation (makeCreationFrame sender (data tx) 0)))) /\
  (forall a, to tx = Some a -> a <> ZERO_ADDRESS ->
   initialFrame vm tx =
   Ok (External (ECall (makeCallFrame sender a (data tx) (getContractCode vm a)
                                      (getCodeHash (getContractCode vm a)) 0)))) /\
  (forall f, initialFrame vm tx = Ok (External (ECall f)) ->
   exists a, to tx = Some a /\ a <> ZERO_ADDRESS).
Proof.
  intros sender. unfold initialFrame. fold sender. split; [|split].
  - intros [->| ->]; reflexivity.
  - intros a -> Hne.
    destruct (String.eqb (Address_toString a) ZERO_ADDRESS_STRING) eqn:E; [|reflexivity].
    apply isCreation_iff in E. contradiction.
  - intros f. destruct (to tx) as [a|]; [|discriminate].
    destruct (String.eqb (Address_toString a) ZERO_ADDRESS_STRING) eqn:E; [discriminate|].
    intros _. exists a. split; [reflexivity|]. intros Ha.
    apply isCreation_iff in Ha. congruence.
Qed.

(** ** More of the debugger *)

(** [lastExternalFrame] applied to a single frame ([arg] not an array). *)
Definition lastExternalFrameOf (arg : Frame) : ExternalFrame :=
  match arg with
  | InternalCall f => nearestExtFrame f
  | External f => f
  end.

(** [getContractInfo] applied to a stack and to a single frame. *)
Definition getContractInfo (arg : DbgStack) : result (option ContractInfo) :=
  frame <- lastExternalFrame arg ;;
  Ok (info frame).

Definition getContractInfoOf (arg : Frame) : option ContractInfo :=
  info (lastExternalFrameOf arg).

(** The [BaseFrame] and [BaseExternalFrame] fields, whatever the variant. *)
Definition startStep (f : Frame) : Z :=
  match f with
  | External (ECall c) => call_startStep c
  | External (ECreation c) => creation_startStep c
  | InternalCall i => internal_startStep i
  end.

Definition sender (f : ExternalFrame) : HexString :=
  match f with
  | ECall c => call_sender c
  | ECreation c => creation_sender c
  end.

Definition msgData (f : ExternalFrame) : Buffer :=
  match f with
  | ECall c => call_msgData c
  | ECreation c => creation_msgData c
  end.

(** The external frames of a stack, bottom first. *)
Fixpoint externalFrames (stk : DbgStack) : list ExternalFrame :=
  match stk with
  | [] => []
  | External e :: rest => e :: externalFrames rest
  | InternalCall _ :: rest => externalFrames rest
  end.

(** On a stack both helpers look at the top frame only. *)
Lemma lastExternalFrame_top (stk : DbgStack) (f : Frame) :
  lastExternalFrame (stk ++ [f]) = Ok (lastExternalFrameOf f) /\
  getContractInfo (stk ++ [f]) = Ok (getContractInfoOf f).
Proof.
  unfold getContractInfo, getContractInfoOf, lastExternalFrame.
  rewrite lastOf_snoc. cbn [defined bind]. now destruct f.
Qed.

(** *** One processed step, in full *)

Lemma processRawTraceStep_Ok (vm : StateManager) (step : InterpreterStep)
    (trace : list StepState) (stk stk' : DbgStack) (n n' : nat) (st : StepState) :
  processRawTraceStep vm step trace stk n = Ok (st, stk', n') ->
  exists e,
    vmState st = fst (translateVMState step (lastOf trace) n) /\
    getCodeAndMdHash vm (vmState st) trace = Ok (code st, codeMdHash st) /\
    adjustStackFrame stk (vmState st) trace (code st) (codeMdHash st) = Ok stk' /\
    stack st = stk' /\
    lastExternalFrame stk' = Ok e /\
    contractInfo st = info e /\
    (src st, astNode st) =
      match decodeSourceLoc (step_pc step) e with Ok r => r | Fail _ => (None, None) end /\
    extractEvent (name (step_opcode step)) (evmStack st) (memory st) = Ok (emittedEvent st).
Proof.
  unfold processRawTraceStep.
  destruct (translateVMState step (lastOf trace) n) as [vmS n1]. cbn [fst snd].
  destruct (getCodeAndMdHash vm vmS trace) as [[c h]|] eqn:Hcode; cbn [bind]; [|discriminate].
  destruct (adjustStackFrame stk vmS trace c h) as [s1|] eqn:Hadj; cbn [bind]; [|discriminate].
  destruct (lastExternalFrame s1) as [e|] eqn:He; cbn [bind]; [|discriminate].
  destruct (match decodeSourceLoc (step_pc step) e with Ok r => r | Fail _ => (None, None) end)
    as [sr an] eqn:Hsrc.
  destruct (extractEvent (name (step_opcode step)) (evmStack vmS) (memory vmS)) as [ev|] eqn:Hev;
    cbn [bind]; [|discriminate].
  intros [= <- <- <-]. exists e. cbn.
  repeat (split; [first [reflexivity|assumption|symmetry; assumption]|]).
  assumption.
Qed.

(** *** Induction over a run

    A stack invariant [Inv] (indexed by the number of steps recorded so
    far), a property [P] of every recorded step and a property [Q] of every
    pair of consecutive steps hold for a whole [debugTx] trace when one
    [processRawTraceStep] call establishes them. *)

Section RunInduction.

Variable Inv : Z -> DbgStack -> Prop.
Variable P : nat -> StepState -> InterpreterStep -> Prop.
Variable Q : StepState -> StepState -> InterpreterStep -> Prop.

Hypothesis one_step :
  forall step trace stk n st stk' n',
    processRawTraceStep (step_stateManager step) step trace stk n = Ok (st, stk', n') ->
    Inv (len trace) stk ->
    (forall prev, lastOf trace = Some prev -> stk = stack prev) ->
    Inv (len trace + 1) stk' /\
    P (List.length trace) st step /\
    (forall prev, lastOf trace = Some prev -> Q prev st step).

Definition stepsHold (steps : list InterpreterStep) (trace : list StepState) : Prop :=
  forall i st raw, nth_error trace i = Some st -> nth_error steps i = Some raw -> P i st raw.

Definition pairsHold (steps : list InterpreterStep) (trace : list StepState) : Prop :=
  forall k prev cur raw,
    nth_error trace k = Some prev -> nth_error trace (S k) = Some cur ->
    nth_error steps (S k) = Some raw -> Q prev cur raw.

Lemma runSteps_induction (rest : list InterpreterStep) :
  forall (done : list InterpreterStep) (trace : list StepState) (stk : DbgStack)
         (n : nat) (traceF : list StepState),
  runSteps rest trace stk n = Ok traceF ->
  List.length done = List.length trace ->
  Inv (len trace) stk ->
  (forall prev, lastOf trace = Some prev -> stk = stack prev) ->
  stepsHold done trace ->
  pairsHold done trace ->
  stepsHold (done ++ rest) traceF /\ pairsHold (done ++ rest) traceF /\
  List.length traceF = List.length (done ++ rest).
Proof.
  induction rest as [|step rest IH];
    intros done trace stk n traceF Hrun Hlen Hinv Hstk Hsteps Hpairs.
  - cbn in Hrun. injection Hrun as <-. rewrite app_nil_r. auto.
  - cbn [runSteps] in Hrun.
    destruct (processRawTraceStep (step_stateManager step) step trace stk n)
      as [[[cur stk'] n']|] eqn:Hstep; cbn [bind] in Hrun; [|discriminate].
    destruct (@one_step _ _ _ _ _ _ _ Hstep Hinv Hstk) as (Hinv' & HP & HQ).
    destruct (processRawTraceStep_Ok _ _ _ _ _ Hstep) as (e & _ & _ & _ & Hsnap & _).
    replace (done ++ step :: rest) with ((done ++ [step]) ++ rest)
      by now rewrite <- app_assoc.
    apply IH with (trace := trace ++ [cur]) (stk := stk') (n := n').
    + assumption.
    + rewrite !length_app. cbn. lia.
    + rewrite len_app. exact Hinv'.
    + intros prev. rewrite lastOf_snoc. now intros [= <-].
    + intros i st raw Hst Hraw.
      destruct (Nat.lt_trichotomy i (List.length trace)) as [Hlt|[Heq|Hgt]].
      * rewrite nth_error_app1 in Hst, Hraw by lia. now apply Hsteps.
      * rewrite nth_error_app2 in Hst, Hraw by lia.
        rewrite Heq in Hst at 1. rewrite Heq, <- Hlen in Hraw at 1.
        rewrite Nat.sub_diag in Hst, Hraw. cbn in Hst, Hraw.
        injection Hst as <-. injection Hraw as <-. now rewrite Heq.
      * assert (Hnone : nth_error (trace ++ [cur]) i = None).
        { apply nth_error_None. rewrite length_app. cbn. lia. }
        congruence.
    + intros k prev c raw Hp Hc Hraw.
      destruct (Nat.lt_trichotomy (S k) (List.length trace)) as [Hlt|[Heq|Hgt]].
      * rewrite nth_error_app1 in Hp, Hc, Hraw by lia. now apply Hpairs with (k := k).
      * rewrite nth_error_app1 in Hp by lia.
        rewrite nth_error_app2 in Hc, Hraw by lia.
        replace (S k - List.length trace)%nat with 0%nat in Hc by lia.
        replace (S k - List.length done)%nat with 0%nat in Hraw by lia.
        cbn in Hc, Hraw. injection Hc as <-. injection Hraw as <-.
        apply HQ. now rewrite (lastOf_nth_error trace Heq).
      * assert (Hnone : nth_error (trace ++ [cur]) (S k) = None).
        { apply nth_error_None. rewrite length_app. cbn. lia. }
        congruence.
Qed.

Lemma debugTx_induction (tx : Transaction) (vm : StateManager)
    (steps : list InterpreterStep) (trace : list StepState) :
  debugTx tx vm steps = Ok trace ->
  (forall f0, initialFrame vm tx = Ok f0 -> Inv 0 [f0]) ->
  stepsHold steps trace /\ pairsHold steps trace /\
  List.length trace = List.length steps.
Proof.
  unfold debugTx. intros Hrun Hinit.
  destruct (initialFrame vm tx) as [f0|] eqn:Hf0; cbn [bind] in Hrun; [|discriminate].
  apply (@runSteps_induction steps [] [] [f0] 0%nat trace Hrun).
  - reflexivity.
  - now apply Hinit.
  - discriminate.
  - intros i st raw H. now destruct i.
  - intros k p c r H. now destruct k.
Qed.

End RunInduction.

(** *** What one reconciliation does to the stack *)

(** The frame [adjustStackFrame] pushes on [stk] at trace index
    [len trace]. *)
Definition pushedFrame (stk : DbgStack) (trace : list StepState) (f : Frame) : Prop :=
  startStep f = len trace /\
  match f with
  | External (ECreation c) =>
      exists e data,
        lastExternalFrame stk = Ok e /\
        c = makeCreationFrame (Address_toString (address e)) data (len trace)
  | External (ECall c) =>
      exists e recv data code codeHash,
        lastExternalFrame stk = Ok e /\
        c = makeCallFrame (Address_toString (address e)) recv data code codeHash (len trace)
  | InternalCall i =>
      lastExternalFrame stk = Ok (nearestExtFrame i) /\
      (exists ci, info (nearestExtFrame i) = Some ci) /\
      (internal_arguments i <> None -> calleeOf (internal_callee i) <> None)
  end.

Lemma adjustStackFrame_shape (stk stk' : DbgStack) (state : StepVMState)
    (trace : list StepState) (code : Buffer) (codeHash : option HexString) :
  adjustStackFrame stk state trace code codeHash = Ok stk' ->
  stk' = stk \/
  (trace <> [] /\ exists f, stk' = stk ++ [f] /\ pushedFrame stk trace f) \/
  (exists popped, popped <> [] /\ stk = stk' ++ popped).
Proof.
  intros Hadj.
  pose proof (@adjustStackFrame_Ok_nonempty stk stk' state trace code codeHash Hadj) as Hstk.
  destruct (lastExternalFrame_nonempty Hstk) as (e & He).
  destruct (lastOf trace) as [lastStep|] eqn:Hlast.
  2:{ left. destruct (snoc_cases trace) as [->|(t & x & ->)];
        [|now rewrite lastOf_snoc in Hlast].
      rewrite adjustStackFrame_first in Hadj by assumption. now injection Hadj. }
  assert (Htrace : trace <> []) by (intros ->; discriminate).
  destruct (Z.lt_trichotomy (depth lastStep) (depth state)) as [Hup|[Heq|Hdown]].
  - right. left. split; [assumption|].
    unfold adjustStackFrame in Hadj. rewrite He, Hlast in Hadj. cbn [bind] in Hadj.
    destruct (Z.eqb_spec (depth lastStep) (depth state)); [lia|]. cbn [negb] in Hadj.
    destruct (Z.gtb_spec (depth state) (depth lastStep)); [|lia].
    destruct (increasesDepth (op lastStep)); cbn [assert bind] in Hadj; [|discriminate].
    destruct (createsContract (op lastStep)).
    + destruct (stackNumber _ _) as [off|]; cbn [bind] in Hadj; [|discriminate].
      destruct (stackNumber _ _) as [size|]; cbn [bind] in Hadj; [|discriminate].
      injection Hadj as <-. eexists. split; [reflexivity|].
      split; [reflexivity|]. now exists e, (slice (memBytes (memory lastStep)) off (off + size)).
    + destruct (stackNumber _ _) as [off|]; cbn [bind] in Hadj; [|discriminate].
      destruct (stackNumber _ _) as [size|]; cbn [bind] in Hadj; [|discriminate].
      destruct (js_get _ _) as [w|]; cbn [defined bind] in Hadj; [|discriminate].
      injection Hadj as <-. eexists. split; [reflexivity|].
      split; [reflexivity|]. exists e. do 4 eexists. split; [assumption|reflexivity].
  - destruct (decodeSourceLoc (pc state) e) as [[[curSrc|] ast0]|] eqn:Hsrc.
    + rewrite adjustStackFrame_same_depth
        with (lastStep := lastStep) (ext := e) (curSrc := curSrc) (ast := ast0) in Hadj
        by assumption.
      destruct (_ && _ && _) in Hadj.
      * destruct (internalArgs ast0 (evmStack state)) as [args|] eqn:Hargs;
          cbn [bind] in Hadj; [|discriminate].
        injection Hadj as <-. right. left. split; [assumption|].
        eexists. split; [reflexivity|]. split; [reflexivity|]. cbn. split; [assumption|].
        split.
        { destruct (decodeSourceLoc_Some _ _ Hsrc) as (ci & Hci & _). now exists ci. }
        unfold internalArgs in Hargs. destruct (calleeOf ast0); [discriminate|].
        injection Hargs as <-. congruence.
      * destruct (_ && _) in Hadj; [|left; now injection Hadj].
        destruct (snoc_cases stk) as [->|(rest & top & ->)]; [congruence|].
        rewrite lastOf_snoc, removelast_snoc in Hadj. cbn [defined bind] in Hadj.
        destruct (kind top); cbn in Hadj; try discriminate.
        injection Hadj as <-. right. right. exists [top]. split; [discriminate|reflexivity].
    + left. unfold adjustStackFrame in Hadj. rewrite He, Hlast in Hadj. cbn [bind] in Hadj.
      rewrite Heq, Z.eqb_refl in Hadj. cbn [negb] in Hadj. rewrite Hsrc in Hadj.
      cbn in Hadj. now injection Hadj.
    + unfold adjustStackFrame in Hadj. rewrite He, Hlast in Hadj. cbn [bind] in Hadj.
      rewrite Heq, Z.eqb_refl in Hadj. cbn [negb] in Hadj. rewrite Hsrc in Hadj.
      discriminate.
  - right. right.
    rewrite adjustStackFrame_decrease with (lastStep := lastStep) in Hadj by assumption.
    injection Hadj as Hadj.
    destruct (@popFrames_split stk (depth lastStep - depth state))
      as (popped & Hsplit & Hcase); [lia|].
    rewrite Hadj in Hsplit. exists popped. split; [|assumption].
    destruct Hcase as [(_ & f & r & -> & _)|(Hnil & _)]; [discriminate|].
    intros ->. rewrite app_nil_r in Hsplit. congruence.
Qed.

(** A stack invariant that survives a push of [pushedFrame] and every
    shortening to a non-empty prefix holds for every snapshot of a trace. *)
Lemma debugTx_snapshots (Inv : Z -> DbgStack -> Prop) (tx : Transaction) (vm : StateManager)
    (steps : list InterpreterStep) (trace : list StepState) :
  (forall k stk, Inv k stk -> Inv (k + 1) stk) ->
  (forall stk trace0 f,
      trace0 <> [] -> pushedFrame stk trace0 f -> Inv (len trace0) stk ->
      Inv (len trace0 + 1) (stk ++ [f])) ->
  (forall k stk popped, stk <> [] -> Inv k (stk ++ popped) -> Inv k stk) ->
  (forall f0, initialFrame vm tx = Ok f0 -> Inv 0 [f0]) ->
  debugTx tx vm steps = Ok trace ->
  forall i st, nth_error trace i = Some st -> Inv (Z.of_nat i + 1) (stack st).
Proof.
  intros Hmono Hpush Hprefix Hinit Hrun i st Hst.
  destruct (@debugTx_induction Inv (fun i st _ => Inv (Z.of_nat i + 1) (stack st))
              (fun _ _ _ => True) ) with (tx := tx) (vm := vm) (steps := steps) (trace := trace)
    as (Hall & _ & Hlen); try assumption.
  - intros step trace0 stk n st0 stk' n' Hstep Hinv _.
    destruct (processRawTraceStep_Ok _ _ _ _ _ Hstep) as (e & _ & _ & Hadj & Hsnap & He & _).
    assert (Hne : stk' <> []) by (intros ->; discriminate).
    assert (Hinv' : Inv (len trace0 + 1) stk').
    { destruct (@adjustStackFrame_shape _ _ _ _ _ _ Hadj)
        as [->|[(Htr & f & -> & Hf)|(popped & _ & ->)]].
      - now apply Hmono.
      - now apply Hpush.
      - apply Hmono. now apply Hprefix with (popped := popped). }
    split; [assumption|]. split; [|trivial]. rewrite Hsnap. exact Hinv'.
  - assert (Hi : (i < List.length steps)%nat).
    { rewrite <- Hlen. apply nth_error_Some. congruence. }
    destruct (nth_error steps i) as [raw|] eqn:Hraw; [|apply nth_error_None in Hraw; lia].
    now apply (Hall i st raw).
Qed.

(** *** Invariants of the frame stack *)

Lemma debugTx_initialFrame (tx : Transaction) (vm : StateManager)
    (steps : list InterpreterStep) (trace : list StepState) :
  debugTx tx vm steps = Ok trace -> exists f0, initialFrame vm tx = Ok f0.
Proof.
  unfold debugTx. destruct (initialFrame vm tx) as [f0|]; [eauto|discriminate].
Qed.

Lemma initialFrame_cases (vm : StateManager) (tx : Transaction) (f0 : Frame) :
  initialFrame vm tx = Ok f0 ->
  startStep f0 = 0 /\
  ((exists c, f0 = External (ECreation c) /\
              c = makeCreationFrame (Address_toString (senderAddress tx)) (data tx) 0) \/
   (exists c a, f0 = External (ECall c) /\ to tx = Some a /\
                c = makeCallFrame (Address_toString (senderAddress tx)) a (data tx)
                                  (getContractCode vm a)
                                  (getCodeHash (getContractCode vm a)) 0)).
Proof.
  unfold initialFrame. destruct (String.eqb _ ZERO_ADDRESS_STRING).
  - intros [= <-]. split; [reflexivity|]. left. eauto.
  - destruct (to tx) as [a|]; cbn; [|discriminate].
    intros [= <-]. split; [reflexivity|]. right. eauto.
Qed.

(** X3.  Every snapshot stands on the frame [debugTx] starts with. *)
Theorem debugTx_snapshots_rest_on_initial_frame (tx : Transaction) (vm : StateManager)
    (steps : list InterpreterStep) (trace : list StepState) :
  debugTx tx vm steps = Ok trace ->
  exists f0,
    initialFrame vm tx = Ok f0 /\
    isExternalKind f0 = true /\
    forall st, In st trace -> exists rest, stack st = f0 :: rest.
Proof.
  intros Hrun. destruct (debugTx_initialFrame _ _ _ Hrun) as (f0 & Hf0).
  exists f0. split; [assumption|]. split; [now apply initialFrame_external in Hf0|].
  intros st Hst. apply In_nth_error in Hst as (i & Hi).
  apply (@debugTx_snapshots (fun _ stk => exists rest, stk = f0 :: rest) tx vm steps trace)
    with (i := i); try assumption.
  - auto.
  - intros stk trace0 f _ _ (rest & ->). now exists (rest ++ [f]).
  - intros _ stk popped Hne (rest & Heq).
    destruct stk as [|g stk]; [congruence|]. injection Heq as -> _. eauto.
  - intros f Hf. rewrite Hf0 in Hf. injection Hf as <-. now exists [].
Qed.

(** Every internal frame of [stk] points to the external frame that
    [lastExternalFrame] finds below it, and that frame has debug info. *)
Definition linked (stk : DbgStack) : Prop :=
  forall below i above,
    stk = below ++ InternalCall i :: above ->
    lastExternalFrame below = Ok (nearestExtFrame i) /\
    exists ci, info (nearestExtFrame i) = Some ci.

Lemma linked_push (stk : DbgStack) (trace0 : list StepState) (f : Frame) :
  pushedFrame stk trace0 f -> linked stk -> linked (stk ++ [f]).
Proof.
  intros Hf Hinv b j a Heq.
  destruct (snoc_cases a) as [->|(a' & x & ->)].
  - apply app_inj_tail in Heq as [-> ->]. destruct Hf as (_ & Hf1 & Hf2 & _). now split.
  - change (b ++ InternalCall j :: a' ++ [x]) with (b ++ (InternalCall j :: a') ++ [x]) in Heq.
    rewrite app_assoc in Heq. apply app_inj_tail in Heq as [-> _].
    now apply Hinv with (above := a').
Qed.

Lemma linked_prefix (stk popped : DbgStack) : linked (stk ++ popped) -> linked stk.
Proof.
  intros Hinv b j a ->. apply Hinv with (above := a ++ popped). now rewrite <- app_assoc.
Qed.

Lemma linked_initial (vm : StateManager) (tx : Transaction) (f0 : Frame) :
  initialFrame vm tx = Ok f0 -> linked [f0].
Proof.
  intros Hf0 b j a Heq. apply initialFrame_external in Hf0.
  destruct b as [|g b].
  - injection Heq as -> _. discriminate.
  - injection Heq as _ Heq. now destruct b.
Qed.

(** X7.  In every snapshot the [nearestExtFrame] of an internal frame is what
    [lastExternalFrame] gives on the frames below it, and it has debug
    info. *)
Theorem debugTx_internal_frames_point_below (tx : Transaction) (vm : StateManager)
    (steps : list InterpreterStep) (trace : list StepState) :
  debugTx tx vm steps = Ok trace ->
  forall st below i above,
    In st trace ->
    stack st = below ++ InternalCall i :: above ->
    lastExternalFrame below = Ok (nearestExtFrame i) /\
    exists ci, info (nearestExtFrame i) = Some ci.
Proof.
  intros Hrun st below i above Hst Hsplit.
  apply In_nth_error in Hst as (k & Hk).
  cut (linked (stack st)); [intros H; exact (H below i above Hsplit)|].
  apply (@debugTx_snapshots (fun _ => linked) tx vm steps trace) with (i := k) (st := st);
    try assumption.
  - auto.
  - intros stk trace0 f _ Hf Hinv. now apply linked_push with (trace0 := trace0).
  - intros _ stk popped _. apply linked_prefix.
  - intros f0. apply linked_initial.
Qed.

(** X6.  Frames are stacked in the order they were entered: in the snapshot
    of step [k] the start steps grow strictly from the bottom (0, the
    initial frame) to the top and none is later than [k]. *)
Theorem debugTx_start_steps_increase (tx : Transaction) (vm : StateManager)
    (steps : list InterpreterStep) (trace : list StepState) :
  debugTx tx vm steps = Ok trace ->
  forall k st,
    nth_error trace k = Some st ->
    (forall f, In f (stack st) -> 0 <= startStep f <= Z.of_nat k) /\
    (forall a b fa fb,
        (a < b)%nat -> nth_error (stack st) a = Some fa -> nth_error (stack st) b = Some fb ->
        startStep fa < startStep fb) /\
    (exists f0 rest, stack st = f0 :: rest /\ startStep f0 = 0).
Proof.
  intros Hrun k st Hk.
  pose (Inv := fun (n : Z) (stk : DbgStack) =>
    (forall f, In f stk -> 0 <= startStep f < Z.max n 1) /\
    (forall a b fa fb,
        (a < b)%nat -> nth_error stk a = Some fa -> nth_error stk b = Some fb ->
        startStep fa < startStep fb) /\
    (exists f0 rest, stk = f0 :: rest /\ startStep f0 = 0)).
  assert (H : Inv (Z.of_nat k + 1) (stack st)).
  { apply (@debugTx_snapshots Inv tx vm steps trace) with (i := k); try assumption; unfold Inv.
    - intros n stk (Hb & Hs & Hf). split; [|now split].
      intros f Hin. specialize (Hb f Hin). lia.
    - intros stk trace0 f Htr [Hstart _] (Hb & Hs & (f0 & rest & -> & Hf0)).
      assert (Hlen : 1 <= len trace0).
      { destruct trace0; [congruence|]. unfold len. cbn [List.length]. lia. }
      split; [|split].
      + intros g Hin. apply in_app_or in Hin as [Hin|[<-|[]]].
        * specialize (Hb g Hin). lia.
        * lia.
      + intros a b fa fb Hab Ha Hfb.
        destruct (Nat.lt_ge_cases b (List.length (f0 :: rest))) as [Hlt|Hge].
        * rewrite nth_error_app1 in Ha, Hfb by lia. now apply (Hs a b).
        * rewrite nth_error_app2 in Hfb by lia.
          destruct (b - List.length (f0 :: rest))%nat as [|m] eqn:Em;
            [|now destruct m].
          cbn in Hfb. injection Hfb as <-.
          rewrite nth_error_app1 in Ha by lia.
          apply nth_error_In in Ha. specialize (Hb fa Ha). lia.
      + exists f0, (rest ++ [f]). now split.
    - intros n stk popped Hne (Hb & Hs & (f0 & rest & Heq & Hf0)). split; [|split].
      + intros f Hin. apply Hb. apply in_or_app. now left.
      + intros a b fa fb Hab Ha Hfb. apply (Hs a b); try assumption.
        * rewrite nth_error_app1; [assumption|]. apply nth_error_Some. congruence.
        * rewrite nth_error_app1; [assumption|]. apply nth_error_Some. congruence.
      + destruct stk as [|g stk]; [congruence|]. injection Heq as -> _. eauto.
    - intros f0 Hf0. destruct (initialFrame_cases _ _ Hf0) as [H0 _]. split; [|split].
      + intros f [<-|[]]. lia.
      + intros a b fa fb Hab Ha Hfb. destruct b as [|b]; [lia|]. now destruct b.
      + now exists f0, []. }
  destruct H as (Hb & Hs & Hf). split; [|now split].
  intros f Hin. specialize (Hb f Hin). lia.
Qed.

(** *** Every recorded step, every pair of consecutive steps *)

Lemma Forall2_of_nth_error {A B} (R : A -> B -> Prop) (l1 : list A) : forall l2 : list B,
  List.length l1 = List.length l2 ->
  (forall i a b, nth_error l1 i = Some a -> nth_error l2 i = Some b -> R a b) ->
  Forall2 R l1 l2.
Proof.
  induction l1 as [|a l1 IH]; intros [|b l2] Hlen H; try discriminate; constructor.
  - now apply (H 0%nat).
  - apply IH; [now injection Hlen|]. intros i x y Hx Hy. now apply (H (S i)).
Qed.

Lemma debugTx_each_step (P0 : StepState -> InterpreterStep -> Prop) (tx : Transaction)
    (vm : StateManager) (steps : list InterpreterStep) (trace : list StepState) :
  (forall step trace0 stk n st stk' n',
      processRawTraceStep (step_stateManager step) step trace0 stk n = Ok (st, stk', n') ->
      P0 st step) ->
  debugTx tx vm steps = Ok trace ->
  Forall2 P0 trace steps.
Proof.
  intros Hstep Hrun.
  destruct (@debugTx_induction (fun _ _ => True) (fun _ => P0) (fun _ _ _ => True))
    with (tx := tx) (vm := vm) (steps := steps) (trace := trace) as (Hall & _ & Hlen);
    try assumption; [|trivial|].
  - intros step trace0 stk n st stk' n' H _ _. split; [trivial|]. split; [|trivial].
    now apply Hstep in H.
  - apply Forall2_of_nth_error; [assumption|]. intros i a b. apply Hall.
Qed.

Lemma debugTx_each_pair (Q0 : StepState -> StepState -> InterpreterStep -> Prop)
    (tx : Transaction) (vm : StateManager) (steps : list InterpreterStep)
    (trace : list StepState) :
  (forall step trace0 stk n st stk' n' prev,
      processRawTraceStep (step_stateManager step) step trace0 stk n = Ok (st, stk', n') ->
      lastOf trace0 = Some prev -> stk = stack prev -> Q0 prev st step) ->
  debugTx tx vm steps = Ok trace ->
  forall k prev cur raw,
    nth_error trace k = Some prev -> nth_error trace (S k) = Some cur ->
    nth_error steps (S k) = Some raw -> Q0 prev cur raw.
Proof.
  intros Hstep Hrun.
  destruct (@debugTx_induction (fun _ _ => True) (fun _ _ _ => True) Q0)
    with (tx := tx) (vm := vm) (steps := steps) (trace := trace) as (_ & Hall & _);
    try assumption; [|trivial].
  intros step trace0 stk n st stk' n' H _ Hstk. split; [trivial|]. split; [trivial|].
  intros prev Hprev. now apply (Hstep _ _ _ _ _ _ _ _ H Hprev), Hstk.
Qed.

Lemma translateVMState_mirror (step : InterpreterStep) (lastStep : option StepState)
    (n : nat) :
  let v := fst (translateVMState step lastStep n) in
  pc v = step_pc step /\
  op v = getOpInfo (name (step_opcode step)) /\
  depth v = step_depth step + 1 /\
  gas v = step_gasLeft step /\
  gasCost v = fee (step_opcode step) /\
  dynamicGasCost v =
    match dynamicFee (step_opcode step) with
    | None => fee (step_opcode step)
    | Some d => d
    end /\
  stepAddress v = step_address step /\
  codeAddress v = step_codeAddress step /\
  evmStack v = map wordOfBN (step_stack step).
Proof.
  unfold translateVMState.
  destruct lastStep as [l|]; [destruct (changesMemory (op l)), (opcode (op l) =? OPCODES.SSTORE)|];
    cbn; repeat split.
Qed.

Lemma Forall2_with_right {A B} (P Q : A -> B -> Prop) (R : B -> Prop)
    (l1 : list A) (l2 : list B) :
  Forall2 P l1 l2 -> Forall R l2 ->
  (forall a b, P a b -> R b -> Q a b) ->
  Forall2 Q l1 l2.
Proof.
  intros HP HR Himp. induction HP as [|a b l1 l2 Hab _ IH]; [constructor|].
  inversion_clear HR as [|? ? Hb Hrest]. constructor; auto.
Qed.

(** The words a VM puts on its operand stack: unsigned, below [2 ^ 256]. *)
Definition evmWord (z : Z) : Prop := 0 <= z < 2 ^ 256.

Lemma bigEndianBufToBigint_evmWord (z : Z) :
  evmWord z -> bigEndianBufToBigint (wordOfBN z) = z.
Proof.
  intros Hz. rewrite (proj1 (bigEndianBufToBigint_wordOfBN z)). now apply Z.mod_small.
Qed.

(** X1.  When the operand stacks of the step events hold EVM words, the
    trace has one step per step event of the VM, in the VM's order, each
    with the event's program counter, opcode, gas figures and addresses,
    the depth plus one, and the operand stack as 32-byte big-endian words:
    as many as the event has, each reading back as the event's word. *)
Theorem debugTx_trace_mirrors_steps (tx : Transaction) (vm : StateManager)
    (steps : list InterpreterStep) (trace : list StepState) :
  debugTx tx vm steps = Ok trace ->
  Forall (fun raw => Forall evmWord (step_stack raw)) steps ->
  Forall2 (fun (st : StepState) (raw : InterpreterStep) =>
             pc st = step_pc raw /\
             op st = getOpInfo (name (step_opcode raw)) /\
             depth st = step_depth raw + 1 /\
             gas st = step_gasLeft raw /\
             gasCost st = fee (step_opcode raw) /\
             dynamicGasCost st =
               match dynamicFee (step_opcode raw) with
               | None => fee (step_opcode raw)
               | Some d => d
               end /\
             stepAddress st = step_address raw /\
             codeAddress st = step_codeAddress raw /\
             len (evmStack st) = len (step_stack raw) /\
             Forall (fun w => List.length w = 32%nat) (evmStack st) /\
             map bigEndianBufToBigint (evmStack st) = step_stack raw)
          trace steps.
Proof.
  intros Hrun Hwords.
  apply Forall2_with_right
    with (P := fun (st : StepState) (raw : InterpreterStep) =>
                 exists last n, vmState st = fst (translateVMState raw last n))
         (R := fun raw => Forall evmWord (step_stack raw)); [|assumption|].
  - apply (@debugTx_each_step _ tx vm steps trace); [|assumption].
    intros step trace0 stk n st stk' n' H.
    destruct (processRawTraceStep_Ok _ _ _ _ _ H) as (e & Hvm & _). eauto.
  - intros st raw (last & n & Hvm) Hraw.
    pose proof (translateVMState_mirror raw last n) as M. cbn zeta in M.
    rewrite <- Hvm in M.
    destruct M as (M1 & M2 & M3 & M4 & M5 & M6 & M7 & M8 & M9).
    repeat (split; [assumption|]). rewrite M9. split; [apply len_map|]. split.
    + apply Forall_forall. intros w Hw. apply in_map_iff in Hw as (z & <- & _).
      apply bigEndianBufToBigint_wordOfBN.
    + rewrite map_map. rewrite <- (map_id (step_stack raw)) at 2.
      apply map_ext_in. intros z Hz. apply bigEndianBufToBigint_evmWord.
      now apply (proj1 (Forall_forall _ _) Hraw).
Qed.

(** X10.  A step's contract info, source triple and AST node are those of the
    topmost external frame of its own snapshot ([getContractInfo] of the
    snapshot); a frame without debug info, or a program counter the source
    map has no entry for, leaves source triple and node undefined. *)
Theorem debugTx_step_annotations (tx : Transaction) (vm : StateManager)
    (steps : list InterpreterStep) (trace : list StepState) (st : StepState) :
  debugTx tx vm steps = Ok trace ->
  In st trace ->
  getContractInfo (stack st) = Ok (contractInfo st) /\
  exists e,
    lastExternalFrame (stack st) = Ok e /\
    match info e with
    | None => src st = None /\ astNode st = None
    | Some ci =>
        src st = getOffsetSrc (pc st)
                   (match e with ECreation _ => bytecode ci | ECall _ => deployedBytecode ci end) /\
        astNode st = match src st with
                     | Some s => Map_get (srcMap (artifact ci)) (srcKey s)
                     | None => None
                     end
    end.
Proof.
  intros Hrun Hst.
  assert (H : Forall2 (fun (st : StepState) (_ : InterpreterStep) =>
    getContractInfo (stack st) = Ok (contractInfo st) /\
    exists e,
      lastExternalFrame (stack st) = Ok e /\
      match info e with
      | None => src st = None /\ astNode st = None
      | Some ci =>
          src st = getOffsetSrc (pc st)
                     (match e with ECreation _ => bytecode ci | ECall _ => deployedBytecode ci end) /\
          astNode st = match src st with
                       | Some s => Map_get (srcMap (artifact ci)) (srcKey s)
                       | None => None
                       end
      end) trace steps).
  { apply debugTx_each_step with (tx := tx) (vm := vm); [|assumption].
    intros step trace0 stk n s stk' n' H.
    destruct (processRawTraceStep_Ok _ _ _ _ _ H)
      as (e & Hvm & _ & _ & Hsnap & He & Hinfo & Hsrc & _).
    pose proof (translateVMState_mirror step (lastOf trace0) n) as M. cbn zeta in M.
    rewrite <- Hvm in M. destruct M as (Mpc & _).
    rewrite Hsnap. unfold getContractInfo. rewrite He. cbn [bind]. rewrite Hinfo.
    split; [reflexivity|]. exists e. split; [reflexivity|].
    unfold decodeSourceLoc in Hsrc. rewrite Mpc.
    destruct (info e) as [ci|]; [|now injection Hsrc].
    destruct (getOffsetSrc (step_pc step) _) as [s0|];
      injection Hsrc as -> ->; split; reflexivity. }
  clear Hrun. induction H as [|a b l1 l2 Hab _ IH]; [contradiction|].
  destruct Hst as [<-|Hst]; [exact Hab|now apply IH].
Qed.

Lemma getCodeAndMdHash_first (vm : StateManager) (step : StepVMState) :
  getCodeAndMdHash vm step [] =
  Ok (getContractCode vm (codeAddress step),
      getCodeHash (getContractCode vm (codeAddress step))).
Proof. reflexivity. Qed.

Lemma getCodeAndMdHash_next (vm : StateManager) (step : StepVMState)
    (trace : list StepState) (prev : StepState) (c : Buffer) (h : option HexString) :
  lastOf trace = Some prev ->
  getCodeAndMdHash vm step trace = Ok (c, h) ->
  if createsContract (op prev) then
    exists wOff wSize,
      js_get (evmStack prev) (len (evmStack prev) - 1 - 1) = Some wOff /\
      js_get (evmStack prev) (len (evmStack prev) - 1 - 2) = Some wSize /\
      c = slice (memBytes (memory prev)) (bigEndianBufToNumber wOff)
                (bigEndianBufToNumber wOff + bigEndianBufToNumber wSize) /\
      h = getCreationCodeHash c
  else if Address_equals (codeAddress prev) (codeAddress step) then
    c = code prev /\ h = codeMdHash prev
  else
    c = getContractCode vm (codeAddress step) /\ h = getCodeHash c.
Proof.
  intros Hlast. unfold getCodeAndMdHash. rewrite Hlast.
  destruct (createsContract (op prev)).
  - unfold stackNumber.
    destruct (js_get (evmStack prev) (len (evmStack prev) - 1 - 1)) as [wOff|];
      cbn [defined bind]; [|discriminate].
    destruct (js_get (evmStack prev) (len (evmStack prev) - 1 - 2)) as [wSize|];
      cbn [defined bind]; [|discriminate].
    intros [= <- <-]. now exists wOff, wSize.
  - destruct (Address_equals (codeAddress prev) (codeAddress step)); cbn [negb];
      now intros [= <- <-].
Qed.

(** X11.  Which code a step carries.  The first step has the code the state
    manager holds at its code address.  After a CREATE or CREATE2 step the
    code is the slice of that step's memory at the offset and size read at
    [top-1] and [top-2] of its operand stack, whether or not the depth
    changed, with the creation code hash; otherwise a step at the same code
    address keeps the previous step's code and hash, and a step at another
    code address gets the code the state manager holds there. *)
Theorem debugTx_code_of_steps (tx : Transaction) (vm : StateManager)
    (steps : list InterpreterStep) (trace : list StepState) :
  debugTx tx vm steps = Ok trace ->
  (forall st raw,
      nth_error trace 0 = Some st -> nth_error steps 0 = Some raw ->
      code st = getContractCode (step_stateManager raw) (codeAddress st) /\
      codeMdHash st = getCodeHash (code st)) /\
  (forall k prev cur raw,
      nth_error trace k = Some prev -> nth_error trace (S k) = Some cur ->
      nth_error steps (S k) = Some raw ->
      if createsContract (op prev) then
        exists wOff wSize,
          js_get (evmStack prev) (len (evmStack prev) - 1 - 1) = Some wOff /\
          js_get (evmStack prev) (len (evmStack prev) - 1 - 2) = Some wSize /\
          code cur = slice (memBytes (memory prev)) (bigEndianBufToNumber wOff)
                           (bigEndianBufToNumber wOff + bigEndianBufToNumber wSize) /\
          codeMdHash cur = getCreationCodeHash (code cur)
      else if Address_equals (codeAddress prev) (codeAddress cur) then
        code cur = code prev /\ codeMdHash cur = codeMdHash prev
      else
        code cur = getContractCode (step_stateManager raw) (codeAddress cur) /\
        codeMdHash cur = getCodeHash (code cur)).
Proof.
  intros Hrun.
  destruct (@debugTx_induction (fun _ _ => True)
              (fun i st raw =>
                 i = 0%nat ->
                 code st = getContractCode (step_stateManager raw) (codeAddress st) /\
                 codeMdHash st = getCodeHash (code st))
              (fun prev cur raw =>
                 if createsContract (op prev) then
                   exists wOff wSize,
                     js_get (evmStack prev) (len (evmStack prev) - 1 - 1) = Some wOff /\
                     js_get (evmStack prev) (len (evmStack prev) - 1 - 2) = Some wSize /\
                     code cur = slice (memBytes (memory prev)) (bigEndianBufToNumber wOff)
                                      (bigEndianBufToNumber wOff + bigEndianBufToNumber wSize) /\
                     codeMdHash cur = getCreationCodeHash (code cur)
                 else if Address_equals (codeAddress prev) (codeAddress cur) then
                   code cur = code prev /\ codeMdHash cur = codeMdHash prev
                 else
                   code cur = getContractCode (step_stateManager raw) (codeAddress cur) /\
                   codeMdHash cur = getCodeHash (code cur)))
    with (tx := tx) (vm := vm) (steps := steps) (trace := trace) as (Hfirst & Hpairs & _);
    try assumption; [|trivial|].
  - intros step trace0 stk n st stk' n' H _ _.
    destruct (processRawTraceStep_Ok _ _ _ _ _ H) as (e & _ & Hcode & _).
    split; [trivial|]. split.
    + intros Hz. destruct trace0; [|discriminate].
      rewrite getCodeAndMdHash_first in Hcode. injection Hcode as Hc Hh.
      split; [now rewrite <- Hc|]. now rewrite <- Hh, <- Hc.
    + intros prev Hprev.
      pose proof (getCodeAndMdHash_next _ _ _ Hprev Hcode) as Hnext.
      destruct (createsContract (op prev)); [assumption|].
      destruct (Address_equals (codeAddress prev) (codeAddress st)); assumption.
  - split; [|assumption]. intros st raw Hst Hraw. now apply (Hfirst 0%nat st raw).
Qed.

Lemma extractEvent_cases (opName : string) (evmStack : Stack) (mem : Memory)
    (r : option EventDesc) :
  extractEvent opName evmStack mem = Ok r ->
  if String.prefix "LOG" opName
  then 2 <= len evmStack /\ exists ev, r = Some ev
  else r = None.
Proof.
  unfold extractEvent. destruct (String.prefix "LOG" opName); [|now intros [= <-]].
  unfold stackNumber.
  destruct (js_get evmStack (len evmStack - 1)) as [w1|] eqn:E1; cbn [defined bind];
    [|discriminate].
  destruct (js_get evmStack (len evmStack - 2)) as [w2|] eqn:E2; cbn [defined bind];
    [|discriminate].
  intros [= <-]. split; [|eauto].
  unfold js_get in E2. destruct (Z.ltb_spec (len evmStack - 2) 0); [discriminate|lia].
Qed.

(** X12.  A recorded step carries an event exactly when its opcode name
    begins with "LOG"; such a step is only recorded when its operand stack
    holds the two words offset and size are read from (on a shorter stack
    processing the step throws and no trace is returned). *)
Theorem debugTx_events_on_log_steps (tx : Transaction) (vm : StateManager)
    (steps : list InterpreterStep) (trace : list StepState) :
  debugTx tx vm steps = Ok trace ->
  Forall2 (fun (st : StepState) (raw : InterpreterStep) =>
             if String.prefix "LOG" (name (step_opcode raw))
             then 2 <= len (step_stack raw) /\ exists ev, emittedEvent st = Some ev
             else emittedEvent st = None)
          trace steps.
Proof.
  apply debugTx_each_step.
  intros step trace0 stk n st stk' n' H.
  destruct (processRawTraceStep_Ok _ _ _ _ _ H) as (e & Hvm & _ & _ & _ & _ & _ & _ & Hev).
  pose proof (translateVMState_mirror step (lastOf trace0) n) as M. cbn zeta in M.
  rewrite <- Hvm in M. destruct M as (_ & _ & _ & _ & _ & _ & _ & _ & Hstack).
  apply extractEvent_cases in Hev. rewrite Hstack, len_map in Hev. exact Hev.
Qed.

Lemma isJump_eq (a b : JumpKind) : isJump a b = true <-> a = b.
Proof. destruct a, b; cbn; split; congruence. Qed.

Lemma jumpIs_Some (s : option DecodedBytecodeSourceMapEntry) (k : JumpKind) :
  jumpIs s k = true <-> exists e, s = Some e /\ jump e = k.
Proof.
  destruct s as [e|]; cbn.
  - rewrite isJump_eq. split; [eauto|]. now intros (e' & [= <-] & H).
  - split; [discriminate|]. now intros (e & H & _).
Qed.

(** How the stack after a reconciliation relates to the stack before. *)
Definition stackTransition (prev : StepState) (state : StepVMState) (stk stk' : DbgStack)
  : Prop :=
  (depth prev < depth state ->
   increasesDepth (op prev) = true /\
   exists e, stk' = stk ++ [External e] /\
             (createsContract (op prev) = true <-> exists c, e = ECreation c)) /\
  (depth state < depth prev ->
   exists f rest,
     stk = stk' ++ f :: rest /\ isExternalKind f = true /\
     countExternal (f :: rest) = depth prev - depth state) /\
  (depth state = depth prev ->
   stk' = stk \/
   (exists i, stk' = stk ++ [InternalCall i] /\
              mnemonic (op state) = "JUMPDEST" /\ mnemonic (op prev) = "JUMP" /\
              exists s, src prev = Some s /\ jump s = JumpInto) \/
   (exists i, stk = stk' ++ [InternalCall i] /\ mnemonic (op state) = "JUMP")).

Lemma adjustStackFrame_transition (stk stk' : DbgStack) (state : StepVMState)
    (trace : list StepState) (prev : StepState) (code : Buffer)
    (codeHash : option HexString) :
  adjustStackFrame stk state trace code codeHash = Ok stk' ->
  stk' <> [] ->
  lastOf trace = Some prev ->
  stackTransition prev state stk stk'.
Proof.
  intros Hadj Hne Hlast.
  pose proof (@adjustStackFrame_Ok_nonempty stk stk' state trace code codeHash Hadj) as Hstk.
  destruct (lastExternalFrame_nonempty Hstk) as (e & He).
  split; [|split].
  - intros Hup. unfold adjustStackFrame in Hadj. rewrite He, Hlast in Hadj.
    cbn [bind] in Hadj.
    destruct (Z.eqb_spec (depth prev) (depth state)); [lia|]. cbn [negb] in Hadj.
    destruct (Z.gtb_spec (depth state) (depth prev)); [|lia].
    destruct (increasesDepth (op prev)); cbn [assert bind] in Hadj; [|discriminate].
    split; [reflexivity|].
    destruct (createsContract (op prev)).
    + destruct (stackNumber _ _) as [off|]; cbn [bind] in Hadj; [|discriminate].
      destruct (stackNumber _ _) as [size|]; cbn [bind] in Hadj; [|discriminate].
      injection Hadj as <-. eexists. split; [reflexivity|]. split; [eauto|reflexivity].
    + destruct (stackNumber _ _) as [off|]; cbn [bind] in Hadj; [|discriminate].
      destruct (stackNumber _ _) as [size|]; cbn [bind] in Hadj; [|discriminate].
      destruct (js_get _ _) as [w|]; cbn [defined bind] in Hadj; [|discriminate].
      injection Hadj as <-. eexists. split; [reflexivity|].
      split; [discriminate|]. now intros (c & Hc).
  - intros Hdown.
    rewrite adjustStackFrame_decrease with (lastStep := prev) in Hadj by assumption.
    injection Hadj as Hadj.
    destruct (@popFrames_split stk (depth prev - depth state))
      as (popped & Hsplit & [(Hc & f & rest & -> & Hf)|(Hnil & _)]); [lia| |congruence].
    rewrite Hadj in Hsplit. now exists f, rest.
  - intros Heq. symmetry in Heq.
    destruct (decodeSourceLoc (pc state) e) as [[[curSrc|] ast0]|] eqn:Hsrc.
    + rewrite adjustStackFrame_same_depth
        with (lastStep := prev) (ext := e) (curSrc := curSrc) (ast := ast0) in Hadj
        by assumption.
      destruct (_ && _ && _) eqn:Hinto in Hadj.
      * destruct (internalArgs ast0 (evmStack state)) as [args|]; cbn [bind] in Hadj;
          [|discriminate].
        injection Hadj as <-. right. left. eexists. split; [reflexivity|].
        apply andb_prop in Hinto as [Hinto Hj]. apply andb_prop in Hinto as [H1 H2].
        apply String.eqb_eq in H1, H2. apply jumpIs_Some in Hj. auto.
      * destruct (_ && _) eqn:Hout in Hadj; [|left; now injection Hadj].
        destruct (snoc_cases stk) as [->|(rest & top & ->)]; [congruence|].
        rewrite lastOf_snoc, removelast_snoc in Hadj. cbn [defined bind] in Hadj.
        destruct top as [x|i]; [destruct x; discriminate|].
        cbn in Hadj. injection Hadj as <-. right. right. exists i. split; [reflexivity|].
        apply andb_prop in Hout as [H1 _]. now apply String.eqb_eq in H1.
    + left. unfold adjustStackFrame in Hadj. rewrite He, Hlast in Hadj. cbn [bind] in Hadj.
      rewrite Heq, Z.eqb_refl in Hadj. cbn [negb] in Hadj. rewrite Hsrc in Hadj.
      cbn in Hadj. now injection Hadj.
    + unfold adjustStackFrame in Hadj. rewrite He, Hlast in Hadj. cbn [bind] in Hadj.
      rewrite Heq, Z.eqb_refl in Hadj. cbn [negb] in Hadj. rewrite Hsrc in Hadj.
      discriminate.
Qed.

(** X4.  From one recorded step to the next the snapshot changes in one of
    these ways only.  Depth up: one external frame is pushed (a Creation
    frame exactly after CREATE or CREATE2), and the previous opcode is
    depth-increasing.  Depth down: the frames from some external frame
    upwards are gone, and they hold exactly [prev.depth - depth] external
    frames.  Same depth: the snapshot is unchanged, or one InternalCall
    frame is pushed (at a JUMPDEST after a JUMP marked "into"), or the
    InternalCall frame on top is gone (at a JUMP). *)
Theorem debugTx_consecutive_snapshots (tx : Transaction) (vm : StateManager)
    (steps : list InterpreterStep) (trace : list StepState)
    (k : nat) (prev cur : StepState) :
  debugTx tx vm steps = Ok trace ->
  nth_error trace k = Some prev ->
  nth_error trace (S k) = Some cur ->
  stackTransition prev cur (stack prev) (stack cur).
Proof.
  intros Hrun Hp Hc.
  destruct (@debugTx_induction (fun _ _ => True) (fun _ _ _ => True)
              (fun (p c : StepState) (_ : InterpreterStep) =>
                 stackTransition p c (stack p) (stack c)))
    with (tx := tx) (vm := vm) (steps := steps) (trace := trace) as (_ & Hpairs & Hlen);
    try assumption; [|trivial|].
  - intros step trace0 stk n st stk' n' H _ Hstk. split; [trivial|]. split; [trivial|].
    intros p Hlast.
    destruct (processRawTraceStep_Ok _ _ _ _ _ H) as (e & _ & _ & Hadj & Hsnap & He & _).
    rewrite Hsnap, <- (Hstk p Hlast).
    apply adjustStackFrame_transition with (trace := trace0) (code := code st)
                                            (codeHash := codeMdHash st);
      [assumption| |assumption].
    intros ->. discriminate.
  - assert (Hi : (S k < List.length steps)%nat).
    { rewrite <- Hlen. apply nth_error_Some. congruence. }
    destruct (nth_error steps (S k)) as [raw|] eqn:Hraw; [|apply nth_error_None in Hraw; lia].
    now apply (Hpairs k prev cur raw).
Qed.

(** The trace [processRawTraceStep] sees when it records step [S k]. *)
Lemma lastOf_firstn {A} (l : list A) (k : nat) (x : A) :
  nth_error l k = Some x -> lastOf (firstn (S k) l) = Some x.
Proof.
  intros Hx.
  assert (Hk : (k < List.length l)%nat) by (apply nth_error_Some; congruence).
  rewrite (@lastOf_nth_error _ (firstn (S k) l) k) by (rewrite length_firstn; lia).
  rewrite <- (firstn_skipn (S k) l) in Hx.
  rewrite nth_error_app1 in Hx by (rewrite length_firstn; lia). exact Hx.
Qed.

(** C2.  When the depth decreases between two consecutive recorded steps,
    the reconciler, called on the earlier step's frame stack, returns the
    stack the pop loop leaves for the quota [prev.depth - depth], and that
    is the later step's snapshot.  The frames popped are the frames from
    the top down to a Call/Creation frame [f]; the number of Call/Creation
    frames among them equals [prev.depth - depth] exactly; the InternalCall
    frames among them ([countExternal] does not count them) were popped as
    they came.  As the lowest popped frame is external, the loop stopped as
    soon as the quota was met. *)
Theorem debugTx_depth_decrease_pops_quota (tx : Transaction) (vm : StateManager)
    (steps : list InterpreterStep) (trace : list StepState)
    (k : nat) (prev cur : StepState) :
  debugTx tx vm steps = Ok trace ->
  nth_error trace k = Some prev ->
  nth_error trace (S k) = Some cur ->
  depth cur < depth prev ->
  adjustStackFrame (stack prev) cur (firstn (S k) trace) (code cur) (codeMdHash cur)
  = Ok (stack cur) /\
  stack cur = popFrames (depth prev - depth cur) (stack prev) /\
  exists f rest,
    stack prev = stack cur ++ f :: rest /\
    isExternalKind f = true /\
    countExternal (f :: rest) = depth prev - depth cur.
Proof.
  intros Hrun Hp Hc Hdown.
  destruct (@debugTx_induction (fun _ _ => True) (fun _ _ _ => True)
              (fun (p c : StepState) (_ : InterpreterStep) =>
                 depth c < depth p ->
                 stack p <> [] /\ stack c <> [] /\
                 stack c = popFrames (depth p - depth c) (stack p)))
    with (tx := tx) (vm := vm) (steps := steps) (trace := trace) as (_ & Hpairs & Hlen);
    try assumption; [|trivial|].
  - intros step trace0 stk n st stk' n' H _ Hstk. split; [trivial|]. split; [trivial|].
    intros p Hlast Hd.
    destruct (processRawTraceStep_Ok _ _ _ _ _ H) as (e & _ & _ & Hadj & Hsnap & He & _).
    pose proof (@adjustStackFrame_Ok_nonempty _ _ _ _ _ _ Hadj) as Hne.
    rewrite adjustStackFrame_decrease with (lastStep := p) in Hadj by assumption.
    injection Hadj as Hadj. rewrite Hsnap, <- (Hstk p Hlast).
    split; [assumption|]. split; [|now symmetry].
    intros ->. discriminate.
  - assert (Hi : (S k < List.length steps)%nat).
    { rewrite <- Hlen. apply nth_error_Some. congruence. }
    destruct (nth_error steps (S k)) as [raw|] eqn:Hraw; [|apply nth_error_None in Hraw; lia].
    destruct (Hpairs k prev cur raw Hp Hc Hraw Hdown) as (Hne & Hne' & Hpop).
    split; [|split; [assumption|]].
    + rewrite adjustStackFrame_decrease with (lastStep := prev);
        [now rewrite <- Hpop|now apply lastOf_firstn|assumption|assumption].
    + destruct (@popFrames_split (stack prev) (depth prev - depth cur))
        as (popped & Hsplit & [(Hcount & f & rest & -> & Hf)|(Hnil & _)]); [lia| |congruence].
      rewrite <- Hpop in Hsplit. now exists f, rest.
Qed.

(** *** Who called whom *)

Lemma externalFrames_app (s1 s2 : DbgStack) :
  externalFrames (s1 ++ s2) = externalFrames s1 ++ externalFrames s2.
Proof.
  induction s1 as [|[e|i] s1 IH]; cbn; [reflexivity| |assumption]. now rewrite IH.
Qed.

(** On a linked stack [lastExternalFrame] is the last external frame. *)
Lemma lastExternalFrame_linked (stk : DbgStack) : forall e,
  linked stk -> lastExternalFrame stk = Ok e -> lastOf (externalFrames stk) = Some e.
Proof.
  induction stk as [|f stk IH] using rev_ind; intros e Hl He; [discriminate|].
  unfold lastExternalFrame in He. rewrite lastOf_snoc in He. cbn [defined bind] in He.
  rewrite externalFrames_app. destruct f as [x|i]; cbn [externalFrames].
  - injection He as <-. apply lastOf_snoc.
  - injection He as <-. rewrite app_nil_r. apply IH.
    + now apply linked_prefix with (popped := [InternalCall i]).
    + now apply (Hl stk i []).
Qed.

(** Each external frame was sent by the one below it. *)
Definition senderChain (frames : list ExternalFrame) : Prop :=
  forall j a b,
    nth_error frames j = Some a -> nth_error frames (S j) = Some b ->
    sender b = Address_toString (address a).

Lemma senderChain_snoc (frames : list ExternalFrame) (e x : ExternalFrame) :
  senderChain frames -> lastOf frames = Some e ->
  sender x = Address_toString (address e) ->
  senderChain (frames ++ [x]).
Proof.
  intros Hc Hlast Hx j a b Ha Hb.
  destruct (Nat.lt_trichotomy (S j) (List.length frames)) as [Hlt|[Heq|Hgt]].
  - rewrite nth_error_app1 in Ha, Hb by lia. now apply (Hc j).
  - rewrite nth_error_app1 in Ha by lia. rewrite nth_error_app2 in Hb by lia.
    replace (S j - List.length frames)%nat with 0%nat in Hb by lia. cbn in Hb.
    injection Hb as <-. rewrite (lastOf_nth_error frames Heq) in Hlast. congruence.
  - assert (Hnone : nth_error (frames ++ [x]) (S j) = None).
    { apply nth_error_None. rewrite length_app. cbn. lia. }
    congruence.
Qed.

Lemma senderChain_prefix (f1 f2 : list ExternalFrame) :
  senderChain (f1 ++ f2) -> senderChain f1.
Proof.
  intros Hc j a b Ha Hb. apply (Hc j).
  - rewrite nth_error_app1; [assumption|]. apply nth_error_Some. congruence.
  - rewrite nth_error_app1; [assumption|]. apply nth_error_Some. congruence.
Qed.

(** X8.  In every snapshot the bottom external frame was sent by the
    transaction's sender, and every other external frame by the address of
    the external frame below it (the zero address when that is a Creation
    frame). *)
Theorem debugTx_sender_chain (tx : Transaction) (vm : StateManager)
    (steps : list InterpreterStep) (trace : list StepState) (st : StepState) :
  debugTx tx vm steps = Ok trace ->
  In st trace ->
  (exists e0 rest, externalFrames (stack st) = e0 :: rest /\
                   sender e0 = Address_toString (senderAddress tx)) /\
  (forall j a b,
      nth_error (externalFrames (stack st)) j = Some a ->
      nth_error (externalFrames (stack st)) (S j) = Some b ->
      sender b = Address_toString (address a)) /\
  (forall c, In (ECreation c) (externalFrames (stack st)) ->
             address (ECreation c) = ZERO_ADDRESS).
Proof.
  intros Hrun Hst. apply In_nth_error in Hst as (k & Hk).
  pose (Inv := fun (_ : Z) (stk : DbgStack) =>
    linked stk /\
    (exists e0 rest, externalFrames stk = e0 :: rest /\
                     sender e0 = Address_toString (senderAddress tx)) /\
    senderChain (externalFrames stk) /\
    (forall c, In (ECreation c) (externalFrames stk) -> address (ECreation c) = ZERO_ADDRESS)).
  cut (Inv (Z.of_nat k + 1) (stack st)); [intros (_ & H1 & H2 & H3); auto|].
  apply (@debugTx_snapshots Inv tx vm steps trace) with (i := k) (st := st);
    try assumption; unfold Inv.
  - auto.
  - intros stk trace0 f _ Hf (Hl & (e0 & rest & Hbase & Hs0) & Hc & Hz).
    split; [now apply linked_push with (trace0 := trace0)|].
    rewrite externalFrames_app. destruct f as [[c|c]|i]; cbn [externalFrames].
    + destruct Hf as (_ & e & recv & d & cd & h & He & ->).
      split; [rewrite Hbase; now exists e0, (rest ++ [ECall
        (makeCallFrame (Address_toString (address e)) recv d cd h (len trace0))])|].
      split.
      * apply senderChain_snoc with (e := e); [assumption| |reflexivity].
        now apply lastExternalFrame_linked.
      * intros c Hin. apply in_app_or in Hin as [Hin|[Hin|[]]]; [auto|discriminate].
    + destruct Hf as (_ & e & d & He & ->).
      split; [rewrite Hbase; now exists e0, (rest ++ [ECreation
        (makeCreationFrame (Address_toString (address e)) d (len trace0))])|].
      split.
      * apply senderChain_snoc with (e := e); [assumption| |reflexivity].
        now apply lastExternalFrame_linked.
      * intros c Hin. apply in_app_or in Hin as [Hin|[Hin|[]]]; [auto|].
        injection Hin as <-. reflexivity.
    + rewrite app_nil_r. split; [now exists e0, rest|]. now split.
  - intros _ stk popped Hne (Hl & (e0 & rest & Hbase & Hs0) & Hc & Hz).
    rewrite externalFrames_app in Hbase, Hc, Hz.
    split; [now apply linked_prefix with (popped := popped)|].
    split; [|split].
    + destruct (externalFrames stk) as [|x xs] eqn:Ex.
      * exfalso. destruct (snoc_cases stk) as [->|(s & f & ->)]; [congruence|].
        pose proof (Hl s) as Hls. destruct f as [x|i].
        -- rewrite externalFrames_app in Ex. cbn in Ex. now destruct (externalFrames s).
        -- destruct (Hls i popped) as [Hbelow _]; [now rewrite <- app_assoc|].
           apply lastExternalFrame_linked in Hbelow.
           ++ rewrite externalFrames_app in Ex. cbn in Ex. rewrite app_nil_r in Ex.
              now rewrite Ex in Hbelow.
           ++ apply linked_prefix with (popped := [InternalCall i] ++ popped).
              now rewrite app_assoc.
      * cbn in Hbase. injection Hbase as -> _. eauto.
    + now apply senderChain_prefix with (f2 := externalFrames popped).
    + intros c Hin. apply Hz. apply in_or_app. now left.
  - intros f0 Hf0. split; [now apply linked_initial with (vm := vm) (tx := tx)|].
    destruct (initialFrame_cases _ _ Hf0) as [_ [(c & -> & ->)|(c & a & -> & _ & ->)]];
      cbn [externalFrames].
    + split; [eauto|]. split.
      * intros j a b Ha Hb. now destruct j.
      * intros c [Hin|[]]. injection Hin as <-. reflexivity.
    + split; [eauto|]. split.
      * intros j x b Ha Hb. now destruct j.
      * intros c [Hin|[]]. discriminate.
Qed.

(** *** What frames look like *)

(** What the frame builders guarantee of a frame, whatever its inputs. *)
Definition builtFrame (f : Frame) : Prop :=
  match f with
  | External (ECreation c) =>
      creation_address c = ZERO_ADDRESS /\
      creation_arguments c = None /\
      creationCode c = creation_msgData c /\
      creation_info c = getContractFromCreationBytecode artifactManager (creationCode c) /\
      (forall n, creation_callee c = Some n ->
                 exists ci contract fn,
                   creation_info c = Some ci /\ ast ci = Some contract /\
                   vConstructor contract = Some fn /\ n = NFunctionDefinition fn)
  | External (ECall c) =>
      receiver c = Address_toString (call_address c) /\
      (call_arguments c <> None -> call_callee c <> None) /\
      (forall n, call_callee c = Some n ->
                 exists ci contract,
                   call_info c = Some ci /\ ast ci = Some contract /\
                   ((exists fn, n = NFunctionDefinition fn /\ In fn (vFunctions contract)) \/
                    (exists v, n = NVariableDeclaration v /\
                               In v (vStateVariables contract) /\ visibility v = Public)))
  | InternalCall i =>
      internal_arguments i <> None -> calleeOf (internal_callee i) <> None
  end.

(** What [resolveCallee] found when it found something: the one function
    with the selector, or, when the functions with the selector are not
    exactly one, the one public state variable whose getter has it. *)
Lemma resolveCallee_Some (contract : ContractDefinition) (abi : ABIEncoderVersion)
    (selector : string) (n : ASTNode) :
  resolveCallee contract abi selector = Some n ->
  (exists fn,
      n = NFunctionDefinition fn /\
      filter (fun fn => String.eqb (getFunctionSelector fn) selector) (vFunctions contract) =
      [fn] /\
      In fn (vFunctions contract) /\ getFunctionSelector fn = selector) \/
  (exists v,
      n = NVariableDeclaration v /\
      List.length
        (filter (fun fn => String.eqb (getFunctionSelector fn) selector) (vFunctions contract))
      <> 1%nat /\
      In v (vStateVariables contract) /\ visibility v = Public /\
      getterCanonicalSignatureHash v abi = Some selector).
Proof.
  unfold resolveCallee.
  set (funs := filter _ (vFunctions contract)).
  set (getters := filter _ (vStateVariables contract)).
  assert (Hg : forall v, getters = [v] ->
                         In v (vStateVariables contract) /\ visibility v = Public /\
                         getterCanonicalSignatureHash v abi = Some selector).
  { intros v Hv. assert (Hin : In v getters) by (rewrite Hv; now left).
    apply filter_In in Hin as [Hin Hm]. split; [assumption|].
    destruct (visibility v); try discriminate.
    destruct (getterCanonicalSignatureHash v abi) as [h|]; [|discriminate].
    apply String.eqb_eq in Hm. now subst. }
  destruct funs as [|fn [|fn' l]] eqn:Hf.
  - destruct getters as [|v [|v' l']] eqn:Hgs; try discriminate.
    intros [= <-]. right. exists v. split; [reflexivity|]. split; [discriminate|].
    now apply Hg.
  - intros [= <-]. left. exists fn. split; [reflexivity|]. split; [reflexivity|].
    assert (Hin : In fn funs) by (rewrite Hf; now left).
    apply filter_In in Hin as [Hin Hm]. split; [assumption|]. now apply String.eqb_eq.
  - destruct getters as [|v [|v' l']] eqn:Hgs; try discriminate.
    intros [= <-]. right. exists v. split; [reflexivity|]. split; [discriminate|].
    now apply Hg.
Qed.

Lemma makeCreationFrame_built (s : HexString) (d : Buffer) (k : Z) :
  builtFrame (External (ECreation (makeCreationFrame s d k))).
Proof.
  cbn. repeat (split; [reflexivity|]).
  intros n. destruct (getContractFromCreationBytecode artifactManager d) as [ci|];
    [|discriminate].
  destruct (ast ci) as [contract|] eqn:Hast; [|discriminate].
  destruct (vConstructor contract) as [fn|] eqn:Hc; [|discriminate].
  intros [= <-]. now exists ci, contract, fn.
Qed.

Lemma makeCallFrame_built (s : HexString) (r : Address) (d c : Buffer)
    (h : option HexString) (k : Z) :
  builtFrame (External (ECall (makeCallFrame s r d c h k))).
Proof.
  cbn. split; [reflexivity|].
  destruct (match h with Some h0 => getContractFromMDHash artifactManager h0 | None => None end)
    as [ci|] eqn:Hci; [|cbn; split; [congruence|discriminate]].
  destruct (ast ci) as [contract|] eqn:Hast; [|cbn; split; [congruence|discriminate]].
  cbn. split.
  - destruct (resolveCallee contract _ _); congruence.
  - intros n Hn. exists ci, contract. split; [reflexivity|]. split; [assumption|].
    apply resolveCallee_Some in Hn as [(fn & -> & _ & Hin & _)|(v & -> & _ & Hin & Hv & _)];
      [left|right]; eauto.
Qed.

(** X9.  Every frame of every snapshot is as the frame builders make it.  A
    Creation frame has the zero address, no decoded arguments, its msg-data
    as creation code, and a callee only as the constructor of the contract
    found for that code.  A Call frame's receiver is its address printed;
    it has arguments only with a callee, and a callee (a function or a
    state variable of the contract) only with debug info that has an AST.  An InternalCall
    frame has arguments only when its callee is a function definition or a
    state variable. *)
Theorem debugTx_frames_as_built (tx : Transaction) (vm : StateManager)
    (steps : list InterpreterStep) (trace : list StepState) (st : StepState) (f : Frame) :
  debugTx tx vm steps = Ok trace ->
  In st trace -> In f (stack st) -> builtFrame f.
Proof.
  intros Hrun Hst Hf. apply In_nth_error in Hst as (k & Hk).
  cut (Forall builtFrame (stack st)).
  { intros H. now apply (proj1 (Forall_forall _ _) H). }
  apply (@debugTx_snapshots (fun _ => Forall builtFrame) tx vm steps trace)
    with (i := k) (st := st); try assumption.
  - auto.
  - intros stk trace0 g _ Hg Hall. apply Forall_app. split; [assumption|].
    constructor; [|constructor].
    destruct g as [[c|c]|i].
    + destruct Hg as (_ & e & r & d & cd & h & _ & ->). apply makeCallFrame_built.
    + destruct Hg as (_ & e & d & _ & ->). apply makeCreationFrame_built.
    + destruct Hg as (_ & _ & _ & Hargs). exact Hargs.
  - intros _ stk popped _ Hall. now apply Forall_app in Hall.
  - intros f0 Hf0. constructor; [|constructor].
    destruct (initialFrame_cases _ _ Hf0) as [_ [(c & -> & ->)|(c & a & -> & _ & ->)]].
    + apply makeCreationFrame_built.
    + apply makeCallFrame_built.
Qed.

(** *** [makeCallFrame] and [makeCreationFrame] *)

Lemma length_toHex (buf : Buffer) : String.length (toHex buf) = (2 * List.length buf)%nat.
Proof. induction buf as [|b buf IH]; cbn [toHex String.length List.length]; lia. Qed.

Lemma len_slice {A} (l : list A) (s e : Z) :
  0 <= s -> s <= e ->
  len (slice l s e) = Z.min e (len l) - Z.min s (len l).
Proof.
  intros Hs He. unfold slice, js_slice, relIndex.
  destruct (Z.ltb_spec s 0); [lia|]. destruct (Z.ltb_spec e 0); [lia|].
  unfold len. rewrite length_firstn, length_skipn. lia.
Qed.

(** X18.  How [makeCallFrame] resolves the callee.  The selector is the hex
    of the first four bytes of the msg-data (of all of it when it is
    shorter).  A callee is resolved only when the code hash is known to the
    artifact manager with an AST: it is the one function of the contract
    whose selector that is or, when the functions with the selector are not
    exactly one, the one public state variable whose getter hash it is; the
    arguments are then what [decodeMsgData] gives for that callee on the
    calldata (undefined when it throws).  Without a callee there are no
    arguments. *)
Theorem makeCallFrame_callee_resolution (from : HexString) (recv : Address)
    (data code : Buffer) (codeHash : option HexString) (step : Z) :
  let fr := makeCallFrame from recv data code codeHash step in
  let selector := toHex (slice data 0 4) in
  String.length selector = (2 * Nat.min 4 (List.length data))%nat /\
  (call_callee fr = None -> call_arguments fr = None) /\
  (codeHash = None -> call_info fr = None /\ call_callee fr = None) /\
  (forall n, call_callee fr = Some n ->
     exists h ci contract,
       codeHash = Some h /\ getContractFromMDHash artifactManager h = Some ci /\
       call_info fr = Some ci /\ ast ci = Some contract /\
       call_arguments fr = decodeMsgData n data LCallData (abiEncoderVersion (artifact ci)) /\
       ((exists fn,
           n = NFunctionDefinition fn /\
           filter (fun fn => String.eqb (getFunctionSelector fn) selector)
                  (vFunctions contract) = [fn] /\
           In fn (vFunctions contract) /\ getFunctionSelector fn = selector) \/
        (exists v,
           n = NVariableDeclaration v /\
           List.length (filter (fun fn => String.eqb (getFunctionSelector fn) selector)
                               (vFunctions contract)) <> 1%nat /\
           In v (vStateVariables contract) /\ visibility v = Public /\
           getterCanonicalSignatureHash v (abiEncoderVersion (artifact ci)) = Some selector))).
Proof.
  intros fr selector. split; [|split; [|split]].
  - unfold selector. rewrite length_toHex. f_equal.
    pose proof (@len_slice _ data 0 4 ltac:(lia) ltac:(lia)) as H. unfold len in H. lia.
  - unfold fr, makeCallFrame. cbn.
    destruct (match codeHash with Some h => _ | None => None end) as [ci|]; [|reflexivity].
    destruct (ast ci); [|reflexivity]. cbn. now intros ->.
  - intros ->. split; reflexivity.
  - intros n. unfold fr, makeCallFrame. cbn.
    destruct codeHash as [h|]; [|discriminate].
    destruct (getContractFromMDHash artifactManager h) as [ci|] eqn:Hci; [|discriminate].
    destruct (ast ci) as [contract|] eqn:Hast; [|discriminate]. cbn.
    intros Hn. exists h, ci, contract. repeat (split; [first [reflexivity|assumption]|]).
    split; [now rewrite Hn|]. now apply resolveCallee_Some.
Qed.

(** X19.  A call whose msg-data is shorter than four bytes resolves no
    callee, and so has no arguments, when selectors are the usual eight hex
    digits. *)
Theorem makeCallFrame_short_data (from : HexString) (recv : Address)
    (data code : Buffer) (codeHash : option HexString) (step : Z) :
  (forall fn, String.length (getFunctionSelector fn) = 8%nat) ->
  (forall v abi h, getterCanonicalSignatureHash v abi = Some h -> String.length h = 8%nat) ->
  (List.length data < 4)%nat ->
  call_callee (makeCallFrame from recv data code codeHash step) = None /\
  call_arguments (makeCallFrame from recv data code codeHash step) = None.
Proof.
  intros Hfun Hget Hshort.
  assert (Hsel : String.length (toHex (slice data 0 4)) <> 8%nat).
  { rewrite length_toHex.
    pose proof (@len_slice _ data 0 4 ltac:(lia) ltac:(lia)) as H. unfold len in H. lia. }
  assert (Hnone : call_callee (makeCallFrame from recv data code codeHash step) = None).
  { unfold makeCallFrame. cbn.
    destruct (match codeHash with Some h => _ | None => None end) as [ci|]; [|reflexivity].
    destruct (ast ci) as [contract|]; [|reflexivity]. cbn.
    destruct (resolveCallee contract _ _) as [n|] eqn:Hn; [|reflexivity].
    apply resolveCallee_Some in Hn
      as [(fn & _ & _ & _ & Hs)|(v & _ & _ & _ & _ & Hs)]; exfalso; apply Hsel.
    - rewrite <- Hs. apply Hfun.
    - now apply Hget in Hs. }
  split; [assumption|].
  unfold makeCallFrame in *. cbn in *.
  destruct (match codeHash with Some h => _ | None => None end) as [ci|]; [|reflexivity].
  destruct (ast ci) as [contract|]; [|reflexivity]. cbn in *. now rewrite Hnone.
Qed.

Lemma createsContract_increasesDepth (o : EVMOpInfo) :
  createsContract o = true -> increasesDepth o = true.
Proof.
  unfold createsContract, increasesDepth. intros H. apply orb_prop in H as [-> | ->];
    now rewrite ?orb_true_r.
Qed.

(** X14.  When the depth rises after CREATE or CREATE2 the frame pushed is the
    Creation frame that [makeCreationFrame] builds from the previous
    external frame's address as sender, the slice [offset, offset+size) of
    the previous step's memory as creation code, with offset and size read
    at [top-1] and [top-2] of the previous operand stack, and the trace
    index; its contract info is what the artifact manager finds for that
    creation code. *)
Theorem adjustStackFrame_contract_creation
    (stk : DbgStack) (state : StepVMState) (trace : list StepState)
    (lastStep : StepState) (code : Buffer) (codeHash : option HexString)
    (lastExtFrame : ExternalFrame) (wOff wSize : Buffer) :
  lastOf trace = Some lastStep ->
  depth lastStep < depth state ->
  lastExternalFrame stk = Ok lastExtFrame ->
  createsContract (op lastStep) = true ->
  js_get (evmStack lastStep) (len (evmStack lastStep) - 1 - 1) = Some wOff ->
  js_get (evmStack lastStep) (len (evmStack lastStep) - 1 - 2) = Some wSize ->
  let off := bigEndianBufToNumber wOff in
  let size := bigEndianBufToNumber wSize in
  let creationBytecode := slice (memBytes (memory lastStep)) off (off + size) in
  let curFrame :=
    makeCreationFrame (Address_toString (address lastExtFrame)) creationBytecode (len trace) in
  adjustStackFrame stk state trace code codeHash = Ok (stk ++ [External (ECreation curFrame)]) /\
  creationCode curFrame = creationBytecode /\
  creation_msgData curFrame = creationBytecode /\
  creation_sender curFrame = Address_toString (address lastExtFrame) /\
  creation_startStep curFrame = len trace /\
  creation_info curFrame = getContractFromCreationBytecode artifactManager creationBytecode.
Proof.
  intros Hlast Hd He Hcr HwOff HwSize off size creationBytecode curFrame.
  split; [|repeat split].
  enter_depth_change He Hlast.
  rewrite (createsContract_increasesDepth _ Hcr), Hcr. cbn [assert bind].
  unfold stackNumber. rewrite HwOff, HwSize. reflexivity.
Qed.

(** *** [decodeFunArgs]: the shape of what it returns *)

Lemma expectedArgs_shape (formals : list (string * TypeNode)) :
  map fst (expectedArgs formals) = map fst formals /\
  map (fun a => type (snd a)) (expectedArgs formals) = map snd formals /\
  (forall i a, nth_error (expectedArgs formals) i = Some a ->
     originalType (snd a) = None /\
     exists o, loc (snd a) = StackLocation o /\ 0 <= o <= offsetOf formals) /\
  (forall i j a b oa ob,
     (i < j)%nat ->
     nth_error (expectedArgs formals) i = Some a ->
     nth_error (expectedArgs formals) j = Some b ->
     loc (snd a) = StackLocation oa -> loc (snd b) = StackLocation ob -> ob < oa).
Proof.
  induction formals as [|[n t] rest (IHn & IHt & IHb & IHo)].
  - repeat split; try reflexivity.
    + now destruct i.
    + now destruct i.
    + intros [|i] j a b oa ob _ H; discriminate.
  - pose proof (offsetOf_lower rest) as Hlo.
    assert (Hs : 1 <= slotsOf t) by (destruct (slotsOf_cases t) as [[_ ->]|[_ ->]]; lia).
    cbn [expectedArgs offsetOf map fst snd]. repeat split.
    + now rewrite IHn.
    + cbn [type]. now rewrite IHt.
    + destruct i as [|i]; cbn [nth_error] in H.
      * now injection H as <-.
      * now apply IHb in H.
    + destruct i as [|i]; cbn [nth_error] in H.
      * injection H as <-. cbn. eexists. split; [reflexivity|]. lia.
      * apply IHb in H as (_ & o & Ho & Hr). exists o. split; [assumption|]. lia.
    + intros i j a b oa ob Hij Ha Hb Hoa Hob.
      destruct j as [|j]; [lia|]. cbn [nth_error] in Hb.
      destruct i as [|i]; cbn [nth_error] in Ha.
      * injection Ha as <-. cbn in Hoa. injection Hoa as <-.
        apply IHb in Hb as (_ & o & Ho & Hr). rewrite Ho in Hob. injection Hob as <-. lia.
      * apply (IHo i j a b oa ob); try assumption. lia.
Qed.

(** X20.  The shape of the arguments [decodeFunArgs] returns.  There is one
    per formal, in the formals' order, with the formal's name and type and
    no original type; every one is a stack location whose offset from the
    top is at least 0 and at most [stack.length] (the assertion lets the
    offset be EQUAL to the stack length, one slot below the bottom of the
    stack); and the offsets strictly decrease from the first formal to the
    last. *)
Theorem decodeFunArgs_result_shape (callee : Callee) (stack : Stack)
    (args : list (string * DataView)) :
  decodeFunArgs callee stack = Ok (Some args) ->
  exists formals,
    formalsOf callee = Some formals /\
    map fst args = map fst formals /\
    map (fun a => type (snd a)) args = map snd formals /\
    (forall i a, nth_error args i = Some a ->
       originalType (snd a) = None /\
       exists o, loc (snd a) = StackLocation o /\ 0 <= o <= len stack) /\
    (forall i j a b oa ob,
       (i < j)%nat -> nth_error args i = Some a -> nth_error args j = Some b ->
       loc (snd a) = StackLocation oa -> loc (snd b) = StackLocation ob -> ob < oa).
Proof.
  unfold decodeFunArgs. destruct (formalsOf callee) as [formals|]; [|discriminate].
  rewrite decodeFunArgsLoop_closed by apply len_nonneg.
  destruct (Z.ltb_spec (len stack) (offsetOf formals)) as [|Hfit]; [discriminate|].
  cbn [bind]. intros [= <-]. exists formals.
  destruct (expectedArgs_shape formals) as (Hn & Ht & Hb & Ho).
  repeat (split; [first [reflexivity|assumption]|]). split; [|assumption].
  intros i a Ha. apply Hb in Ha as (Hor & o & Hloc & Hr).
  split; [assumption|]. exists o. split; [assumption|]. lia.
Qed.

(** *** [popFrames]: returns compose *)

Lemma popFrames_nil (n : Z) : popFrames n [] = [].
Proof. apply popFramesLoop_nil. Qed.

(** X15.  Unwinding [a] external levels and then [b] more is unwinding
    [a + b] at once. *)
Theorem popFrames_compose (s : DbgStack) : forall a b : Z,
  0 < a -> 0 <= b -> popFrames b (popFrames a s) = popFrames (a + b) s.
Proof.
  induction s as [|f s IH] using rev_ind; intros a b Ha Hb.
  - now rewrite !popFrames_nil.
  - rewrite (@popFrames_snoc a) by assumption.
    rewrite (@popFrames_snoc (a + b)) by lia.
    destruct (isExternalKind f).
    + destruct (Z.eq_dec a 1) as [->|Hne].
      * rewrite (@popFrames_done (1 - 1)) by lia. f_equal. lia.
      * replace (a + b - 1) with ((a - 1) + b) by lia. apply IH; lia.
    + now apply IH.
Qed.

(** *** Events: the payload is cut at the end of memory *)

Lemma bigEndianBufToBigint_nonneg (buf : Buffer) : 0 <= bigEndianBufToBigint buf.
Proof.
  induction buf as [|b buf IH] using rev_ind; [cbn; lia|].
  rewrite bigEndianBufToBigint_snoc. pose proof (byteZ_range b). lia.
Qed.

(** X21.  The payload of an emitted event is read with [memory.slice], which
    clamps to the buffer: with [off] and [size] the numbers at [top] and
    [top-1] its length is [min(off+size, L) - min(off, L)] for a memory of
    [L] bytes, so never more than [size], and less whenever the range runs
    past the end of the recorded memory (it is not padded with zeroes). *)
Theorem extractEvent_payload_clamped (opName : string) (evmStack : Stack) (mem : Memory)
    (ev : EventDesc) :
  extractEvent opName evmStack mem = Ok (Some ev) ->
  exists wOff wSize,
    js_get evmStack (len evmStack - 1) = Some wOff /\
    js_get evmStack (len evmStack - 2) = Some wSize /\
    let off := bigEndianBufToNumber wOff in
    let size := bigEndianBufToNumber wSize in
    let L := len (memBytes mem) in
    len (payload ev) = Z.min (off + size) L - Z.min off L /\
    len (payload ev) <= size /\
    (off + size <= L -> len (payload ev) = size) /\
    (L <= off -> payload ev = []).
Proof.
  unfold extractEvent. destruct (String.prefix "LOG" opName); [|discriminate].
  unfold stackNumber.
  destruct (js_get evmStack (len evmStack - 1)) as [wOff|]; cbn [defined bind]; [|discriminate].
  destruct (js_get evmStack (len evmStack - 2)) as [wSize|]; cbn [defined bind]; [|discriminate].
  intros [= <-]. exists wOff, wSize. do 2 (split; [reflexivity|]). cbn [payload].
  unfold bigEndianBufToNumber.
  pose proof (bigEndianBufToBigint_nonneg wOff) as HO.
  pose proof (bigEndianBufToBigint_nonneg wSize) as HS.
  pose proof (@len_slice _ (memBytes mem) (bigEndianBufToBigint wOff)
                (bigEndianBufToBigint wOff + bigEndianBufToBigint wSize)
                ltac:(lia) ltac:(lia)) as Hlen.
  cbv zeta. split; [exact Hlen|]. split; [lia|]. split; [lia|].
  intros HL. destruct (slice _ _ _) as [|x r] eqn:E; [reflexivity|].
  unfold len in Hlen at 1. cbn [List.length] in Hlen. lia.
Qed.

(** *** Source locations that cannot be resolved *)

(** X16.  A step at the depth of the previous one whose program counter has
    no source-map entry, in a contract with debug info, makes
    [processRawTraceStep] throw: [adjustStackFrame] calls [decodeSourceLoc]
    outside any [try].  The error is the source-map one unless the previous
    opcode is a creation whose operands cannot be read. *)
Theorem processRawTraceStep_missing_source_entry_aborts
    (vm : StateManager) (step : InterpreterStep) (trace : list StepState)
    (stk : DbgStack) (nextId : nat) (lastStep : StepState) (e : ExternalFrame)
    (ci : ContractInfo) :
  lastOf trace = Some lastStep ->
  depth lastStep = step_depth step + 1 ->
  lastExternalFrame stk = Ok e ->
  info e = Some ci ->
  getOffsetSrc (step_pc step)
               (match e with ECreation _ => bytecode ci | ECall _ => deployedBytecode ci end)
    = None ->
  (exists x, processRawTraceStep vm step trace stk nextId = Fail x) /\
  (createsContract (op lastStep) = false ->
   processRawTraceStep vm step trace stk nextId = Fail SrcMapError).
Proof.
  intros Hlast Hd He Hci Hsrc.
  assert (Hadj : forall v code md,
             pc v = step_pc step -> depth v = step_depth step + 1 ->
             adjustStackFrame stk v trace code md = Fail SrcMapError).
  { intros v code md Hpc Hdv. unfold adjustStackFrame. rewrite He. cbn [bind].
    rewrite Hlast, Hd, Hdv, Z.eqb_refl. cbn [negb bind].
    unfold decodeSourceLoc. rewrite Hci, Hpc, Hsrc. reflexivity. }
  unfold processRawTraceStep.
  destruct (translateVMState step (lastOf trace) nextId) as [v n'] eqn:Ev.
  destruct (translateVMState_mirror step (lastOf trace) nextId) as (Hpc & _ & Hdv & _).
  rewrite Ev in Hpc, Hdv. cbn [fst] in Hpc, Hdv.
  split.
  - destruct (getCodeAndMdHash vm v trace) as [[code md]|x]; cbn [bind]; [|eauto].
    rewrite Hadj by assumption. cbn [bind]. eauto.
  - intros Hcr. unfold getCodeAndMdHash. rewrite Hlast, Hcr.
    destruct (negb _); cbn [bind]; now rewrite Hadj.
Qed.

(** X17.  The same missing source-map entry is tolerated on the first step of
    a run: [adjustStackFrame] returns before looking the location up, and
    the lookup of [processRawTraceStep] itself sits in a [try], so the step
    is recorded without [src] and [astNode] but with the contract info. *)
Theorem processRawTraceStep_first_step_tolerates_missing_source
    (vm : StateManager) (step : InterpreterStep) (stk : DbgStack) (nextId : nat)
    (e : ExternalFrame) (ci : ContractInfo) :
  lastExternalFrame stk = Ok e ->
  info e = Some ci ->
  getOffsetSrc (step_pc step)
               (match e with ECreation _ => bytecode ci | ECall _ => deployedBytecode ci end)
    = None ->
  String.prefix "LOG" (name (step_opcode step)) = false ->
  exists st nextId',
    processRawTraceStep vm step [] stk nextId = Ok (st, stk, nextId') /\
    src st = None /\ astNode st = None /\ contractInfo st = Some ci /\
    emittedEvent st = None /\ stack st = stk /\
    code st = getContractCode vm (step_codeAddress step).
Proof.
  intros He Hci Hsrc Hlog.
  unfold processRawTraceStep.
  destruct (translateVMState step (lastOf []) nextId) as [v n'] eqn:Ev.
  destruct (translateVMState_mirror step (lastOf []) nextId) as (_ & _ & _ & _ & _ & _ & _ & Hca & _).
  rewrite Ev in Hca. cbn [fst] in Hca.
  unfold getCodeAndMdHash, adjustStackFrame. rewrite lastOf_nil, He. cbn [bind].
  rewrite ?He. cbn [bind]. unfold decodeSourceLoc. rewrite Hci, Hsrc.
  unfold extractEvent. rewrite Hlog. cbn [bind].
  do 2 eexists. split; [reflexivity|]. cbn. rewrite Hca. now repeat split.
Qed.

(** *** A run without debug info *)

(** A frame without anything resolved: an external frame with no contract
    info, no callee and no decoded arguments. *)
Definition bare (f : Frame) : Prop :=
  match f with
  | External (ECall c) =>
      call_info c = None /\ call_callee c = None /\ call_arguments c = None
  | External (ECreation c) =>
      creation_info c = None /\ creation_callee c = None /\ creation_arguments c = None
  | InternalCall _ => False
  end.

Lemma bare_lastExternalFrame (stk : DbgStack) (e : ExternalFrame) :
  Forall bare stk -> lastExternalFrame stk = Ok e -> info e = None.
Proof.
  intros Hall He. destruct (snoc_cases stk) as [->|(s & f & ->)]; [discriminate|].
  unfold lastExternalFrame in He. rewrite lastOf_snoc in He. cbn [defined bind] in He.
  apply Forall_app in Hall as [_ Hf]. inversion_clear Hf as [|? ? Hb _].
  destruct f as [[c|c]|i]; cbn in Hb; [| |contradiction]; injection He as <-; apply Hb.
Qed.

(** X13.  When the artifact manager knows no contract, neither by metadata
    hash nor by creation bytecode, a run records external frames only: no
    step has a source location, an AST node or contract info, and no frame
    has info, a callee or decoded arguments; no InternalCall frame is ever
    pushed. *)
Theorem debugTx_without_debug_info (tx : Transaction) (vm : StateManager)
    (steps : list InterpreterStep) (trace : list StepState) :
  (forall h, getContractFromMDHash artifactManager h = None) ->
  (forall c, getContractFromCreationBytecode artifactManager c = None) ->
  debugTx tx vm steps = Ok trace ->
  forall st, In st trace ->
    Forall bare (stack st) /\
    src st = None /\ astNode st = None /\ contractInfo st = None.
Proof.
  intros Hmd Hcc Hrun st Hst.
  assert (Hcall : forall s r d c h k, bare (External (ECall (makeCallFrame s r d c h k)))).
  { intros s r d c h k. unfold makeCallFrame. cbn.
    destruct h as [h|]; [rewrite Hmd|]; now repeat split. }
  assert (Hcre : forall s d k, bare (External (ECreation (makeCreationFrame s d k)))).
  { intros s d k. unfold makeCreationFrame. cbn. rewrite Hcc. now repeat split. }
  destruct (@debugTx_induction
              (fun _ stk => Forall bare stk)
              (fun _ st _ => Forall bare (stack st) /\
                             src st = None /\ astNode st = None /\ contractInfo st = None)
              (fun _ _ _ => True))
    with (tx := tx) (vm := vm) (steps := steps) (trace := trace) as (Hall & _ & Hlen);
    try assumption.
  - intros step trace0 stk n st0 stk' n' Hstep Hinv _.
    destruct (processRawTraceStep_Ok _ _ _ _ _ Hstep)
      as (e & _ & _ & Hadj & Hsnap & He & Hci & Hloc & _).
    assert (Hinv' : Forall bare stk').
    { destruct (@adjustStackFrame_shape _ _ _ _ _ _ Hadj)
        as [->|[(Htr & f & -> & Hf)|(popped & _ & ->)]].
      - assumption.
      - apply Forall_app. split; [assumption|]. constructor; [|constructor].
        destruct f as [[c|c]|i].
        + destruct Hf as (_ & e0 & r & d & cd & h & _ & ->). apply Hcall.
        + destruct Hf as (_ & e0 & d & _ & ->). apply Hcre.
        + destruct Hf as (_ & Hlast & (ci & Hinfo) & _).
          rewrite (bare_lastExternalFrame Hinv Hlast) in Hinfo. discriminate.
      - now apply Forall_app in Hinv. }
    pose proof (bare_lastExternalFrame Hinv' He) as Hnone.
    split; [assumption|]. split; [|trivial].
    rewrite Hsnap. split; [assumption|].
    unfold decodeSourceLoc in Hloc. rewrite Hnone in Hloc. injection Hloc as -> ->.
    rewrite Hci. now repeat split.
  - intros f0 Hf0. constructor; [|constructor].
    destruct (initialFrame_cases _ _ Hf0) as [_ [(c & -> & ->)|(c & a & -> & _ & ->)]].
    + apply Hcre.
    + apply Hcall.
  - apply In_nth_error in Hst as (k & Hk).
    destruct (nth_error steps k) as [raw|] eqn:Hraw.
    + exact (Hall k st raw Hk Hraw).
    + apply nth_error_None in Hraw.
      assert (k < List.length trace)%nat by (apply nth_error_Some; congruence). lia.
Qed.

(** *** Where the frames of a snapshot were entered *)

(** What the step [cur] at which a frame was pushed, and the step [prev]
    before it, look like. *)
Definition enteredBy (prev : StepState) (cur : StepVMState) (f : Frame) : Prop :=
  match f with
  | External e =>
      depth prev < depth cur /\ increasesDepth (op prev) = true /\
      (createsContract (op prev) = true <-> exists c, e = ECreation c)
  | InternalCall i =>
      depth prev = depth cur /\
      mnemonic (op cur) = "JUMPDEST" /\ mnemonic (op prev) = "JUMP" /\
      jumpIs (src prev) JumpInto = true /\ offset i = pc cur
  end.

Ltac length_clash H :=
  apply (f_equal (@List.length Frame)) in H; rewrite ?length_app in H; cbn in H; lia.

Lemma adjustStackFrame_push (stk : DbgStack) (f : Frame) (state : StepVMState)
    (trace : list StepState) (prev : StepState) (code : Buffer)
    (codeHash : option HexString) :
  adjustStackFrame stk state trace code codeHash = Ok (stk ++ [f]) ->
  lastOf trace = Some prev ->
  startStep f = len trace /\ enteredBy prev state f.
Proof.
  intros Hadj Hlast.
  pose proof (@adjustStackFrame_Ok_nonempty _ _ _ _ _ _ Hadj) as Hstk.
  destruct (lastExternalFrame_nonempty Hstk) as (e & He).
  destruct (Z.lt_trichotomy (depth prev) (depth state)) as [Hup|[Heq|Hdown]].
  - unfold adjustStackFrame in Hadj. rewrite He, Hlast in Hadj. cbn [bind] in Hadj.
    destruct (Z.eqb_spec (depth prev) (depth state)); [lia|]. cbn [negb] in Hadj.
    destruct (Z.gtb_spec (depth state) (depth prev)); [|lia].
    destruct (increasesDepth (op prev)) eqn:Hinc; cbn [assert bind] in Hadj; [|discriminate].
    destruct (createsContract (op prev)) eqn:Hcr.
    + destruct (stackNumber _ _) as [off|]; cbn [bind] in Hadj; [|discriminate].
      destruct (stackNumber _ _) as [size|]; cbn [bind] in Hadj; [|discriminate].
      injection Hadj as Hadj. apply app_inv_head in Hadj. injection Hadj as <-.
      split; [reflexivity|]. cbn -[makeCreationFrame]. repeat split; eauto.
    + destruct (stackNumber _ _) as [off|]; cbn [bind] in Hadj; [|discriminate].
      destruct (stackNumber _ _) as [size|]; cbn [bind] in Hadj; [|discriminate].
      destruct (js_get _ _) as [w|]; cbn [defined bind] in Hadj; [|discriminate].
      injection Hadj as Hadj. apply app_inv_head in Hadj. injection Hadj as <-.
      split; [reflexivity|]. cbn -[makeCallFrame].
      split; [assumption|]. split; [assumption|].
      split; [congruence|now intros (c & Hc)].
  - destruct (decodeSourceLoc (pc state) e) as [[[curSrc|] ast0]|] eqn:Hsrc.
    + rewrite adjustStackFrame_same_depth
        with (lastStep := prev) (ext := e) (curSrc := curSrc) (ast := ast0) in Hadj
        by assumption.
      destruct (_ && _ && _) eqn:Hinto in Hadj.
      * destruct (internalArgs ast0 (evmStack state)) as [args|]; cbn [bind] in Hadj;
          [|discriminate].
        injection Hadj as Hadj. apply app_inv_head in Hadj. injection Hadj as <-.
        apply andb_prop in Hinto as [Hinto Hj]. apply andb_prop in Hinto as [H1 H2].
        apply String.eqb_eq in H1, H2. split; [reflexivity|]. cbn. now repeat split.
      * destruct (_ && _) in Hadj; [|injection Hadj as Hadj; length_clash Hadj].
        destruct (snoc_cases stk) as [->|(rest & top & ->)]; [congruence|].
        rewrite lastOf_snoc, removelast_snoc in Hadj. cbn [defined bind] in Hadj.
        destruct (kind top); cbn in Hadj; try discriminate.
        injection Hadj as Hadj. length_clash Hadj.
    + unfold adjustStackFrame in Hadj. rewrite He, Hlast in Hadj. cbn [bind] in Hadj.
      rewrite Heq, Z.eqb_refl in Hadj. cbn [negb] in Hadj. rewrite Hsrc in Hadj.
      cbn in Hadj. injection Hadj as Hadj. length_clash Hadj.
    + unfold adjustStackFrame in Hadj. rewrite He, Hlast in Hadj. cbn [bind] in Hadj.
      rewrite Heq, Z.eqb_refl in Hadj. cbn [negb] in Hadj. rewrite Hsrc in Hadj.
      discriminate.
  - rewrite adjustStackFrame_decrease with (lastStep := prev) in Hadj by assumption.
    injection Hadj as Hadj.
    destruct (@popFrames_split stk (depth prev - depth state))
      as (popped & Hsplit & _); [lia|].
    rewrite Hadj in Hsplit. length_clash Hsplit.
Qed.

Section TraceInvariant.

Variable I : list StepState -> DbgStack -> Prop.

Hypothesis I_step :
  forall step trace stk n st stk' n',
    processRawTraceStep (step_stateManager step) step trace stk n = Ok (st, stk', n') ->
    I trace stk ->
    I (trace ++ [st]) stk'.

Lemma runSteps_trace_invariant (steps : list InterpreterStep) :
  forall (trace : list StepState) (stk : DbgStack) (n : nat) (traceF : list StepState),
  runSteps steps trace stk n = Ok traceF ->
  I trace stk ->
  (forall i st, nth_error trace i = Some st -> I (firstn (S i) trace) (stack st)) ->
  forall i st, nth_error traceF i = Some st -> I (firstn (S i) traceF) (stack st).
Proof.
  induction steps as [|step rest IH]; intros trace stk n traceF Hrun Hinv Hall.
  - injection Hrun as <-. exact Hall.
  - cbn [runSteps] in Hrun.
    destruct (processRawTraceStep (step_stateManager step) step trace stk n)
      as [[[cur stk'] n']|] eqn:Hstep; cbn [bind] in Hrun; [|discriminate].
    pose proof (@I_step _ _ _ _ _ _ _ Hstep Hinv) as Hinv'.
    destruct (processRawTraceStep_Ok _ _ _ _ _ Hstep) as (e & _ & _ & _ & Hsnap & _).
    apply IH with (trace := trace ++ [cur]) (stk := stk') (n := n'); [assumption..|].
    intros i st Hst.
    destruct (Nat.lt_ge_cases i (List.length trace)) as [Hlt|Hge].
    + rewrite nth_error_app1 in Hst by assumption.
      rewrite firstn_app. replace (S i - List.length trace)%nat with 0%nat by lia.
      cbn [firstn]. rewrite app_nil_r. now apply Hall.
    + rewrite nth_error_app2 in Hst by assumption.
      destruct (i - List.length trace)%nat as [|m] eqn:Hm; cbn in Hst;
        [|now destruct m].
      injection Hst as <-. rewrite firstn_all2 by (rewrite length_app; cbn; lia).
      now rewrite Hsnap.
Qed.

Lemma debugTx_trace_invariant (tx : Transaction) (vm : StateManager)
    (steps : list InterpreterStep) (trace : list StepState) :
  debugTx tx vm steps = Ok trace ->
  (forall f0, initialFrame vm tx = Ok f0 -> I [] [f0]) ->
  forall i st, nth_error trace i = Some st -> I (firstn (S i) trace) (stack st).
Proof.
  unfold debugTx. intros Hrun Hinit.
  destruct (initialFrame vm tx) as [f0|] eqn:Hf0; cbn [bind] in Hrun; [|discriminate].
  apply (@runSteps_trace_invariant steps [] [f0] 0%nat trace Hrun).
  - now apply Hinit.
  - intros i st H. now destruct i.
Qed.

End TraceInvariant.

(** Every frame but the bottom one was pushed at the step its [startStep]
    names, and the snapshot of that step is the stack up to the frame. *)
Definition framesEntered (trace : list StepState) (stk : DbgStack) : Prop :=
  forall j f, nth_error stk j = Some f ->
    (j = 0%nat /\ startStep f = 0) \/
    exists k prev cur,
      startStep f = Z.of_nat (S k) /\
      nth_error trace k = Some prev /\ nth_error trace (S k) = Some cur /\
      stack cur = firstn (S j) stk /\ enteredBy prev cur f.

Lemma nth_error_app_Some {A} (l l' : list A) (k : nat) (x : A) :
  nth_error l k = Some x -> nth_error (l ++ l') k = Some x.
Proof.
  intros H. rewrite nth_error_app1; [assumption|]. apply nth_error_Some. congruence.
Qed.

Lemma nth_error_firstn_Some {A} (l : list A) (n k : nat) (x : A) :
  nth_error (firstn n l) k = Some x -> nth_error l k = Some x /\ (k < n)%nat.
Proof.
  intros H.
  assert (Hk : (k < List.length (firstn n l))%nat) by (apply nth_error_Some; congruence).
  rewrite length_firstn in Hk. split; [|lia].
  rewrite <- (firstn_skipn n l). now apply nth_error_app_Some.
Qed.

Lemma framesEntered_step (step : InterpreterStep) (trace : list StepState) (stk : DbgStack)
    (n : nat) (st : StepState) (stk' : DbgStack) (n' : nat) :
  processRawTraceStep (step_stateManager step) step trace stk n = Ok (st, stk', n') ->
  framesEntered trace stk -> framesEntered (trace ++ [st]) stk'.
Proof.
  intros Hstep Hinv.
  destruct (processRawTraceStep_Ok _ _ _ _ _ Hstep) as (e & _ & _ & Hadj & Hsnap & _).
  assert (Hold : forall j f, nth_error stk j = Some f ->
                 firstn (S j) stk' = firstn (S j) stk ->
                 (j = 0%nat /\ startStep f = 0) \/
                 exists k prev cur,
                   startStep f = Z.of_nat (S k) /\
                   nth_error (trace ++ [st]) k = Some prev /\
                   nth_error (trace ++ [st]) (S k) = Some cur /\
                   stack cur = firstn (S j) stk' /\ enteredBy prev cur f).
  { intros j f Hf Hfirst. destruct (Hinv j f Hf) as [H0|(k & prev & cur & Hk & Hp & Hc & Hs & He)];
      [now left|right].
    exists k, prev, cur. rewrite Hfirst. repeat split; try assumption;
      now apply nth_error_app_Some. }
  destruct (@adjustStackFrame_shape _ _ _ _ _ _ Hadj)
    as [->|[(Htr & f & -> & Hf)|(popped & _ & ->)]].
  - intros j f Hf. now apply Hold.
  - intros j g Hg.
    destruct (Nat.lt_ge_cases j (List.length stk)) as [Hlt|Hge].
    + rewrite nth_error_app1 in Hg by assumption. apply Hold; [assumption|].
      rewrite firstn_app. replace (S j - List.length stk)%nat with 0%nat by lia.
      cbn [firstn]. now rewrite app_nil_r.
    + rewrite nth_error_app2 in Hg by assumption.
      destruct (j - List.length stk)%nat as [|m] eqn:Hm; cbn in Hg; [|now destruct m].
      injection Hg as <-. right.
      destruct (snoc_cases trace) as [->|(t & prev & ->)]; [congruence|].
      assert (Hlast : lastOf (t ++ [prev]) = Some prev) by apply lastOf_snoc.
      destruct (@adjustStackFrame_push _ _ _ _ _ _ _ Hadj Hlast) as (Hstart & Hent).
      exists (List.length t), prev, st. split; [|split; [|split; [|split]]].
      * rewrite Hstart, len_app. unfold len. cbn. lia.
      * rewrite <- app_assoc. rewrite nth_error_app2 by lia. now rewrite Nat.sub_diag.
      * rewrite nth_error_app2 by (rewrite length_app; cbn; lia).
        rewrite length_app. cbn [List.length].
        now replace (S (List.length t) - (List.length t + 1))%nat with 0%nat by lia.
      * rewrite Hsnap. symmetry. apply firstn_all2. rewrite length_app. cbn. lia.
      * exact Hent.
  - intros j f Hf.
    assert (Hj : (j < List.length stk')%nat) by (apply nth_error_Some; congruence).
    destruct (Hinv j f (nth_error_app_Some _ popped _ Hf))
      as [H0|(k & prev & cur & Hk & Hp & Hc & Hs & He)]; [now left|right].
    exists k, prev, cur. repeat split; try assumption; try now apply nth_error_app_Some.
    rewrite Hs, firstn_app. replace (S j - List.length stk')%nat with 0%nat by lia.
    cbn [firstn]. now rewrite app_nil_r.
Qed.

(** X5.  A frame's [startStep] names the step at which it was pushed.  In
    every snapshot, the bottom frame starts at step 0; any other frame, at
    position [j] with [startStep = k + 1], was pushed at step [k + 1], not
    later than the snapshot's own step: the snapshot of step [k + 1] is
    exactly the stack up to and including that frame (so the frames below a
    frame do not change while it is on the stack); an external frame was
    pushed on a depth increase after a depth-increasing opcode (a Creation
    frame exactly after CREATE or CREATE2), an InternalCall frame at a
    JUMPDEST at the same depth after a JUMP marked "into", and its [offset]
    is that JUMPDEST's program counter. *)
Theorem debugTx_frames_entered_at_start_step (tx : Transaction) (vm : StateManager)
    (steps : list InterpreterStep) (trace : list StepState)
    (i : nat) (st : StepState) (j : nat) (f : Frame) :
  debugTx tx vm steps = Ok trace ->
  nth_error trace i = Some st ->
  nth_error (stack st) j = Some f ->
  (j = 0%nat /\ startStep f = 0) \/
  exists k prev cur,
    startStep f = Z.of_nat (S k) /\ (S k <= i)%nat /\
    nth_error trace k = Some prev /\ nth_error trace (S k) = Some cur /\
    stack cur = firstn (S j) (stack st) /\ enteredBy prev cur f.
Proof.
  intros Hrun Hst Hf.
  assert (Hinv : framesEntered (firstn (S i) trace) (stack st)).
  { apply (@debugTx_trace_invariant framesEntered framesEntered_step tx vm steps trace Hrun);
      [|assumption].
    intros f0 Hf0 [|j0] g Hg; [|now destruct j0].
    injection Hg as <-. left. split; [reflexivity|].
    now destruct (initialFrame_cases _ _ Hf0) as [H0 _]. }
  destruct (Hinv j f Hf) as [H0|(k & prev & cur & Hk & Hp & Hc & Hs & He)]; [now left|right].
  apply nth_error_firstn_Some in Hp as [Hp _]. apply nth_error_firstn_Some in Hc as [Hc Hlt].
  exists k, prev, cur. repeat split; try assumption. lia.
Qed.

(** *** Memory and storage objects across a run *)

Lemma debugTx_sharingHolds (tx : Transaction) (vm : StateManager)
    (steps : list InterpreterStep) (trace : list StepState) :
  debugTx tx vm steps = Ok trace ->
  sharingHolds steps trace /\ List.length trace = List.length steps.
Proof.
  unfold debugTx. intros Hrun.
  destruct (initialFrame vm tx) as [f|]; cbn [bind] in Hrun; [|discriminate].
  apply (@runSteps_sharing_invariant steps [] [] [f] 0%nat trace Hrun).
  - reflexivity.
  - intros s [].
  - intros k p c r H. now destruct k.
Qed.

Lemma debugTx_first_step_objects (tx : Transaction) (vm : StateManager)
    (steps : list InterpreterStep) (trace : list StepState) (st : StepState)
    (raw : InterpreterStep) :
  debugTx tx vm steps = Ok trace ->
  nth_error trace 0 = Some st -> nth_error steps 0 = Some raw ->
  memBytes (memory st) = step_memory raw /\
  stoEntries (storage st) = storageEntries (step_stateManager raw) (step_address raw).
Proof.
  intros Hrun Hst Hraw.
  destruct (@debugTx_induction
              (fun _ _ => True)
              (fun i st raw =>
                 i = 0%nat ->
                 memBytes (memory st) = step_memory raw /\
                 stoEntries (storage st) =
                 storageEntries (step_stateManager raw) (step_address raw))
              (fun _ _ _ => True))
    with (tx := tx) (vm := vm) (steps := steps) (trace := trace) as (Hall & _ & _);
    try assumption; [|trivial|].
  - intros step trace0 stk n st0 stk' n' Hstep _ _. split; [trivial|]. split; [|trivial].
    intros Hlen. destruct trace0; [|discriminate].
    destruct (processRawTraceStep_Ok _ _ _ _ _ Hstep) as (e & Hvm & _).
    rewrite Hvm. split; reflexivity.
  - now apply (Hall 0%nat st raw).
Qed.

Lemma In_firstn_nth_error {A} (l : list A) (n i : nat) (x : A) :
  nth_error l i = Some x -> (i < n)%nat -> In x (firstn n l).
Proof.
  intros Hx Hi. apply nth_error_In with (n := i).
  assert (Hlen : (i < List.length l)%nat) by (apply nth_error_Some; congruence).
  rewrite <- (firstn_skipn n l) in Hx.
  rewrite nth_error_app1 in Hx; [assumption|]. rewrite length_firstn. lia.
Qed.

(** Objects handed from step to step: kept while [refresh] is false,
    replaced by one no earlier step holds when it is true. *)
Lemma shared_between {A} (obj : StepState -> A) (idOf : A -> nat)
    (refresh : StepState -> bool) (trace : list StepState) :
  (forall k prev cur,
      nth_error trace k = Some prev -> nth_error trace (S k) = Some cur ->
      if refresh prev
      then forall s, In s (firstn (S k) trace) -> idOf (obj s) <> idOf (obj cur)
      else obj cur = obj prev) ->
  forall d i si sj,
    nth_error trace i = Some si -> nth_error trace (i + d) = Some sj ->
    ((forall k sk, (i <= k < i + d)%nat -> nth_error trace k = Some sk -> refresh sk = false) ->
     obj sj = obj si) /\
    ((exists k sk, (i <= k < i + d)%nat /\ nth_error trace k = Some sk /\ refresh sk = true) ->
     idOf (obj sj) <> idOf (obj si)).
Proof.
  intros Hpair. induction d as [|d IH]; intros i si sj Hi Hj.
  - rewrite Nat.add_0_r, Hi in Hj. injection Hj as <-.
    split; [reflexivity|]. intros (k & sk & Hk & _). lia.
  - replace (i + S d)%nat with (S (i + d)) in * by lia.
    destruct (nth_error trace (i + d)) as [prev|] eqn:Hp.
    2:{ apply nth_error_None in Hp.
        assert (S (i + d) < List.length trace)%nat by (apply nth_error_Some; congruence). lia. }
    destruct (IH i si prev Hi Hp) as [IH1 IH2].
    pose proof (Hpair (i + d)%nat prev sj Hp Hj) as Hrule.
    destruct (refresh prev) eqn:Hr.
    + split.
      * intros Hno. specialize (Hno (i + d)%nat prev ltac:(lia) Hp). congruence.
      * intros _. apply not_eq_sym, Hrule. apply In_firstn_nth_error with (i := i); [assumption|lia].
    + rewrite Hrule. split.
      * intros Hno. apply IH1. intros k sk Hk. apply Hno. lia.
      * intros (k & sk & Hk & Hsk & Hrk). apply IH2. exists k, sk.
        split; [|now split].
        destruct (Nat.eq_dec k (i + d)) as [->|Hne]; [congruence|lia].
Qed.

(** The rule between consecutive steps, for memory and for storage. *)
Lemma debugTx_object_pairs (tx : Transaction) (vm : StateManager)
    (steps : list InterpreterStep) (trace : list StepState) :
  debugTx tx vm steps = Ok trace ->
  (forall k prev cur,
      nth_error trace k = Some prev -> nth_error trace (S k) = Some cur ->
      if changesMemory (op prev)
      then forall s, In s (firstn (S k) trace) -> memId (memory s) <> memId (memory cur)
      else memory cur = memory prev) /\
  (forall k prev cur,
      nth_error trace k = Some prev -> nth_error trace (S k) = Some cur ->
      if opcode (op prev) =? OPCODES.SSTORE
      then forall s, In s (firstn (S k) trace) -> stoId (storage s) <> stoId (storage cur)
      else storage cur = storage prev) /\
  (forall k prev cur raw,
      nth_error trace k = Some prev -> nth_error trace (S k) = Some cur ->
      nth_error steps (S k) = Some raw ->
      (changesMemory (op prev) = true -> memBytes (memory cur) = step_memory raw) /\
      ((opcode (op prev) =? OPCODES.SSTORE) = true ->
       stoEntries (storage cur) =
       storageEntries (step_stateManager raw) (step_address raw))).
Proof.
  intros Hrun. destruct (debugTx_sharingHolds _ _ _ Hrun) as [Hshare Hlen].
  assert (Hraw : forall k cur, nth_error trace (S k) = Some cur ->
                               exists raw, nth_error steps (S k) = Some raw).
  { intros k cur Hc. destruct (nth_error steps (S k)) as [raw|] eqn:E; [eauto|].
    apply nth_error_None in E.
    assert (S k < List.length trace)%nat by (apply nth_error_Some; congruence). lia. }
  split; [|split].
  - intros k prev cur Hp Hc. destruct (Hraw k cur Hc) as (raw & Hr).
    destruct (Hshare k prev cur raw Hp Hc Hr) as [Hmem _].
    destruct (changesMemory (op prev)); [|assumption].
    destruct Hmem as [Hfresh _]. intros s Hs. now destruct (Hfresh s Hs).
  - intros k prev cur Hp Hc. destruct (Hraw k cur Hc) as (raw & Hr).
    destruct (Hshare k prev cur raw Hp Hc Hr) as [_ Hsto].
    destruct (opcode (op prev) =? OPCODES.SSTORE); [|assumption].
    destruct Hsto as [Hfresh _]. intros s Hs. now destruct (Hfresh s Hs).
  - intros k prev cur raw Hp Hc Hr.
    destruct (Hshare k prev cur raw Hp Hc Hr) as [Hmem Hsto]. split.
    + intros E. rewrite E in Hmem. apply Hmem.
    + intros E. rewrite E in Hsto. apply Hsto.
Qed.

(** X22.  Which steps share their memory and storage objects.  Two recorded
    steps [i <= j] hold the very same memory buffer when no step from [i] to
    [j-1] has a memory-changing opcode, and different buffer objects as soon
    as one has; likewise for the storage map and SSTORE. *)
Theorem debugTx_objects_between_steps (tx : Transaction) (vm : StateManager)
    (steps : list InterpreterStep) (trace : list StepState)
    (i d : nat) (si sj : StepState) :
  debugTx tx vm steps = Ok trace ->
  nth_error trace i = Some si ->
  nth_error trace (i + d) = Some sj ->
  ((forall k sk, (i <= k < i + d)%nat -> nth_error trace k = Some sk ->
                 changesMemory (op sk) = false) ->
   memory sj = memory si) /\
  ((exists k sk, (i <= k < i + d)%nat /\ nth_error trace k = Some sk /\
                 changesMemory (op sk) = true) ->
   memId (memory sj) <> memId (memory si)) /\
  ((forall k sk, (i <= k < i + d)%nat -> nth_error trace k = Some sk ->
                 (opcode (op sk) =? OPCODES.SSTORE) = false) ->
   storage sj = storage si) /\
  ((exists k sk, (i <= k < i + d)%nat /\ nth_error trace k = Some sk /\
                 (opcode (op sk) =? OPCODES.SSTORE) = true) ->
   stoId (storage sj) <> stoId (storage si)).
Proof.
  intros Hrun Hi Hj. destruct (debugTx_object_pairs _ _ _ Hrun) as (Hmem & Hsto & _).
  destruct (@shared_between _ (fun s : StepState => memory s) memId
              (fun s => changesMemory (op s)) trace Hmem d i si sj Hi Hj) as [Hm1 Hm2].
  destruct (@shared_between _ (fun s : StepState => storage s) stoId
              (fun s => opcode (op s) =? OPCODES.SSTORE) trace Hsto d i si sj Hi Hj)
    as [Hs1 Hs2].
  auto.
Qed.

(** X23.  What a recorded step's memory and storage hold.  The memory is the
    VM's memory of the step event [r], where [r] is the last step at or
    before it that is the first of the run or follows a memory-changing
    opcode: the memories of the step events after [r] are not looked at.
    The storage is the dump, from step event [r]'s state manager, of the
    account step [r] runs in, where [r] is the last step at or before it
    that is the first of the run or follows an SSTORE: it stays that
    account's storage even when the later steps run in another account. *)
Theorem debugTx_objects_as_of_last_refresh (tx : Transaction) (vm : StateManager)
    (steps : list InterpreterStep) (trace : list StepState)
    (r d : nat) (sr sj : StepState) (raw : InterpreterStep) :
  debugTx tx vm steps = Ok trace ->
  nth_error steps r = Some raw ->
  nth_error trace r = Some sr ->
  nth_error trace (r + d) = Some sj ->
  ((r = 0%nat \/
    exists r' p, r = S r' /\ nth_error trace r' = Some p /\ changesMemory (op p) = true) ->
   (forall k sk, (r <= k < r + d)%nat -> nth_error trace k = Some sk ->
                 changesMemory (op sk) = false) ->
   memBytes (memory sj) = step_memory raw) /\
  ((r = 0%nat \/
    exists r' p, r = S r' /\ nth_error trace r' = Some p /\
                 (opcode (op p) =? OPCODES.SSTORE) = true) ->
   (forall k sk, (r <= k < r + d)%nat -> nth_error trace k = Some sk ->
                 (opcode (op sk) =? OPCODES.SSTORE) = false) ->
   stoEntries (storage sj) = storageEntries (step_stateManager raw) (step_address raw)).
Proof.
  intros Hrun Hraw Hr Hj.
  destruct (debugTx_object_pairs _ _ _ Hrun) as (Hmem & Hsto & Hnew).
  split.
  - intros Hfirst Hno.
    destruct (@shared_between _ (fun s : StepState => memory s) memId
                (fun s => changesMemory (op s)) trace Hmem d r sr sj Hr Hj) as [Hsame _].
    rewrite (Hsame Hno).
    destruct Hfirst as [->|(r' & p & -> & Hp & Hch)].
    + now destruct (debugTx_first_step_objects _ _ _ Hrun Hr Hraw).
    + now destruct (Hnew r' p sr raw Hp Hr Hraw) as [H _]; apply H.
  - intros Hfirst Hno.
    destruct (@shared_between _ (fun s : StepState => storage s) stoId
                (fun s => opcode (op s) =? OPCODES.SSTORE) trace Hsto d r sr sj Hr Hj)
      as [Hsame _].
    rewrite (Hsame Hno).
    destruct Hfirst as [->|(r' & p & -> & Hp & Hch)].
    + now destruct (debugTx_first_step_objects _ _ _ Hrun Hr Hraw).
    + now destruct (Hnew r' p sr raw Hp Hr Hraw) as [_ H]; apply H.
Qed.

End Debugger.

(** ** A small world to run the debugger in

    One contract with debug info: a function [f(uint256 amount, bytes
    calldata payload)] entered by the JUMP at pc 0, whose body starts at the
    JUMPDEST at pc 1 and returns by the JUMP at pc 2, followed by a CALL, a
    LOG2 and a STOP. *)

Module Demo.

Inductive TypeNode : Type := TUint256 | TBytesCalldata.

Definition BytecodeInfo : Type := list (Z * DecodedBytecodeSourceMapEntry).

Definition opTable : list (string * Z) :=
  [("STOP", 0x00); ("MSTORE", 0x52); ("SSTORE", 0x55); ("JUMP", 0x56); ("JUMPDEST", 0x5b);
   ("PUSH1", 0x60); ("LOG2", 0xa2); ("CREATE", 0xf0); ("CALL", 0xf1); ("RETURN", 0xf3);
   ("DELEGATECALL", 0xf4); ("STATICCALL", 0xfa)].

Definition getOpInfo (name : string) : EVMOpInfo :=
  {| opcode := match Map_get opTable name with Some c => c | None => 0xfe end;
     mnemonic := name |}.

Definition changesMemory (o : EVMOpInfo) : bool :=
  existsb (Z.eqb (opcode o)) [0x37; 0x39; 0x3c; 0x3e; 0x52; 0x53; 0xf1; 0xf2; 0xf4; 0xfa].

Fixpoint getOffsetSrc (off : Z) (info : BytecodeInfo) : option DecodedBytecodeSourceMapEntry :=
  match info with
  | [] => None
  | (pc, src) :: rest => if pc =? off then Some src else getOffsetSrc off rest
  end.

Definition amount : VariableDeclaration :=
  {| vd_id := 8; vd_name := "amount"; stateVariable := false; visibility := Default |}.
Definition payloadArg : VariableDeclaration :=
  {| vd_id := 9; vd_name := "payload"; stateVariable := false; visibility := Default |}.
Definition f : FunctionDefinition := {| fd_id := 7; vParameters := [amount; payloadArg] |}.

Definition isCalldataType2Slots (t : TypeNode) : bool :=
  match t with TBytesCalldata => true | TUint256 => false end.
Definition variableDeclarationToTypeNode (v : VariableDeclaration) : option TypeNode :=
  if vd_id v =? 9 then Some TBytesCalldata else Some TUint256.
Definition getterArgsAndReturn (v : VariableDeclaration) : option (list TypeNode * TypeNode) :=
  Some ([TUint256], TUint256).
Definition getFunctionSelector (fn : FunctionDefinition) : string := "a9059cbb".
Definition getterCanonicalSignatureHash (v : VariableDeclaration) (abi : ABIEncoderVersion)
  : option string := None.
Definition decodeMsgData (callee : ASTNode) (data : Buffer) (k : DataLocationKind)
    (abi : ABIEncoderVersion) : option (Arguments_ TypeNode) := None.

Definition getCodeHash (code : Buffer) : option HexString :=
  match code with [] => None | _ => Some "md" end.
Definition getCreationCodeHash (code : Buffer) : option HexString := None.

Definition srcTable : BytecodeInfo :=
  [(0, {| start := 0; srcLength := 5; sourceIndex := 0; jump := JumpInto |});
   (1, {| start := 10; srcLength := 20; sourceIndex := 0; jump := JumpRegular |});
   (2, {| start := 30; srcLength := 4; sourceIndex := 0; jump := JumpOut |});
   (3, {| start := 40; srcLength := 8; sourceIndex := 0; jump := JumpRegular |});
   (4, {| start := 50; srcLength := 6; sourceIndex := 0; jump := JumpRegular |});
   (5, {| start := 60; srcLength := 1; sourceIndex := 0; jump := JumpRegular |})].

Definition demoInfo : ContractInfo BytecodeInfo :=
  {| bytecode := [];
     deployedBytecode := srcTable;
     ast := Some {| vFunctions := [f]; vStateVariables := []; vConstructor := None |};
     artifact := {| abiEncoderVersion := ABIv2;
                    srcMap := [("10:20:0", NFunctionDefinition f)] |} |}.

Definition artifactManager : IArtifactManager BytecodeInfo :=
  {| getContractFromMDHash := fun h => if String.eqb h "md" then Some demoInfo else None;
     getContractFromCreationBytecode := fun _ => None |}.

Definition bufferFromHex (s : string) : Buffer := [].
Definition rlp_decode (b : Buffer) : Buffer := b.
Definition bigintFromHex (s : string) : Z := 0.

Definition vm : StateManager :=
  {| getContractCode := fun _ => [x60; x00]; dumpStorage := fun _ => [] |}.

Definition addrA : Address := {| addrBuf := repeat x0a 20 |}.
Definition addrB : Address := {| addrBuf := repeat x0b 20 |}.
Definition sender : Address := {| addrBuf := repeat x01 20 |}.

Definition tx : Transaction :=
  {| to := Some addrA; data := [xa9; x05; x9c; xbb]; senderAddress := sender |}.

Definition mem8 : Buffer := [x01; x02; x03; x04; x05; x06; x07; x08].

Definition rawStep (opName : string) (pc depth : Z) (stack : list Z) : InterpreterStep :=
  {| step_opcode := {| name := opName; fee := 3; dynamicFee := None |};
     step_pc := pc;
     step_depth := depth;
     step_gasLeft := 100000;
     step_address := addrA;
     step_codeAddress := addrA;
     step_stack := stack;
     step_memory := mem8;
     step_stateManager := vm |}.

(** The operand stack of a CALL, in array order (top last): retSize,
    retOffset, argsSize, argsOffset, value, address, gas. *)
Definition callStack : list Z := [0; 0; 4; 0; 0; 0x0b0b0b0b0b0b0b0b0b0b0b0b0b0b0b0b0b0b0b0b; 5000].

(** A well-behaved run: internal call and return, external call with a
    LOG2 inside, return. *)
Definition steps : list InterpreterStep :=
  [rawStep "JUMP" 0 0 [5; 1; 32];
   rawStep "JUMPDEST" 1 0 [5; 1; 32];
   rawStep "JUMP" 2 0 [5];
   rawStep "CALL" 3 0 callStack;
   rawStep "PUSH1" 3 1 [];
   rawStep "LOG2" 4 1 [222; 111; 3; 2];
   rawStep "STOP" 5 1 [];
   rawStep "STOP" 5 0 []].

(** The debugger in this world. *)
Definition runTx :=
  debugTx getOpInfo changesMemory getOffsetSrc artifactManager getCodeHash
          getCreationCodeHash isCalldataType2Slots variableDeclarationToTypeNode
          getterArgsAndReturn getFunctionSelector getterCanonicalSignatureHash decodeMsgData
          bufferFromHex rlp_decode bigintFromHex.

Definition processStep :=
  processRawTraceStep getOpInfo changesMemory getOffsetSrc artifactManager getCodeHash
          getCreationCodeHash isCalldataType2Slots variableDeclarationToTypeNode
          getterArgsAndReturn getFunctionSelector getterCanonicalSignatureHash decodeMsgData
          bufferFromHex rlp_decode bigintFromHex.

Definition adjust :=
  adjustStackFrame getOffsetSrc artifactManager isCalldataType2Slots
          variableDeclarationToTypeNode getterArgsAndReturn getFunctionSelector
          getterCanonicalSignatureHash decodeMsgData.

Definition mkCall :=
  makeCallFrame artifactManager getFunctionSelector getterCanonicalSignatureHash decodeMsgData.

(** Frames and steps to call the reconciler on directly. *)
Definition callFrame (receiver : Address) (step : Z) : Frame TypeNode BytecodeInfo :=
  External (ECall (mkCall (Address_toString sender) receiver [xa9; x05; x9c; xbb]
                                 [x60; x00] (Some "md") step)).

Definition internalFrame (step : Z) : Frame TypeNode BytecodeInfo :=
  InternalCall {| internal_callee := Some (NFunctionDefinition f);
                  internal_arguments := None;
                  internal_startStep := step;
                  nearestExtFrame :=
                    ECall (mkCall (Address_toString sender) addrA [xa9; x05; x9c; xbb]
                                         [x60; x00] (Some "md") 0);
                  offset := 1 |}.

Definition vmStateAt (opName : string) (pc depth : Z) (stack : list Z) : StepVMState :=
  {| evmStack := map wordOfBN stack;
     memory := {| memId := 0; memBytes := mem8 |};
     storage := {| stoId := 1; stoEntries := [] |};
     op := getOpInfo opName;
     pc := pc;
     gasCost := 3;
     dynamicGasCost := 3;
     gas := 100000;
     depth := depth;
     stepAddress := addrA;
     codeAddress := addrA |}.

Definition stepAt (opName : string) (pc depth : Z) (stack : list Z)
  : StepState TypeNode BytecodeInfo :=
  {| vmState := vmStateAt opName pc depth stack;
     code := [x60; x00];
     codeMdHash := Some "md";
     stack := [callFrame addrA 0];
     src := getOffsetSrc pc srcTable;
     astNode := None;
     emittedEvent := None;
     contractInfo := Some demoInfo |}.

(** [initialFrame] of a transaction to [txTo]. *)
Definition initial (txTo : option Address) : result (Frame TypeNode BytecodeInfo) :=
  initialFrame artifactManager getCodeHash getFunctionSelector getterCanonicalSignatureHash
               decodeMsgData vm {| to := txTo; data := [x60; x00]; senderAddress := sender |}.

Definition code0 : Buffer := [x60; x00].
Definition md : option HexString := Some "md".

(** *** The reconciler on concrete stacks *)

(** C3, counterexample: the depth rises by two after a CALL and the
    reconciler does not fail: it pushes one Call frame. *)
Lemma adjust_accepts_depth_jump_of_two :
  depth (vmStateAt "PUSH1" 3 3 []) - depth (stepAt "CALL" 3 1 callStack) = 2 /\
  adjust [callFrame addrA 0] (vmStateAt "PUSH1" 3 3 []) [stepAt "CALL" 3 1 callStack] code0 md =
  Ok [callFrame addrA 0;
      External (ECall (mkCall (Address_toString addrA) addrB [x01; x02; x03; x04] code0 md 1))].
Proof. split; [reflexivity|vm_compute; reflexivity]. Qed.

(** C3, witness: the same rise after a STOP trips the assertion. *)
Lemma adjust_depth_increase_witness :
  adjust [callFrame addrA 0] (vmStateAt "PUSH1" 3 3 []) [stepAt "STOP" 5 1 []] code0 md =
  Fail (AssertUnexpectedDepthIncrease "STOP").
Proof.
  cut (increasesDepth (op (stepAt "STOP" 5 1 [])) = false); [|reflexivity].
  eapply proj1.
  apply adjustStackFrame_depth_increase_checks_opcode_only
    with (lastStep := stepAt "STOP" 5 1 []);
    [reflexivity|reflexivity|discriminate].
Defined.

(** C4, witness: the JUMPDEST at pc 1 after the "into" JUMP at pc 0 enters
    [f]; with three words on the operand stack [payload] (two slots) is at
    offset 1 and [amount] at offset 2. *)
Lemma adjust_internal_call_entry_witness :
  adjust [callFrame addrA 0] (vmStateAt "JUMPDEST" 1 1 [5; 1; 32])
         [stepAt "JUMP" 0 1 [5; 1; 32]] code0 md =
  Ok [callFrame addrA 0;
      InternalCall
        {| internal_callee := Some (NFunctionDefinition f);
           internal_arguments :=
             Some [("amount", Some {| type := TUint256; originalType := None;
                                      loc := StackLocation 2 |});
                   ("payload", Some {| type := TBytesCalldata; originalType := None;
                                       loc := StackLocation 1 |})];
           internal_startStep := 1;
           nearestExtFrame :=
             ECall (mkCall (Address_toString sender) addrA [xa9; x05; x9c; xbb] code0 md 0);
           offset := 1 |}].
Proof.
  etransitivity.
  - eapply proj2. apply adjustStackFrame_internal_call_entry
      with (lastStep := stepAt "JUMP" 0 1 [5; 1; 32])
           (ext := ECall (mkCall (Address_toString sender) addrA [xa9; x05; x9c; xbb] code0 md 0))
           (curSrc := {| start := 10; srcLength := 20; sourceIndex := 0; jump := JumpRegular |})
           (lastSrc := {| start := 0; srcLength := 5; sourceIndex := 0; jump := JumpInto |})
           (ast := Some (NFunctionDefinition f));
      reflexivity.
  - vm_compute. reflexivity.
Defined.

(** C5, witness: the "out" JUMP at pc 2 pops the internal frame on top. *)
Lemma adjust_internal_call_return_witness :
  adjust [callFrame addrA 0; internalFrame 1] (vmStateAt "JUMP" 2 1 [5])
         [stepAt "JUMPDEST" 1 1 [5; 1; 32]] code0 md =
  Ok [callFrame addrA 0].
Proof.
  apply adjustStackFrame_internal_call_return
    with (rest := [callFrame addrA 0]) (topFrame := internalFrame 1)
         (lastStep := stepAt "JUMPDEST" 1 1 [5; 1; 32])
         (ext := ECall (mkCall (Address_toString sender) addrA [xa9; x05; x9c; xbb] code0 md 0))
         (curSrc := {| start := 30; srcLength := 4; sourceIndex := 0; jump := JumpOut |})
         (ast := None);
    reflexivity.
Defined.

(** The same JUMP with a Call frame on top trips the assertion. *)
Example adjust_internal_call_return_mismatch :
  adjust [callFrame addrA 0] (vmStateAt "JUMP" 2 1 [5])
         [stepAt "JUMPDEST" 1 1 [5; 1; 32]] code0 md =
  Fail AssertMismatchedInternalReturn.
Proof. reflexivity. Qed.

(** C6, witness: after the CALL of [callStack] the depth rises; the new
    Call frame has [addrB] (the rightmost 20 bytes of the word at [top-1])
    as receiver and the 4 bytes of memory at offset 0 as msg-data. *)
Lemma adjust_external_call_witness :
  adjust [callFrame addrA 0] (vmStateAt "PUSH1" 3 2 []) [stepAt "CALL" 3 1 callStack] code0 md =
  Ok ([callFrame addrA 0] ++
      [External (ECall (mkCall (Address_toString addrA)
                               (wordToAddress (wordOfBN 0x0b0b0b0b0b0b0b0b0b0b0b0b0b0b0b0b0b0b0b0b))
                               (slice mem8 (bigEndianBufToNumber (wordOfBN 0))
                                      (bigEndianBufToNumber (wordOfBN 0) +
                                       bigEndianBufToNumber (wordOfBN 4)))
                               code0 md 1))]) /\
  wordToAddress (wordOfBN 0x0b0b0b0b0b0b0b0b0b0b0b0b0b0b0b0b0b0b0b0b) = addrB /\
  slice mem8 (bigEndianBufToNumber (wordOfBN 0))
        (bigEndianBufToNumber (wordOfBN 0) + bigEndianBufToNumber (wordOfBN 4)) =
  [x01; x02; x03; x04].
Proof.
  split; [|split; vm_compute; reflexivity].
  eapply proj1.
  apply adjustStackFrame_external_call
    with (lastStep := stepAt "CALL" 3 1 callStack)
         (lastExtFrame := ECall (mkCall (Address_toString sender) addrA [xa9; x05; x9c; xbb]
                                        code0 md 0))
         (offPos := 3) (sizePos := 4)
         (wOff := wordOfBN 0) (wSize := wordOfBN 4)
         (wRecv := wordOfBN 0x0b0b0b0b0b0b0b0b0b0b0b0b0b0b0b0b0b0b0b0b);
    reflexivity.
Defined.

(** *** Whole runs *)

(** C1, witness: the trace of [steps]. *)
Lemma runTx_external_frames_equal_depth_witness :
  exists trace,
    runTx tx vm steps = Ok trace /\
    Forall2 (fun (st : StepState TypeNode BytecodeInfo) (raw : InterpreterStep) =>
               depth st = step_depth raw + 1 /\ countExternal (stack st) = depth st)
            trace steps.
Proof.
  eexists. split; [vm_compute; reflexivity|].
  apply (@debugTx_external_frames_equal_depth TypeNode BytecodeInfo
           getOpInfo changesMemory getOffsetSrc artifactManager getCodeHash
           getCreationCodeHash isCalldataType2Slots variableDeclarationToTypeNode
           getterArgsAndReturn getFunctionSelector getterCanonicalSignatureHash decodeMsgData
           bufferFromHex rlp_decode bigintFromHex tx vm steps);
    [vm_compute; reflexivity|reflexivity].
Defined.

(** C7, witness: in the trace of [steps], the step after the CALL (a
    memory-changing opcode here) holds a fresh copy of the raw memory and
    shares the storage map. *)
Lemma runTx_memory_storage_sharing_witness :
  exists trace prev cur,
    runTx tx vm steps = Ok trace /\
    nth_error trace 3 = Some prev /\
    nth_error trace 4 = Some cur /\
    sharingRule changesMemory bufferFromHex rlp_decode bigintFromHex
                (firstn 4 trace) prev cur (rawStep "PUSH1" 3 1 []) /\
    (memory cur = memory prev <-> changesMemory (op prev) = false) /\
    (storage cur = storage prev <-> (opcode (op prev) =? OPCODES.SSTORE) = false).
Proof.
  eexists _, _, _. split; [vm_compute; reflexivity|].
  split; [reflexivity|]. split; [reflexivity|].
  apply (@debugTx_memory_storage_sharing TypeNode BytecodeInfo
           getOpInfo changesMemory getOffsetSrc artifactManager getCodeHash
           getCreationCodeHash isCalldataType2Slots variableDeclarationToTypeNode
           getterArgsAndReturn getFunctionSelector getterCanonicalSignatureHash decodeMsgData
           bufferFromHex rlp_decode bigintFromHex tx vm steps);
    vm_compute; reflexivity.
Defined.

(** The step after the JUMP at pc 0 shares both objects with it. *)
Example runTx_shares_memory_after_jump :
  exists trace prev cur,
    runTx tx vm steps = Ok trace /\
    nth_error trace 0 = Some prev /\ nth_error trace 1 = Some cur /\
    memory cur = memory prev /\ storage cur = storage prev.
Proof.
  eexists _, _, _. split; [vm_compute; reflexivity|]. repeat split.
Qed.

(** C8, counterexample: a LOG2 step with three words on the operand stack
    is recorded with an event that has no topic. *)
Lemma processStep_log2_short_stack_has_no_topic :
  exists st stk n ev,
    processStep vm (rawStep "LOG2" 4 0 [111; 3; 2]) [] [callFrame addrA 0] 0 = Ok (st, stk, n) /\
    emittedEvent st = Some ev /\
    topics ev = [].
Proof.
  eexists _, _, _, _. split; [vm_compute; reflexivity|]. split; reflexivity.
Qed.

(** C8, witness: a LOG2 step with four words: offset 2, size 3, topics 111
    and 222, the upper one first. *)
Lemma processStep_log_event_witness :
  exists st stk n,
    processStep vm (rawStep "LOG2" 4 0 [222; 111; 3; 2]) [] [callFrame addrA 0] 0 =
    Ok (st, stk, n) /\
    exists zOff zSize ev,
      js_get [222; 111; 3; 2] 3 = Some zOff /\
      js_get [222; 111; 3; 2] (3 - 1) = Some zSize /\
      emittedEvent st = Some ev /\
      payload ev = slice (memBytes (memory st)) (zOff mod 2 ^ 256)
                         (zOff mod 2 ^ 256 + zSize mod 2 ^ 256) /\
      len (topics ev) = 2 /\
      forall i, 0 <= i < 2 ->
        js_get (topics ev) i =
        option_map (fun z => z mod 2 ^ 256) (js_get [222; 111; 3; 2] (3 - 2 - i)).
Proof.
  eexists _, _, _. split; [vm_compute; reflexivity|].
  eapply (@processRawTraceStep_log_event TypeNode BytecodeInfo
           getOpInfo changesMemory getOffsetSrc artifactManager getCodeHash
           getCreationCodeHash isCalldataType2Slots variableDeclarationToTypeNode
           getterArgsAndReturn getFunctionSelector getterCanonicalSignatureHash decodeMsgData
           bufferFromHex rlp_decode bigintFromHex
           vm (rawStep "LOG2" 4 0 [222; 111; 3; 2]) [] [callFrame addrA 0] _ 0%nat _ _
           "2"%char 2);
    first [vm_compute; reflexivity | vm_compute; discriminate].
Defined.

Example processStep_log2_event :
  exists st stk n,
    processStep vm (rawStep "LOG2" 4 0 [222; 111; 3; 2]) [] [callFrame addrA 0] 0 =
    Ok (st, stk, n) /\
    emittedEvent st = Some {| payload := [x03; x04; x05]; topics := [111; 222] |}.
Proof. eexists _, _, _. split; vm_compute; reflexivity. Qed.

(** *** [decodeFunArgs] and [initialFrame] on small inputs *)

Example decodeFunArgs_three_words :
  decodeFunArgs isCalldataType2Slots variableDeclarationToTypeNode getterArgsAndReturn
                (CalleeFun f) (map wordOfBN [5; 1; 32]) =
  Ok (Some [("amount", {| type := TUint256; originalType := None; loc := StackLocation 2 |});
            ("payload", {| type := TBytesCalldata; originalType := None;
                           loc := StackLocation 1 |})]).
Proof. reflexivity. Qed.

(** [payload] fits (offset 1 on a stack of 1), [amount] at offset 2 does not. *)
Example decodeFunArgs_one_word_underflows :
  decodeFunArgs isCalldataType2Slots variableDeclarationToTypeNode getterArgsAndReturn
                (CalleeFun f) (map wordOfBN [5]) =
  Fail (AssertStackUnderflow 2 1).
Proof. reflexivity. Qed.

(** The assertion is [offsetFromTop <= stack.length]: offset 2 passes on a
    stack of 2 words. *)
Example decodeFunArgs_two_words :
  decodeFunArgs isCalldataType2Slots variableDeclarationToTypeNode getterArgsAndReturn
                (CalleeFun f) (map wordOfBN [5; 1]) =
  Ok (Some [("amount", {| type := TUint256; originalType := None; loc := StackLocation 2 |});
            ("payload", {| type := TBytesCalldata; originalType := None;
                           loc := StackLocation 1 |})]).
Proof. reflexivity. Qed.

Example decodeFunArgs_getter :
  decodeFunArgs isCalldataType2Slots variableDeclarationToTypeNode getterArgsAndReturn
                (CalleeVar amount) (map wordOfBN [5]) =
  Ok (Some [("ARG_0", {| type := TUint256; originalType := None; loc := StackLocation 0 |})]).
Proof. reflexivity. Qed.

Example initialFrame_no_recipient :
  option_map (@kind TypeNode BytecodeInfo)
             (match initial None with Ok fr => Some fr | Fail _ => None end) = Some KCreation.
Proof. reflexivity. Qed.

Example initialFrame_zero_recipient :
  option_map (@kind TypeNode BytecodeInfo)
             (match initial (Some ZERO_ADDRESS) with Ok fr => Some fr | Fail _ => None end) =
  Some KCreation.
Proof. reflexivity. Qed.

Example initialFrame_recipient :
  option_map (@kind TypeNode BytecodeInfo)
             (match initial (Some addrA) with Ok fr => Some fr | Fail _ => None end) =
  Some KCall.
Proof. reflexivity. Qed.

(** C10, witness: a transaction sent to the zero address starts with a
    Creation frame made from its data. *)
Lemma initialFrame_zero_recipient_witness :
  initial (Some ZERO_ADDRESS) =
  Ok (External (ECreation (makeCreationFrame TypeNode artifactManager
                                             (Address_toString sender) [x60; x00] 0))).
Proof.
  apply (proj1 (@initialFrame_zero_recipient_is_creation TypeNode BytecodeInfo
                  artifactManager getCodeHash getFunctionSelector
                  getterCanonicalSignatureHash decodeMsgData vm
                  {| to := Some ZERO_ADDRESS; data := [x60; x00]; senderAddress := sender |})).
  right. reflexivity.
Defined.


(** *** More of the debugger, on the run over [steps] *)

(** A theorem about [debugTx], at this world's run over [steps]. *)
Ltac at_run thm :=
  unshelve eapply (thm TypeNode BytecodeInfo getOpInfo changesMemory getOffsetSrc artifactManager
              getCodeHash getCreationCodeHash isCalldataType2Slots
              variableDeclarationToTypeNode getterArgsAndReturn getFunctionSelector
              getterCanonicalSignatureHash decodeMsgData bufferFromHex rlp_decode
              bigintFromHex tx vm steps).

(** The same for a theorem about the step [k] of the trace. *)
Ltac at_step thm k :=
  unshelve eapply (thm TypeNode BytecodeInfo getOpInfo changesMemory getOffsetSrc artifactManager
              getCodeHash getCreationCodeHash isCalldataType2Slots
              variableDeclarationToTypeNode getterArgsAndReturn getFunctionSelector
              getterCanonicalSignatureHash decodeMsgData bufferFromHex rlp_decode
              bigintFromHex tx vm steps _ k).

Ltac in_list :=
  lazymatch goal with
  | |- In _ _ => vm_compute; repeat (first [left; reflexivity | right])
  end.

(** What is left of such a theorem's hypotheses, on concrete data. *)
Ltac by_running := try (vm_compute; reflexivity); try in_list.

(** A run that unwinds an internal frame with its external one: a CALL,
    then in the callee the JUMP into [f] and its JUMPDEST, then the step
    back in the caller. *)
Definition unwindingSteps : list InterpreterStep :=
  [rawStep "CALL" 3 0 callStack;
   rawStep "JUMP" 0 1 [5; 1; 32];
   rawStep "JUMPDEST" 1 1 [5; 1; 32];
   rawStep "STOP" 5 0 []].

(** C2, witness: in the run over [unwindingSteps] the depth drops from 2 to
    1 at the last step; the snapshot before it holds the caller's frame, the
    callee's and the internal frame of [f]; the last two are popped, one of
    them external. *)
Lemma runTx_depth_decrease_pops_quota_witness :
  exists trace prev cur,
    runTx tx vm unwindingSteps = Ok trace /\
    nth_error trace 2 = Some prev /\ nth_error trace 3 = Some cur /\
    map (@kind TypeNode BytecodeInfo) (stack prev) = [KCall; KCall; KInternalCall] /\
    depth prev - depth cur = 1 /\
    adjust (stack prev) cur (firstn 3 trace) (code cur) (codeMdHash cur) = Ok (stack cur) /\
    stack cur = popFrames (depth prev - depth cur) (stack prev) /\
    exists fr rest,
      stack prev = stack cur ++ fr :: rest /\
      isExternalKind fr = true /\
      countExternal (fr :: rest) = depth prev - depth cur.
Proof.
  eexists _, _, _. split; [vm_compute; reflexivity|].
  split; [reflexivity|]. split; [reflexivity|].
  split; [reflexivity|]. split; [reflexivity|].
  unshelve eapply (@debugTx_depth_decrease_pops_quota TypeNode BytecodeInfo
            getOpInfo changesMemory getOffsetSrc artifactManager getCodeHash
            getCreationCodeHash isCalldataType2Slots variableDeclarationToTypeNode
            getterArgsAndReturn getFunctionSelector getterCanonicalSignatureHash
            decodeMsgData bufferFromHex rlp_decode bigintFromHex
            tx vm unwindingSteps _ 2%nat); by_running.
Defined.

(** X1, witness: the trace of [steps] against the raw steps. *)
Lemma runTx_trace_mirrors_steps_witness :
  exists trace,
    runTx tx vm steps = Ok trace /\
    Forall2 (fun (st : StepState TypeNode BytecodeInfo) (raw : InterpreterStep) =>
               pc st = step_pc raw /\
               op st = getOpInfo (name (step_opcode raw)) /\
               depth st = step_depth raw + 1 /\
               gas st = step_gasLeft raw /\
               gasCost st = fee (step_opcode raw) /\
               dynamicGasCost st =
                 match dynamicFee (step_opcode raw) with
                 | None => fee (step_opcode raw)
                 | Some d => d
                 end /\
               stepAddress st = step_address raw /\
               codeAddress st = step_codeAddress raw /\
               len (evmStack st) = len (step_stack raw) /\
               Forall (fun w => List.length w = 32%nat) (evmStack st) /\
               map bigEndianBufToBigint (evmStack st) = step_stack raw)
            trace steps.
Proof.
  eexists. split; [vm_compute; reflexivity|].
  at_run (@debugTx_trace_mirrors_steps); [vm_compute; reflexivity|].
  repeat constructor; vm_compute; discriminate.
Defined.

(** X3, witness: the snapshots of the run over [steps]. *)
Lemma runTx_snapshots_rest_on_initial_frame_witness :
  exists trace,
    runTx tx vm steps = Ok trace /\
    exists f0,
      initialFrame artifactManager getCodeHash getFunctionSelector
                   getterCanonicalSignatureHash decodeMsgData vm tx = Ok f0 /\
      isExternalKind f0 = true /\
      forall st, In st trace -> exists rest, stack st = f0 :: rest.
Proof.
  eexists. split; [vm_compute; reflexivity|].
  at_run (@debugTx_snapshots_rest_on_initial_frame); by_running.
Defined.

(** X4, witness: from the CALL step to the first step of the callee. *)
Lemma runTx_consecutive_snapshots_witness :
  exists trace prev cur,
    runTx tx vm steps = Ok trace /\
    nth_error trace 3 = Some prev /\ nth_error trace 4 = Some cur /\
    stackTransition prev cur (stack prev) (stack cur).
Proof.
  eexists _, _, _. split; [vm_compute; reflexivity|].
  split; [reflexivity|]. split; [reflexivity|].
  at_step (@debugTx_consecutive_snapshots) 3%nat; by_running.
Defined.

(** X5, witness: the callee's frame in the snapshot of the LOG2 step was
    pushed at step 4, after the CALL. *)
Lemma runTx_frames_entered_at_start_step_witness :
  exists trace st f,
    runTx tx vm steps = Ok trace /\
    nth_error trace 5 = Some st /\ nth_error (stack st) 1 = Some f /\
    ((1%nat = 0%nat /\ startStep f = 0) \/
     exists k prev cur,
       startStep f = Z.of_nat (S k) /\ (S k <= 5)%nat /\
       nth_error trace k = Some prev /\ nth_error trace (S k) = Some cur /\
       stack cur = firstn 2 (stack st) /\ enteredBy prev cur f).
Proof.
  eexists _, _, _. split; [vm_compute; reflexivity|].
  split; [reflexivity|]. split; [reflexivity|].
  at_step (@debugTx_frames_entered_at_start_step) 5%nat; by_running.
Defined.

(** X6, witness: the snapshot of the LOG2 step. *)
Lemma runTx_start_steps_increase_witness :
  exists trace st,
    runTx tx vm steps = Ok trace /\
    nth_error trace 5 = Some st /\
    (forall f, In f (stack st) -> 0 <= startStep f <= Z.of_nat 5) /\
    (forall a b fa fb,
        (a < b)%nat -> nth_error (stack st) a = Some fa -> nth_error (stack st) b = Some fb ->
        startStep fa < startStep fb) /\
    (exists f0 rest, stack st = f0 :: rest /\ startStep f0 = 0).
Proof.
  eexists _, _. split; [vm_compute; reflexivity|]. split; [reflexivity|].
  at_run (@debugTx_start_steps_increase); by_running.
Defined.

(** X7, witness: the internal frame of [f] in the snapshot of the JUMPDEST
    step. *)
Lemma runTx_internal_frames_point_below_witness :
  exists trace st i,
    runTx tx vm steps = Ok trace /\
    nth_error trace 1 = Some st /\
    stack st = [callFrame addrA 0] ++ InternalCall i :: [] /\
    lastExternalFrame [callFrame addrA 0] = Ok (nearestExtFrame i) /\
    exists ci, info (nearestExtFrame i) = Some ci.
Proof.
  eexists _, _, _. split; [vm_compute; reflexivity|]. split; [reflexivity|].
  match goal with
  | |- stack ?st = _ /\ _ =>
      split; [vm_compute; reflexivity|];
      match goal with
      | |- lastExternalFrame ?below = Ok (nearestExtFrame ?i) /\ _ =>
          unshelve eapply (@debugTx_internal_frames_point_below TypeNode BytecodeInfo
                    getOpInfo changesMemory getOffsetSrc artifactManager getCodeHash
                    getCreationCodeHash isCalldataType2Slots variableDeclarationToTypeNode
                    getterArgsAndReturn getFunctionSelector getterCanonicalSignatureHash
                    decodeMsgData bufferFromHex rlp_decode bigintFromHex tx vm steps
                    _ _ st below i [])
      end
  end; by_running.
Defined.

(** X9, witness: the callee's frame in the snapshot of the LOG2 step. *)
Lemma runTx_frames_as_built_witness :
  exists trace st f,
    runTx tx vm steps = Ok trace /\
    nth_error trace 5 = Some st /\ nth_error (stack st) 1 = Some f /\
    builtFrame artifactManager f.
Proof.
  eexists _, _, _. split; [vm_compute; reflexivity|].
  split; [reflexivity|].
  match goal with
  | |- nth_error (stack ?st) _ = _ /\ _ =>
      split; [reflexivity|]; at_step (@debugTx_frames_as_built) st
  end; by_running.
Defined.

(** X10, witness: the JUMPDEST step, where [f] begins. *)
Lemma runTx_step_annotations_witness :
  exists trace st,
    runTx tx vm steps = Ok trace /\
    nth_error trace 1 = Some st /\
    getContractInfo (stack st) = Ok (contractInfo st) /\
    exists e,
      lastExternalFrame (stack st) = Ok e /\
      match info e with
      | None => src st = None /\ astNode st = None
      | Some ci =>
          src st = getOffsetSrc (pc st)
                     (match e with
                      | ECreation _ => bytecode ci
                      | ECall _ => deployedBytecode ci
                      end) /\
          astNode st = match src st with
                       | Some s => Map_get (srcMap (artifact ci)) (srcKey s)
                       | None => None
                       end
      end.
Proof.
  eexists _, _. split; [vm_compute; reflexivity|]. split; [reflexivity|].
  at_run (@debugTx_step_annotations); by_running.
Defined.

(** X11, witness: the code of the steps of the run over [steps]. *)
Lemma runTx_code_of_steps_witness :
  exists trace,
    runTx tx vm steps = Ok trace /\
    (forall st raw,
        nth_error trace 0 = Some st -> nth_error steps 0 = Some raw ->
        code st = getContractCode (step_stateManager raw) (codeAddress st) /\
        codeMdHash st = getCodeHash (code st)) /\
    (forall k prev cur raw,
        nth_error trace k = Some prev -> nth_error trace (S k) = Some cur ->
        nth_error steps (S k) = Some raw ->
        if createsContract (op prev) then
          exists wOff wSize,
            js_get (evmStack prev) (len (evmStack prev) - 1 - 1) = Some wOff /\
            js_get (evmStack prev) (len (evmStack prev) - 1 - 2) = Some wSize /\
            code cur = slice (memBytes (memory prev)) (bigEndianBufToNumber wOff)
                             (bigEndianBufToNumber wOff + bigEndianBufToNumber wSize) /\
            codeMdHash cur = getCreationCodeHash (code cur)
        else if Address_equals (codeAddress prev) (codeAddress cur) then
          code cur = code prev /\ codeMdHash cur = codeMdHash prev
        else
          code cur = getContractCode (step_stateManager raw) (codeAddress cur) /\
          codeMdHash cur = getCodeHash (code cur)).
Proof.
  eexists. split; [vm_compute; reflexivity|].
  at_run (@debugTx_code_of_steps); by_running.
Defined.

(** X12, witness: the events of the run over [steps]. *)
Lemma runTx_events_on_log_steps_witness :
  exists trace,
    runTx tx vm steps = Ok trace /\
    Forall2 (fun (st : StepState TypeNode BytecodeInfo) (raw : InterpreterStep) =>
               if String.prefix "LOG" (name (step_opcode raw))
               then 2 <= len (step_stack raw) /\ exists ev, emittedEvent st = Some ev
               else emittedEvent st = None)
            trace steps.
Proof.
  eexists. split; [vm_compute; reflexivity|].
  at_run (@debugTx_events_on_log_steps); by_running.
Defined.

(** An artifact manager that knows no contract. *)
Definition noArtifacts : IArtifactManager BytecodeInfo :=
  {| getContractFromMDHash := fun _ => None;
     getContractFromCreationBytecode := fun _ => None |}.

(** X13, witness: the run over [steps] without debug info. *)
Lemma runTx_without_debug_info_witness :
  exists trace,
    debugTx getOpInfo changesMemory getOffsetSrc noArtifacts getCodeHash
            getCreationCodeHash isCalldataType2Slots variableDeclarationToTypeNode
            getterArgsAndReturn getFunctionSelector getterCanonicalSignatureHash
            decodeMsgData bufferFromHex rlp_decode bigintFromHex tx vm steps = Ok trace /\
    forall st : StepState TypeNode BytecodeInfo, In st trace ->
      Forall (@bare TypeNode BytecodeInfo) (stack st) /\
      src st = None /\ astNode st = None /\ contractInfo st = None.
Proof.
  eexists. split; [vm_compute; reflexivity|].
  apply (@debugTx_without_debug_info TypeNode BytecodeInfo getOpInfo changesMemory
           getOffsetSrc noArtifacts getCodeHash getCreationCodeHash isCalldataType2Slots
           variableDeclarationToTypeNode getterArgsAndReturn getFunctionSelector
           getterCanonicalSignatureHash decodeMsgData bufferFromHex rlp_decode
           bigintFromHex tx vm steps);
    [reflexivity|reflexivity|vm_compute; reflexivity].
Defined.

(** X14, witness: a CREATE of the three memory bytes at offset 2, made by
    the contract at [addrA]. *)
Lemma adjust_contract_creation_witness :
  let stk := [callFrame addrA 0] in
  let lastStep := stepAt "CREATE" 3 1 [3; 2; 0] in
  let creationBytecode :=
    slice (memBytes (memory lastStep)) (bigEndianBufToNumber (wordOfBN 2))
          (bigEndianBufToNumber (wordOfBN 2) + bigEndianBufToNumber (wordOfBN 3)) in
  let curFrame :=
    makeCreationFrame TypeNode artifactManager (Address_toString addrA) creationBytecode
                      (len [lastStep]) in
  adjust stk (vmStateAt "PUSH1" 0 2 []) [lastStep] code0 md
    = Ok (stk ++ [External (ECreation curFrame)]) /\
  creationCode curFrame = creationBytecode /\
  creation_msgData curFrame = creationBytecode /\
  creation_sender curFrame = Address_toString addrA /\
  creation_startStep curFrame = len [lastStep] /\
  creation_info curFrame = getContractFromCreationBytecode artifactManager creationBytecode.
Proof.
  apply (@adjustStackFrame_contract_creation TypeNode BytecodeInfo getOffsetSrc artifactManager
           isCalldataType2Slots variableDeclarationToTypeNode getterArgsAndReturn
           getFunctionSelector getterCanonicalSignatureHash decodeMsgData
           [callFrame addrA 0] (vmStateAt "PUSH1" 0 2 []) [stepAt "CREATE" 3 1 [3; 2; 0]]
           (stepAt "CREATE" 3 1 [3; 2; 0]) code0 md
           (ECall (mkCall (Address_toString sender) addrA [xa9; x05; x9c; xbb]
                          [x60; x00] (Some "md") 0))
           (wordOfBN 2) (wordOfBN 3));
    vm_compute; reflexivity.
Defined.

(** X15, witness: two returns of one level against one return of two. *)
Lemma popFrames_compose_witness :
  popFrames 1 (popFrames 1 [callFrame addrA 0; callFrame addrB 4; internalFrame 5;
                            callFrame addrA 6]) =
  popFrames (1 + 1) [callFrame addrA 0; callFrame addrB 4; internalFrame 5;
                     callFrame addrA 6].
Proof.
  apply (@popFrames_compose TypeNode BytecodeInfo); [reflexivity|discriminate].
Defined.

(** X16, witness: a step at pc 99, which [srcTable] does not map. *)
Lemma processStep_missing_source_entry_aborts_witness :
  (exists x,
      processStep vm (rawStep "PUSH1" 99 0 []) [stepAt "PUSH1" 3 1 []] [callFrame addrA 0] 2
      = Fail x) /\
  (createsContract (op (stepAt "PUSH1" 3 1 [])) = false ->
   processStep vm (rawStep "PUSH1" 99 0 []) [stepAt "PUSH1" 3 1 []] [callFrame addrA 0] 2
   = Fail SrcMapError).
Proof.
  apply (@processRawTraceStep_missing_source_entry_aborts TypeNode BytecodeInfo
           getOpInfo changesMemory getOffsetSrc artifactManager getCodeHash
           getCreationCodeHash isCalldataType2Slots variableDeclarationToTypeNode
           getterArgsAndReturn getFunctionSelector getterCanonicalSignatureHash decodeMsgData
           bufferFromHex rlp_decode bigintFromHex
           vm (rawStep "PUSH1" 99 0 []) [stepAt "PUSH1" 3 1 []] [callFrame addrA 0] 2%nat
           (stepAt "PUSH1" 3 1 [])
           (ECall (mkCall (Address_toString sender) addrA [xa9; x05; x9c; xbb]
                          [x60; x00] (Some "md") 0))
           demoInfo);
    vm_compute; reflexivity.
Defined.

(** X17, witness: the same step as the first of a run. *)
Lemma processStep_first_step_tolerates_missing_source_witness :
  exists st nextId',
    processStep vm (rawStep "PUSH1" 99 0 []) [] [callFrame addrA 0] 0
    = Ok (st, [callFrame addrA 0], nextId') /\
    src st = None /\ astNode st = None /\ contractInfo st = Some demoInfo /\
    emittedEvent st = None /\ stack st = [callFrame addrA 0] /\
    code st = getContractCode vm (step_codeAddress (rawStep "PUSH1" 99 0 [])).
Proof.
  apply (@processRawTraceStep_first_step_tolerates_missing_source TypeNode BytecodeInfo
           getOpInfo changesMemory getOffsetSrc artifactManager getCodeHash
           getCreationCodeHash isCalldataType2Slots variableDeclarationToTypeNode
           getterArgsAndReturn getFunctionSelector getterCanonicalSignatureHash decodeMsgData
           bufferFromHex rlp_decode bigintFromHex
           vm (rawStep "PUSH1" 99 0 []) [callFrame addrA 0] 0%nat
           (ECall (mkCall (Address_toString sender) addrA [xa9; x05; x9c; xbb]
                          [x60; x00] (Some "md") 0))
           demoInfo);
    vm_compute; reflexivity.
Defined.

(** X19, witness: a call with two bytes of msg-data to the contract with
    debug info. *)
Lemma mkCall_short_data_witness :
  call_callee (mkCall (Address_toString sender) addrA [xa9; x05] code0 md 0) = None /\
  call_arguments (mkCall (Address_toString sender) addrA [xa9; x05] code0 md 0) = None.
Proof.
  apply (@makeCallFrame_short_data TypeNode BytecodeInfo artifactManager getFunctionSelector
           getterCanonicalSignatureHash decodeMsgData).
  - intros fn. reflexivity.
  - intros v abi h H. discriminate H.
  - cbn. lia.
Defined.

(** X20, witness: the arguments of [f] on the stack of the JUMPDEST step. *)
Lemma decodeFunArgs_result_shape_witness :
  exists args,
    decodeFunArgs isCalldataType2Slots variableDeclarationToTypeNode getterArgsAndReturn
                  (CalleeFun f) (map wordOfBN [5; 1; 32]) = Ok (Some args) /\
    exists formals,
      formalsOf variableDeclarationToTypeNode getterArgsAndReturn (CalleeFun f)
      = Some formals /\
      map fst args = map fst formals /\
      map (fun a => type (snd a)) args = map snd formals /\
      (forall i a, nth_error args i = Some a ->
         originalType (snd a) = None /\
         exists o, loc (snd a) = StackLocation o /\
                   0 <= o <= len (map wordOfBN [5; 1; 32])) /\
      (forall i j a b oa ob,
         (i < j)%nat -> nth_error args i = Some a -> nth_error args j = Some b ->
         loc (snd a) = StackLocation oa -> loc (snd b) = StackLocation ob -> ob < oa).
Proof.
  eexists. split; [vm_compute; reflexivity|].
  apply (@decodeFunArgs_result_shape TypeNode isCalldataType2Slots
           variableDeclarationToTypeNode getterArgsAndReturn (CalleeFun f)
           (map wordOfBN [5; 1; 32])).
  vm_compute; reflexivity.
Defined.

(** X21, witness: a LOG2 of 20 bytes at offset 5 of a memory of 8 bytes:
    the payload is the 3 bytes that are there. *)
Lemma extractEvent_payload_clamped_witness :
  exists ev,
    extractEvent "LOG2" (map wordOfBN [222; 111; 20; 5]) {| memId := 0; memBytes := mem8 |}
    = Ok (Some ev) /\
    payload ev = [x06; x07; x08] /\
    exists wOff wSize,
      js_get (map wordOfBN [222; 111; 20; 5]) (len (map wordOfBN [222; 111; 20; 5]) - 1)
      = Some wOff /\
      js_get (map wordOfBN [222; 111; 20; 5]) (len (map wordOfBN [222; 111; 20; 5]) - 2)
      = Some wSize /\
      let off := bigEndianBufToNumber wOff in
      let size := bigEndianBufToNumber wSize in
      let L := len (memBytes {| memId := 0; memBytes := mem8 |}) in
      len (payload ev) = Z.min (off + size) L - Z.min off L /\
      len (payload ev) <= size /\
      (off + size <= L -> len (payload ev) = size) /\
      (L <= off -> payload ev = []).
Proof.
  eexists. split; [vm_compute; reflexivity|]. split; [reflexivity|].
  apply (@extractEvent_payload_clamped "LOG2" (map wordOfBN [222; 111; 20; 5])
           {| memId := 0; memBytes := mem8 |}).
  vm_compute; reflexivity.
Defined.

(** X22, witness: from the JUMP at step 2 to the LOG2 at step 5, with the
    CALL (which changes memory) in between. *)
Lemma runTx_objects_between_steps_witness :
  exists trace si sj,
    runTx tx vm steps = Ok trace /\
    nth_error trace 2 = Some si /\ nth_error trace (2 + 3) = Some sj /\
    ((forall k sk, (2 <= k < 2 + 3)%nat -> nth_error trace k = Some sk ->
                   changesMemory (op sk) = false) ->
     memory sj = memory si) /\
    ((exists k sk, (2 <= k < 2 + 3)%nat /\ nth_error trace k = Some sk /\
                   changesMemory (op sk) = true) ->
     memId (memory sj) <> memId (memory si)) /\
    ((forall k sk, (2 <= k < 2 + 3)%nat -> nth_error trace k = Some sk ->
                   (opcode (op sk) =? OPCODES.SSTORE) = false) ->
     storage sj = storage si) /\
    ((exists k sk, (2 <= k < 2 + 3)%nat /\ nth_error trace k = Some sk /\
                   (opcode (op sk) =? OPCODES.SSTORE) = true) ->
     stoId (storage sj) <> stoId (storage si)).
Proof.
  eexists _, _, _. split; [vm_compute; reflexivity|].
  split; [reflexivity|]. split; [reflexivity|].
  at_step (@debugTx_objects_between_steps) 2%nat; by_running.
Defined.

(** X23, witness: the STOP at step 6 holds the memory of the step event
    after the CALL (step 4) and the storage fetched at the first step. *)
Lemma runTx_objects_as_of_last_refresh_witness :
  exists trace sr sj,
    runTx tx vm steps = Ok trace /\
    nth_error trace 4 = Some sr /\ nth_error trace (4 + 2) = Some sj /\
    ((4%nat = 0%nat \/
      exists r' p, 4%nat = S r' /\ nth_error trace r' = Some p /\
                   changesMemory (op p) = true) ->
     (forall k sk, (4 <= k < 4 + 2)%nat -> nth_error trace k = Some sk ->
                   changesMemory (op sk) = false) ->
     memBytes (memory sj) = step_memory (rawStep "PUSH1" 3 1 [])) /\
    ((4%nat = 0%nat \/
      exists r' p, 4%nat = S r' /\ nth_error trace r' = Some p /\
                   (opcode (op p) =? OPCODES.SSTORE) = true) ->
     (forall k sk, (4 <= k < 4 + 2)%nat -> nth_error trace k = Some sk ->
                   (opcode (op sk) =? OPCODES.SSTORE) = false) ->
     stoEntries (storage sj) =
     storageEntries bufferFromHex rlp_decode bigintFromHex
                    (step_stateManager (rawStep "PUSH1" 3 1 []))
                    (step_address (rawStep "PUSH1" 3 1 []))).
Proof.
  eexists _, _, _. split; [vm_compute; reflexivity|].
  split; [reflexivity|]. split; [reflexivity|].
  at_step (@debugTx_objects_as_of_last_refresh) 4%nat; by_running.
Defined.

End Demo.

(** X8, witness: the external frames in the snapshot of the LOG2 step of
    the demo run: the transaction's frame and the callee's. *)
Lemma runTx_sender_chain_witness :
  exists trace st,
    Demo.runTx Demo.tx Demo.vm Demo.steps = Ok trace /\
    nth_error trace 5 = Some st /\
    (exists e0 rest, externalFrames (stack st) = e0 :: rest /\
                     sender e0 = Address_toString (senderAddress Demo.tx)) /\
    (forall j a b,
        nth_error (externalFrames (stack st)) j = Some a ->
        nth_error (externalFrames (stack st)) (S j) = Some b ->
        sender b = Address_toString (address a)) /\
    (forall c, In (ECreation c) (externalFrames (stack st)) ->
               address (ECreation c) = ZERO_ADDRESS).
Proof.
  eexists _, _. split; [vm_compute; reflexivity|]. split; [reflexivity|].
  eapply (@debugTx_sender_chain Demo.TypeNode Demo.BytecodeInfo Demo.getOpInfo
            Demo.changesMemory Demo.getOffsetSrc Demo.artifactManager Demo.getCodeHash
            Demo.getCreationCodeHash Demo.isCalldataType2Slots
            Demo.variableDeclarationToTypeNode Demo.getterArgsAndReturn
            Demo.getFunctionSelector Demo.getterCanonicalSignatureHash Demo.decodeMsgData
            Demo.bufferFromHex Demo.rlp_decode Demo.bigintFromHex
            Demo.tx Demo.vm Demo.steps);
    [vm_compute; reflexivity|].
  vm_compute; repeat (first [left; reflexivity | right]).
Defined.
